(** * Timetable generation: the constraint model of [solver.py] and the
      timeslot index of [app.py]

    The development embeds [generate_schedule] (Backend/solver.py) and the
    timeslot re-mapping block of [get_all_solver_data] (Backend/app.py).
    The CP-SAT search itself is an external library: it appears here as a
    function [Solve] from models to a status and a valuation, constrained
    only by the contract [cp_sat_contract]. *)

From stdpp Require Import gmap strings list fin_maps sorting.
From Stdlib Require Import ZArith Lia.

Local Open Scope Z_scope.

(** ** Input records (the data contract consumed by the solver) *)

(** A timeslot is the tuple [(day, slot)]. *)
Definition Timeslot : Type := Z * Z.

Record Course := {
  c_id : Z;
  c_code : string;
  c_name : string;
  c_type : string;
  c_enrollment : Z;
  c_preferred_faculty : list Z
}.

Record Faculty := {
  f_id : Z;
  f_name : string;
  f_availability : list Timeslot
}.

Record Room := {
  r_id : Z;
  r_name : string;
  r_capacity : Z;
  r_type : string
}.

Record Election := {
  student_id : Z;
  course_id : Z
}.

Record Data := {
  COURSES : list Course;
  FACULTY : list Faculty;
  ROOMS : list Room;
  STUDENT_ELECTIONS : list Election;
  ALL_TIMESLOTS : list Timeslot
}.

(** One element of [temporary_constraints]. *)
Record TempConstraint := {
  tc_faculty_id : Z;
  tc_day : Z;
  tc_slot : Z
}.

(** One element of the returned list (and of [previous_schedule]). *)
Record Entry := {
  day : Z;
  slot : Z;
  course : Course;
  faculty : Faculty;
  room : Room
}.

(** ** The CP-SAT model as the code builds it *)

(** [model.NewBoolVar] hands out variables by index. *)
Definition BoolVar : Type := nat.

(** The comparisons handed to [model.Add].  Over an empty generator
    [sum(...)] is the integer 0, so that [sum(...) == 1] is the Python value
    [False] and [sum(...) <= 1] is [True]; [model.Add] takes them as the
    constraint that never holds and the one that always holds, which is what
    [SumEq [] 1] and [SumLe [] 1] mean below. *)
Inductive BoundedLinearExpression :=
  | SumEq (xs : list BoolVar) (k : nat)   (* sum(xs) == k *)
  | SumLe (xs : list BoolVar) (k : nat).  (* sum(xs) <= k *)

(** A constraint added by [model.Add(...)], with the literal of
    [.OnlyEnforceIf(...)] when there is one. *)
Record Ct := {
  ct_expr : BoundedLinearExpression;
  ct_only_enforce_if : option BoolVar
}.

Record CpModel := {
  num_vars : nat;
  constraints : list Ct;
  objective : option (list BoolVar)   (* model.Maximize(sum(...)) *)
}.

Definition CpModel_new : CpModel :=
  {| num_vars := 0; constraints := []; objective := None |}.

Definition NewBoolVar (m : CpModel) : BoolVar * CpModel :=
  (num_vars m,
   {| num_vars := S (num_vars m); constraints := constraints m;
      objective := objective m |}).

Definition Add (e : BoundedLinearExpression) (m : CpModel) : CpModel :=
  {| num_vars := num_vars m;
     constraints := constraints m ++ [{| ct_expr := e; ct_only_enforce_if := None |}];
     objective := objective m |}.

Definition AddOnlyEnforceIf (e : BoundedLinearExpression) (b : BoolVar)
    (m : CpModel) : CpModel :=
  {| num_vars := num_vars m;
     constraints := constraints m ++ [{| ct_expr := e; ct_only_enforce_if := Some b |}];
     objective := objective m |}.

Definition Maximize (xs : list BoolVar) (m : CpModel) : CpModel :=
  {| num_vars := num_vars m; constraints := constraints m;
     objective := Some xs |}.

(** *** Meaning of a model under a valuation of its Boolean variables *)

Definition Valuation : Type := BoolVar → bool.

Definition lin_sum (v : Valuation) (xs : list BoolVar) : nat :=
  sum_list_with (λ x, Nat.b2n (v x)) xs.

Definition expr_holds (v : Valuation) (e : BoundedLinearExpression) : bool :=
  match e with
  | SumEq xs k => Nat.eqb (lin_sum v xs) k
  | SumLe xs k => Nat.leb (lin_sum v xs) k
  end.

Definition ct_holds (v : Valuation) (c : Ct) : bool :=
  match ct_only_enforce_if c with
  | Some b => implb (v b) (expr_holds v (ct_expr c))
  | None => expr_holds v (ct_expr c)
  end.

Definition satisfies (v : Valuation) (m : CpModel) : bool :=
  forallb (ct_holds v) (constraints m).

Definition objective_value (v : Valuation) (m : CpModel) : nat :=
  match objective m with
  | Some xs => lin_sum v xs
  | None => 0%nat
  end.

(** *** The solver's answer *)

Inductive CpSolverStatus := UNKNOWN | MODEL_INVALID | FEASIBLE | INFEASIBLE | OPTIMAL.

Record Response := {
  status : CpSolverStatus;
  Value : Valuation
}.

(** What CP-SAT promises about its answer to model [m]. *)
Definition cp_sat_contract (m : CpModel) (r : Response) : Prop :=
  match status r with
  | OPTIMAL =>
      satisfies (Value r) m = true ∧
      ∀ v', satisfies v' m = true →
            (objective_value v' m ≤ objective_value (Value r) m)%nat
  | FEASIBLE => satisfies (Value r) m = true
  | INFEASIBLE => ∀ v', satisfies v' m = false
  | UNKNOWN | MODEL_INVALID => True
  end.

(** [CpSolver()] is used with its default parameters (no time limit), so
    the search ends with a proof of optimality or of infeasibility. *)
Definition ran_to_completion (r : Response) : Prop :=
  status r = OPTIMAL ∨ status r = INFEASIBLE.

(** ** generate_schedule, section 1: the decision variables *)

(** Keys of the [schedule] dict:
    [(course id, faculty id, room id, timeslot)]. *)
Definition Key : Type := Z * Z * Z * Timeslot.

Definition key (c : Course) (f : Faculty) (r : Room) (t : Timeslot) : Key :=
  (c_id c, f_id f, r_id r, t).

(** The test of lines 31-34. *)
Definition eligible (c : Course) (f : Faculty) (r : Room) (t : Timeslot) : bool :=
  bool_decide (f_id f ∈ c_preferred_faculty c) &&
  bool_decide (t ∈ f_availability f) &&
  bool_decide (r_capacity r >= c_enrollment c)%Z &&
  bool_decide (c_type c = r_type r).

(** The four nested loops of lines 26-29, in iteration order. *)
Definition quadruples (d : Data) : list (Course * Faculty * Room * Timeslot) :=
  c ← COURSES d; f ← FACULTY d; r ← ROOMS d; t ← ALL_TIMESLOTS d;
  [(c, f, r, t)].

Definition define_step (st : CpModel * gmap Key BoolVar)
    (q : Course * Faculty * Room * Timeslot) : CpModel * gmap Key BoolVar :=
  let '(c, f, r, t) := q in
  if eligible c f r t then
    let '(x, m) := NewBoolVar st.1 in
    (m, <[key c f r t := x]> st.2)
  else st.

Definition define_variables (d : Data) : CpModel * gmap Key BoolVar :=
  foldl define_step (CpModel_new, ∅) (quadruples d).

(** The [schedule] dict after section 1. *)
Definition schedule_of (d : Data) : gmap Key BoolVar := (define_variables d).2.

(** ** generate_schedule, section 2: the hard constraints *)

(** [schedule.get(k)] under the generator filter [if k in schedule]. *)
Definition var_at (schedule : gmap Key BoolVar) (k : Key) : list BoolVar :=
  option_list (schedule !! k).

(** [model.Add(e)] for each [e], in order. *)
Definition add_all (es : list BoundedLinearExpression) (m : CpModel) : CpModel :=
  foldl (λ m e, Add e m) m es.

(** Constraint 1 (lines 45-54): each course is taught exactly once. *)
Definition course_vars (d : Data) (schedule : gmap Key BoolVar) (cid : Z)
    : list BoolVar :=
  f ← FACULTY d; r ← ROOMS d; t ← ALL_TIMESLOTS d;
  var_at schedule (cid, f_id f, r_id r, t).

Definition course_uniqueness (d : Data) (schedule : gmap Key BoolVar)
    : list BoundedLinearExpression :=
  c ← COURSES d; [SumEq (course_vars d schedule (c_id c)) 1].

(** Constraint 2 (lines 58-67): a faculty member is in one place at a time. *)
Definition faculty_vars (d : Data) (schedule : gmap Key BoolVar) (fid : Z)
    (t : Timeslot) : list BoolVar :=
  c ← COURSES d; r ← ROOMS d; var_at schedule (c_id c, fid, r_id r, t).

Definition faculty_conflict (d : Data) (schedule : gmap Key BoolVar)
    : list BoundedLinearExpression :=
  f ← FACULTY d; t ← ALL_TIMESLOTS d;
  [SumLe (faculty_vars d schedule (f_id f) t) 1].

(** Constraint 3 (lines 71-80): a room hosts one class at a time. *)
Definition room_vars (d : Data) (schedule : gmap Key BoolVar) (rid : Z)
    (t : Timeslot) : list BoolVar :=
  c ← COURSES d; f ← FACULTY d; var_at schedule (c_id c, f_id f, rid, t).

Definition room_conflict (d : Data) (schedule : gmap Key BoolVar)
    : list BoundedLinearExpression :=
  r ← ROOMS d; t ← ALL_TIMESLOTS d;
  [SumLe (room_vars d schedule (r_id r) t) 1].

(** Constraint 4 (lines 84-103).  [student_enrollments] is a dict that is
    iterated with [.items()], so it is kept in insertion order. *)
Fixpoint od_lookup {V} (k : Z) (d : list (Z * V)) : option V :=
  match d with
  | [] => None
  | (k', v) :: d' => if decide (k' = k) then Some v else od_lookup k d'
  end.

(** [d[k] = v]: overwrite in place, or append a new item. *)
Fixpoint od_set {V} (k : Z) (v : V) (d : list (Z * V)) : list (Z * V) :=
  match d with
  | [] => [(k, v)]
  | (k', v') :: d' =>
      if decide (k' = k) then (k', v) :: d' else (k', v') :: od_set k v d'
  end.

(** One iteration of the loop of lines 85-90. *)
Definition enroll (se : list (Z * list Z)) (e : Election) : list (Z * list Z) :=
  let se1 :=
    match od_lookup (student_id e) se with
    | None => od_set (student_id e) [] se
    | Some _ => se
    end in
  match od_lookup (student_id e) se1 with
  | Some cs => od_set (student_id e) (cs ++ [course_id e]) se1
  | None => se1
  end.

Definition student_enrollments (d : Data) : list (Z * list Z) :=
  foldl enroll [] (STUDENT_ELECTIONS d).

Definition student_vars (d : Data) (schedule : gmap Key BoolVar)
    (enrolled_courses : list Z) (t : Timeslot) : list BoolVar :=
  cid ← enrolled_courses; f ← FACULTY d; r ← ROOMS d;
  var_at schedule (cid, f_id f, r_id r, t).

Definition student_conflict (d : Data) (schedule : gmap Key BoolVar)
    : list BoundedLinearExpression :=
  se ← student_enrollments d; t ← ALL_TIMESLOTS d;
  [SumLe (student_vars d schedule se.2 t) 1].

(** Constraint 5 (lines 106-121).  The fields read inside the [try] block
    are total on a [TempConstraint], and the index [schedule[...]] is
    guarded by the membership test, so the [except] branch is never taken. *)
Definition lock_exprs (d : Data) (schedule : gmap Key BoolVar)
    (constraint : TempConstraint) : list BoundedLinearExpression :=
  c ← COURSES d; r ← ROOMS d;
  match schedule !! (c_id c, tc_faculty_id constraint, r_id r,
                     (tc_day constraint, tc_slot constraint)) with
  | Some x => [SumEq [x] 0]
  | None => []
  end.

Definition temporary_exprs (d : Data) (schedule : gmap Key BoolVar)
    (temporary_constraints : option (list TempConstraint))
    : list BoundedLinearExpression :=
  match temporary_constraints with
  | None | Some [] => []
  | Some tcs => tcs ≫= lock_exprs d schedule
  end.

Definition hard_exprs (d : Data) (schedule : gmap Key BoolVar)
    (temporary_constraints : option (list TempConstraint))
    : list BoundedLinearExpression :=
  course_uniqueness d schedule ++ faculty_conflict d schedule ++
  room_conflict d schedule ++ student_conflict d schedule ++
  temporary_exprs d schedule temporary_constraints.

(** ** generate_schedule: the soft constraint (lines 128-150) *)

Definition old_schedule_map (previous_schedule : list Entry)
    : gmap Z (Z * Z * Timeslot) :=
  foldl (λ m item,
           <[c_id (course item) :=
               (f_id (faculty item), r_id (room item), (day item, slot item))]> m)
        ∅ previous_schedule.

(** One iteration of the loop of lines 138-147; the state is the model and
    the list [reward_points]. *)
Definition reward_step (schedule : gmap Key BoolVar)
    (old : gmap Z (Z * Z * Timeslot)) (st : CpModel * list BoolVar)
    (c : Course) : CpModel * list BoolVar :=
  match old !! c_id c with
  | Some (old_faculty, old_room, old_timeslot) =>
      match schedule !! (c_id c, old_faculty, old_room, old_timeslot) with
      | Some x =>
          let '(reward_var, m) := NewBoolVar st.1 in
          (AddOnlyEnforceIf (SumEq [x] 1) reward_var m, st.2 ++ [reward_var])
      | None => st
      end
  | None => st
  end.

Definition minimize_changes (d : Data) (schedule : gmap Key BoolVar)
    (previous_schedule : option (list Entry)) (m : CpModel) : CpModel :=
  match previous_schedule with
  | None | Some [] => m
  | Some items =>
      let '(m', reward_points) :=
        foldl (reward_step schedule (old_schedule_map items)) (m, []) (COURSES d) in
      Maximize reward_points m'
  end.

(** The model handed to [solver.Solve]. *)
Definition build_model (d : Data)
    (temporary_constraints : option (list TempConstraint))
    (previous_schedule : option (list Entry)) : CpModel :=
  let '(m, schedule) := define_variables d in
  minimize_changes d schedule previous_schedule
    (add_all (hard_exprs d schedule temporary_constraints) m).

(** ** generate_schedule, section 3: solve and decode (lines 153-185) *)

Definition course_map (d : Data) : gmap Z Course :=
  foldl (λ m c, <[c_id c := c]> m) ∅ (COURSES d).
Definition faculty_map (d : Data) : gmap Z Faculty :=
  foldl (λ m f, <[f_id f := f]> m) ∅ (FACULTY d).
Definition room_map (d : Data) : gmap Z Room :=
  foldl (λ m r, <[r_id r := r]> m) ∅ (ROOMS d).

(** The loops of lines 165-168, in iteration order. *)
Definition decode_order (d : Data) : list (Timeslot * Course * Faculty * Room) :=
  t ← ALL_TIMESLOTS d; c ← COURSES d; f ← FACULTY d; r ← ROOMS d;
  [(t, c, f, r)].

(** The test of lines 169-170. *)
Definition chosen (schedule : gmap Key BoolVar) (v : Valuation)
    (q : Timeslot * Course * Faculty * Room) : bool :=
  let '(t, c, f, r) := q in
  match schedule !! key c f r t with
  | Some x => v x
  | None => false
  end.

(** The dict literal of lines 172-178; [None] stands for a [KeyError]
    raised by one of the three indexings. *)
Definition result_entry (d : Data) (q : Timeslot * Course * Faculty * Room)
    : option Entry :=
  let '(t, c, f, r) := q in
  c' ← course_map d !! c_id c;
  f' ← faculty_map d !! f_id f;
  r' ← room_map d !! r_id r;
  Some {| day := t.1; slot := t.2; course := c'; faculty := f'; room := r' |}.

Definition results_of (d : Data) (schedule : gmap Key BoolVar) (v : Valuation)
    : option (list Entry) :=
  mapM (result_entry d) (filter (λ q, chosen schedule v q = true) (decode_order d)).

(** [results.sort(key=lambda x: (x["day"], x["slot"]))]: tuples compare
    lexicographically, and the sort is stable. *)
Definition sort_key (e : Entry) : Z * Z := (day e, slot e).

Definition tuple_lt (a b : Z * Z) : bool :=
  (a.1 <? b.1) || ((a.1 =? b.1) && (a.2 <? b.2)).

(** A stable sort by key: [x] goes in front of the first element whose key
    is not smaller. *)
Fixpoint insert_sorted {A} (key : A → Z * Z) (x : A) (l : list A) : list A :=
  match l with
  | [] => [x]
  | y :: l' =>
      if tuple_lt (key y) (key x) then y :: insert_sorted key x l'
      else x :: y :: l'
  end.

Definition sort_by_key {A} (key : A → Z * Z) (l : list A) : list A :=
  foldr (insert_sorted key) [] l.

Definition sort_results (l : list Entry) : list Entry :=
  sort_by_key sort_key l.

(** What a call of the function does: it raises, or it returns [None] or a
    list. *)
Inductive Outcome :=
  | Raised_KeyError
  | Returned (r : option (list Entry)).

Section generate_schedule.

(** [solver.Solve(model)] together with [solver.Value]. *)
Variable Solve : CpModel → Response.

Definition generate_schedule (data : Data)
    (temporary_constraints : option (list TempConstraint))
    (previous_schedule : option (list Entry)) : Outcome :=
  let schedule := schedule_of data in
  let model := build_model data temporary_constraints previous_schedule in
  let solver := Solve model in
  match status solver with
  | OPTIMAL | FEASIBLE =>
      match results_of data schedule (Value solver) with
      | Some results => Returned (Some (sort_results results))
      | None => Raised_KeyError
      end
  | _ => Returned None
  end.

End generate_schedule.

(** * Notions used in the statements *)

(** The four tests of lines 31-34 as a proposition. *)
Definition eligible_prop (c : Course) (f : Faculty) (r : Room) (t : Timeslot)
    : Prop :=
  f_id f ∈ c_preferred_faculty c ∧ t ∈ f_availability f ∧
  (r_capacity r >= c_enrollment c)%Z ∧ c_type c = r_type r.

(** Identifiers identify: the ids of the three record lists are pairwise
    distinct. *)
Definition unique_ids (d : Data) : Prop :=
  NoDup (c_id <$> COURSES d) ∧ NoDup (f_id <$> FACULTY d) ∧
  NoDup (r_id <$> ROOMS d).

(** The shape of [course_map], [faculty_map] and [room_map]: later records
    overwrite earlier ones with the same id. *)
Definition by_id {A} (g : A → Z) (m0 : gmap Z A) (l : list A) : gmap Z A :=
  foldl (λ m x, <[g x := x]> m) m0 l.

(** A constraint without enforcement literal. *)
Definition plain (e : BoundedLinearExpression) : Ct :=
  {| ct_expr := e; ct_only_enforce_if := None |}.

(** The variable [schedule[...]] that one iteration of the loop of lines
    138-147 rewards, if any. *)
Definition reward_target (schedule : gmap Key BoolVar)
    (old : gmap Z (Z * Z * Timeslot)) (c : Course) : list BoolVar :=
  match old !! c_id c with
  | Some (old_faculty, old_room, old_timeslot) =>
      option_list (schedule !! (c_id c, old_faculty, old_room, old_timeslot))
  | None => []
  end.

(** The rewarded variables, in the order of [COURSES]. *)
Definition reward_targets (schedule : gmap Key BoolVar)
    (old : gmap Z (Z * Z * Timeslot)) (cs : list Course) : list BoolVar :=
  cs ≫= reward_target schedule old.

(** The constraint [schedule[...] == 1] enforced by the [i]-th reward
    variable, when [n] variables existed before the loop. *)
Definition reward_ct (n : nat) (i : nat) (x : BoolVar) : Ct :=
  {| ct_expr := SumEq [x] 1; ct_only_enforce_if := Some (n + i)%nat |}.

(** The effect of the reward loop on the model and on [reward_points]. *)
Definition reward_post (st st' : CpModel * list BoolVar) (ts : list BoolVar)
    : Prop :=
  num_vars st'.1 = (num_vars st.1 + length ts)%nat ∧
  constraints st'.1 = constraints st.1 ++ imap (reward_ct (num_vars st.1)) ts ∧
  objective st'.1 = objective st.1 ∧
  st'.2 = st.2 ++ seq (num_vars st.1) (length ts).

(** The rewarded variables of a call, [] when [previous_schedule] is falsy. *)
Definition prev_targets (d : Data) (previous_schedule : option (list Entry))
    : list BoolVar :=
  match previous_schedule with
  | None | Some [] => []
  | Some items =>
      reward_targets (schedule_of d) (old_schedule_map items) (COURSES d)
  end.

(** The number of variables created by section 1. *)
Definition sched_vars (d : Data) : nat := num_vars (define_variables d).1.

(** The value of [schedule[k]] in the solution, [false] when [k] is not a
    key. *)
Definition val_at (schedule : gmap Key BoolVar) (v : Valuation) (k : Key) : bool :=
  match schedule !! k with
  | Some x => v x
  | None => false
  end.

(** The key an entry stands for. *)
Definition entry_key (e : Entry) : Key :=
  (c_id (course e), f_id (faculty e), r_id (room e), (day e, slot e)).

(** The key tested by an iteration of the decoding loops. *)
Definition hit_key (q : Timeslot * Course * Faculty * Room) : Key :=
  key q.1.1.2 q.1.2 q.2 q.1.1.1.

(** What an emitted entry carries. *)
Definition entry_for (d : Data) (q : Timeslot * Course * Faculty * Room)
    (e : Entry) : Prop :=
  entry_key e = hit_key q ∧
  course e ∈ COURSES d ∧ faculty e ∈ FACULTY d ∧ room e ∈ ROOMS d.

(** What the dict literal of lines 172-178 holds for an iteration of the
    decoding loops: the coordinate of the iteration and the records that
    the three maps give for the ids of the iteration. *)
Definition emitted (d : Data) (q : Timeslot * Course * Faculty * Room)
    (e : Entry) : Prop :=
  day e = q.1.1.1.1 ∧ slot e = q.1.1.1.2 ∧
  course_map d !! c_id q.1.1.2 = Some (course e) ∧
  faculty_map d !! f_id q.1.2 = Some (faculty e) ∧
  room_map d !! r_id q.2 = Some (room e).

(** The iterations of the decoding loops that emit an entry. *)
Definition hits (d : Data) (v : Valuation)
    : list (Timeslot * Course * Faculty * Room) :=
  filter (λ q, chosen (schedule_of d) v q = true) (decode_order d).

(** What the key [k] contributes to a sum. *)
Definition weight (d : Data) (v : Valuation) (k : Key) : nat :=
  Nat.b2n (val_at (schedule_of d) v k).

(** The courses of a student, as the election rows list them. *)
Definition courses_of (d : Data) (sid : Z) : list Z :=
  course_id <$> filter (λ e, student_id e = sid) (STUDENT_ELECTIONS d).

(** No quadruple whose course has the id of [c] passes the test of
    lines 31-34. *)
Definition no_eligible_quadruple (d : Data) (c : Course) : Prop :=
  ∀ c' f r t, c' ∈ COURSES d → c_id c' = c_id c → f ∈ FACULTY d →
              r ∈ ROOMS d → t ∈ ALL_TIMESLOTS d → eligible c' f r t = false.

(** Ascending order on [(day, slot)] tuples. *)
Definition tuple_le (a b : Z * Z) : Prop :=
  a.1 < b.1 ∨ (a.1 = b.1 ∧ a.2 ≤ b.2).

(** The order of the returned list. *)
Definition entry_le (e1 e2 : Entry) : Prop :=
  tuple_le (sort_key e1) (sort_key e2).

(** * The timeslot index of [get_all_solver_data] (app.py, lines 99-122) *)

(** A row of [SELECT id, day_of_week, start_time FROM timeslot]. *)
Record TimeslotRow := {
  ts_id : Z;
  day_of_week : string;
  start_time : Z
}.

Definition day_map : gmap string Z :=
  <["Fri" := 4]> (<["Thu" := 3]> (<["Wed" := 2]> (<["Tue" := 1]>
    (<["Mon" := 0]> ∅)))).

Definition slot_indices_init : gmap Z Z :=
  <[4 := 0]> (<[3 := 0]> (<[2 := 0]> (<[1 := 0]> (<[0 := 0]> ∅)))).

(** The loop of lines 106-120.  The state is [timeslot_id_map] (in
    insertion order, since [.values()] is read from it) and
    [slot_indices]; [None] stands for a [KeyError] of
    [slot_indices[day_num]]. *)
Fixpoint index_loop (all_timeslots_db : list TimeslotRow)
    (st : list (Z * Timeslot) * gmap Z Z)
    : option (list (Z * Timeslot) * gmap Z Z) :=
  match all_timeslots_db with
  | [] => Some st
  | ts :: rest =>
      match day_map !! day_of_week ts with
      | None => index_loop rest st
      | Some day_num =>
          current_slot_index ← st.2 !! day_num;
          index_loop rest
            (od_set (ts_id ts) (day_num, current_slot_index) st.1,
             <[day_num := current_slot_index + 1]> st.2)
      end
  end.

Definition timeslot_id_map (all_timeslots_db : list TimeslotRow)
    : option (list (Z * Timeslot)) :=
  fst <$> index_loop all_timeslots_db ([], slot_indices_init).

(** [list(timeslot_id_map.values())] *)
Definition ALL_TIMESLOTS_AS_TUPLES (m : list (Z * Timeslot)) : list Timeslot :=
  m.*2.

(** [{v: k for k, v in TIMESLOT_ID_MAP.items()}] (line 202) *)
Definition reverse_timeslot_map (m : list (Z * Timeslot)) : gmap Timeslot Z :=
  foldl (λ rev kv, <[kv.2 := kv.1]> rev) ∅ m.

(** Number of rows of day [D] among [rows]. *)
Definition count_day (D : Z) (rows : list TimeslotRow) : nat :=
  length (filter (λ r, day_map !! day_of_week r = Some D) rows).

(** The items the loop adds for [rows] when the rows [pre] came before. *)
Fixpoint index_items (pre rows : list TimeslotRow) : list (Z * Timeslot) :=
  match rows with
  | [] => []
  | ts :: rest =>
      match day_map !! day_of_week ts with
      | None => index_items (pre ++ [ts]) rest
      | Some D =>
          (ts_id ts, (D, Z.of_nat (count_day D pre)))
          :: index_items (pre ++ [ts]) rest
      end
  end.

(** The row is of one of the five days of [day_map]. *)
Definition is_weekday (ts : TimeslotRow) : Prop :=
  is_Some (day_map !! day_of_week ts).

(** Two valuations give the variables of [schedule] the same values. *)
Definition agree (d : Data) (v v' : Valuation) : Prop :=
  ∀ k x, schedule_of d !! k = Some x → v x = v' x.

(** The variables of a comparison. *)
Definition expr_vars (e : BoundedLinearExpression) : list BoolVar :=
  match e with SumEq xs _ | SumLe xs _ => xs end.

(** The value stored in [old_schedule_map] for an item (line 136). *)
Definition old_assignment (item : Entry) : Z * Z * Timeslot :=
  (f_id (faculty item), r_id (room item), (day item, slot item)).

(** The keys over which constraint 1 sums for the course id [cid]. *)
Definition course_keys (d : Data) (cid : Z) : list Key :=
  f ← FACULTY d; r ← ROOMS d; t ← ALL_TIMESLOTS d; [(cid, f_id f, r_id r, t)].

(** [P] is a schedule of the data [d]: the sorted decoding of a valuation
    that satisfies every hard constraint. *)
Definition feasible_prior (d : Data) (P : list Entry) : Prop :=
  ∃ v0 res,
    Forall (λ e, expr_holds v0 e = true) (hard_exprs d (schedule_of d) None) ∧
    results_of d (schedule_of d) v0 = Some res ∧
    P = sort_results res.

(** The prior valuation, with every reward variable set. *)
Definition with_rewards (d : Data) (v0 : Valuation) : Valuation :=
  λ x, if decide (x < sched_vars d)%nat then v0 x else true.

(** * The same function on a store of Python objects *)

Module Store.

Definition loc : Type := nat.

(** The objects the function touches.  Records and tuples are kept as
    values inside their cell; lists of records hold references. *)
Inductive Cell :=
  | CCourse (c : Course)
  | CFaculty (f : Faculty)
  | CRoom (r : Room)
  | CElection (e : Election)
  | CConstraint (k : TempConstraint)
  | CEntry (day slot : Z) (course faculty room : loc)
  | CList (xs : list loc)
  | CTimeslots (ts : list Timeslot)
  | CData (COURSES FACULTY ROOMS STUDENT_ELECTIONS ALL_TIMESLOTS : loc)
  | CModel (m : CpModel)
  | CSchedule (s : gmap Key BoolVar)
  | CEnrollments (se : list (Z * list Z))
  | COldMap (o : gmap Z (Z * Z * Timeslot))
  | CVars (xs : list BoolVar).

Inductive Res (A : Type) :=
  | Ok (a : A)
  | Error.
Arguments Ok {A} a.
Arguments Error {A}.

(** A computation on the store; [Error] is a raised exception. *)
Definition M (A : Type) : Type := gmap loc Cell → Res A * gmap loc Cell.

Definition ret {A} (a : A) : M A := λ h, (Ok a, h).
Definition bind {A B} (m : M A) (f : A → M B) : M B :=
  λ h, match m h with
       | (Ok a, h') => f a h'
       | (Error, h') => (Error, h')
       end.
Definition raise {A} : M A := λ h, (Error, h).

Global Instance M_ret : MRet M := @ret.
Global Instance M_bind : MBind M := λ A B f m, bind m f.

Definition read (l : loc) : M Cell :=
  λ h, match h !! l with Some c => (Ok c, h) | None => (Error, h) end.
Definition write (l : loc) (c : Cell) : M unit :=
  λ h, match h !! l with Some _ => (Ok tt, <[l := c]> h) | None => (Error, h) end.
Definition alloc (c : Cell) : M loc :=
  λ h, let l := fresh (dom h) in (Ok l, <[l := c]> h).

(** [try: ... except Exception: ...] with a handler that only prints. *)
Definition try_ (m : M unit) : M unit :=
  λ h, match m h with
       | (Ok a, h') => (Ok a, h')
       | (Error, h') => (Ok tt, h')
       end.

Definition read_course (l : loc) : M Course :=
  c ← read l; match c with CCourse x => mret x | _ => raise end.
Definition read_faculty (l : loc) : M Faculty :=
  c ← read l; match c with CFaculty x => mret x | _ => raise end.
Definition read_room (l : loc) : M Room :=
  c ← read l; match c with CRoom x => mret x | _ => raise end.
Definition read_election (l : loc) : M Election :=
  c ← read l; match c with CElection x => mret x | _ => raise end.
Definition read_constraint (l : loc) : M TempConstraint :=
  c ← read l; match c with CConstraint x => mret x | _ => raise end.
Definition read_entry (l : loc) : M (Z * Z * loc * loc * loc) :=
  c ← read l;
  match c with CEntry d s cl fl rl => mret (d, s, cl, fl, rl) | _ => raise end.
Definition read_list (l : loc) : M (list loc) :=
  c ← read l; match c with CList xs => mret xs | _ => raise end.
Definition read_timeslots (l : loc) : M (list Timeslot) :=
  c ← read l; match c with CTimeslots ts => mret ts | _ => raise end.
Definition read_data (l : loc) : M (loc * loc * loc * loc * loc) :=
  c ← read l;
  match c with CData cl fl rl sl tl => mret (cl, fl, rl, sl, tl) | _ => raise end.
Definition read_model (l : loc) : M CpModel :=
  c ← read l; match c with CModel m => mret m | _ => raise end.
Definition read_schedule (l : loc) : M (gmap Key BoolVar) :=
  c ← read l; match c with CSchedule s => mret s | _ => raise end.
Definition read_enrollments (l : loc) : M (list (Z * list Z)) :=
  c ← read l; match c with CEnrollments se => mret se | _ => raise end.
Definition read_old (l : loc) : M (gmap Z (Z * Z * Timeslot)) :=
  c ← read l; match c with COldMap o => mret o | _ => raise end.
Definition read_vars (l : loc) : M (list BoolVar) :=
  c ← read l; match c with CVars xs => mret xs | _ => raise end.

(** [for x in xs: body] *)
Fixpoint for_ {X} (xs : list X) (body : X → M unit) : M unit :=
  match xs with
  | [] => mret tt
  | x :: xs' => body x ;; for_ xs' body
  end.

(** A generator expression: the values yielded for each [x], in order. *)
Fixpoint gen {X Y} (xs : list X) (body : X → M (list Y)) : M (list Y) :=
  match xs with
  | [] => mret []
  | x :: xs' => ys ← body x; zs ← gen xs' body; mret (ys ++ zs)
  end.

(** Methods of the model object. *)
Definition new_bool_var (model : loc) : M BoolVar :=
  m ← read_model model;
  write model (CModel (NewBoolVar m).2);; mret (NewBoolVar m).1.
Definition add (model : loc) (e : BoundedLinearExpression) : M unit :=
  m ← read_model model; write model (CModel (Add e m)).
Definition add_only_enforce_if (model : loc) (e : BoundedLinearExpression)
    (b : BoolVar) : M unit :=
  m ← read_model model; write model (CModel (AddOnlyEnforceIf e b m)).
Definition maximize (model : loc) (xs : list BoolVar) : M unit :=
  m ← read_model model; write model (CModel (Maximize xs m)).

(** [schedule.get(k)] under the filter [if k in schedule]. *)
Definition get_var (schedule : loc) (k : Key) : M (list BoolVar) :=
  s ← read_schedule schedule; mret (option_list (s !! k)).

(** [{x["id"]: x for x in xs}]: the values are the records themselves. *)
Fixpoint id_map (read_id : loc → M Z) (xs : list loc) (acc : gmap Z loc)
    : M (gmap Z loc) :=
  match xs with
  | [] => mret acc
  | x :: xs' => i ← read_id x; id_map read_id xs' (<[i := x]> acc)
  end.

Definition index (m : gmap Z loc) (i : Z) : M loc :=
  match m !! i with Some l => mret l | None => raise end.

Section generate_schedule.
Variable Solve : CpModel → Response.

(** The five input lists and the two objects created first. *)
Variables (COURSES FACULTY ROOMS STUDENT_ELECTIONS ALL_TIMESLOTS : loc).
Variables (model schedule : loc).

(** Section 1 (lines 25-37). *)
Definition define_variables : M unit :=
  courses ← read_list COURSES; for_ courses (λ course,
  facultys ← read_list FACULTY; for_ facultys (λ faculty,
  rooms ← read_list ROOMS; for_ rooms (λ room,
  timeslots ← read_timeslots ALL_TIMESLOTS; for_ timeslots (λ timeslot,
    c ← read_course course; f ← read_faculty faculty; r ← read_room room;
    if eligible c f r timeslot then
      x ← new_bool_var model;
      s ← read_schedule schedule;
      write schedule (CSchedule (<[key c f r timeslot := x]> s))
    else mret tt)))).

(** Constraint 1 (lines 45-54). *)
Definition course_uniqueness : M unit :=
  courses ← read_list COURSES; for_ courses (λ course,
    xs ← (facultys ← read_list FACULTY; gen facultys (λ faculty,
          rooms ← read_list ROOMS; gen rooms (λ room,
          timeslots ← read_timeslots ALL_TIMESLOTS; gen timeslots (λ timeslot,
            c ← read_course course; f ← read_faculty faculty;
            r ← read_room room;
            get_var schedule (c_id c, f_id f, r_id r, timeslot)))));
    add model (SumEq xs 1)).

(** Constraint 2 (lines 58-67). *)
Definition faculty_conflict : M unit :=
  facultys ← read_list FACULTY; for_ facultys (λ faculty,
  timeslots ← read_timeslots ALL_TIMESLOTS; for_ timeslots (λ timeslot,
    xs ← (courses ← read_list COURSES; gen courses (λ course,
          rooms ← read_list ROOMS; gen rooms (λ room,
            c ← read_course course; f ← read_faculty faculty;
            r ← read_room room;
            get_var schedule (c_id c, f_id f, r_id r, timeslot))));
    add model (SumLe xs 1))).

(** Constraint 3 (lines 71-80). *)
Definition room_conflict : M unit :=
  rooms ← read_list ROOMS; for_ rooms (λ room,
  timeslots ← read_timeslots ALL_TIMESLOTS; for_ timeslots (λ timeslot,
    xs ← (courses ← read_list COURSES; gen courses (λ course,
          facultys ← read_list FACULTY; gen facultys (λ faculty,
            c ← read_course course; f ← read_faculty faculty;
            r ← read_room room;
            get_var schedule (c_id c, f_id f, r_id r, timeslot))));
    add model (SumLe xs 1))).

(** Constraint 4 (lines 84-103).  The lists stored in
    [student_enrollments] are created here and referenced from nowhere
    else, so they are kept inside the cell of the dict. *)
Definition student_conflict : M unit :=
  student_enrollments ← alloc (CEnrollments []);
  (elections ← read_list STUDENT_ELECTIONS; for_ elections (λ election,
     e ← read_election election;
     se ← read_enrollments student_enrollments;
     write student_enrollments (CEnrollments (enroll se e))));;
  items ← read_enrollments student_enrollments; for_ items (λ item,
  timeslots ← read_timeslots ALL_TIMESLOTS; for_ timeslots (λ timeslot,
    xs ← gen item.2 (λ course_id,
          facultys ← read_list FACULTY; gen facultys (λ faculty,
          rooms ← read_list ROOMS; gen rooms (λ room,
            f ← read_faculty faculty; r ← read_room room;
            get_var schedule (course_id, f_id f, r_id r, timeslot))));
    add model (SumLe xs 1))).

(** Constraint 5 (lines 106-121). *)
Definition temporary (temporary_constraints : option loc) : M unit :=
  match temporary_constraints with
  | None => mret tt
  | Some tcl =>
      constraints ← read_list tcl;
      match constraints with
      | [] => mret tt
      | _ =>
          for_ constraints (λ constraint, try_ (
            k ← read_constraint constraint;
            courses ← read_list COURSES; for_ courses (λ course,
            rooms ← read_list ROOMS; for_ rooms (λ room,
              c ← read_course course; r ← read_room room;
              s ← read_schedule schedule;
              match s !! (c_id c, tc_faculty_id k, r_id r,
                          (tc_day k, tc_slot k)) with
              | Some x => add model (SumEq [x] 0)
              | None => mret tt
              end))))
      end
  end.

(** The soft constraint (lines 128-150). *)
Definition minimize_changes (previous_schedule : option loc) : M unit :=
  match previous_schedule with
  | None => mret tt
  | Some pl =>
      items ← read_list pl;
      match items with
      | [] => mret tt
      | _ =>
          reward_points ← alloc (CVars []);
          old_schedule_map ← alloc (COldMap ∅);
          for_ items (λ item,
            '(d, s, cl, fl, rl) ← read_entry item;
            c ← read_course cl; f ← read_faculty fl; r ← read_room rl;
            o ← read_old old_schedule_map;
            write old_schedule_map
              (COldMap (<[c_id c := (f_id f, r_id r, (d, s))]> o)));;
          (courses ← read_list COURSES; for_ courses (λ course,
             c ← read_course course;
             o ← read_old old_schedule_map;
             match o !! c_id c with
             | Some (old_faculty, old_room, old_timeslot) =>
                 s ← read_schedule schedule;
                 match s !! (c_id c, old_faculty, old_room, old_timeslot) with
                 | Some x =>
                     reward_var ← new_bool_var model;
                     add_only_enforce_if model (SumEq [x] 1) reward_var;;
                     rp ← read_vars reward_points;
                     write reward_points (CVars (rp ++ [reward_var]))
                 | None => mret tt
                 end
             | None => mret tt
             end));;
          rp ← read_vars reward_points;
          maximize model rp
      end
  end.

(** Lines 160-181: the three maps are built once and only read, the list
    [results] is appended to and sorted in place. *)
Definition decode (solver : Response) : M loc :=
  course_map ← (courses ← read_list COURSES;
                id_map (λ l, c ← read_course l; mret (c_id c)) courses ∅);
  faculty_map ← (facultys ← read_list FACULTY;
                 id_map (λ l, f ← read_faculty l; mret (f_id f)) facultys ∅);
  room_map ← (rooms ← read_list ROOMS;
              id_map (λ l, r ← read_room l; mret (r_id r)) rooms ∅);
  results ← alloc (CList []);
  (timeslots ← read_timeslots ALL_TIMESLOTS; for_ timeslots (λ timeslot,
   courses ← read_list COURSES; for_ courses (λ course,
   facultys ← read_list FACULTY; for_ facultys (λ faculty,
   rooms ← read_list ROOMS; for_ rooms (λ room,
     c ← read_course course; f ← read_faculty faculty; r ← read_room room;
     s ← read_schedule schedule;
     match s !! key c f r timeslot with
     | Some x =>
         if Value solver x then
           cl ← index course_map (c_id c);
           fl ← index faculty_map (f_id f);
           rl ← index room_map (r_id r);
           entry ← alloc (CEntry timeslot.1 timeslot.2 cl fl rl);
           es ← read_list results;
           write results (CList (es ++ [entry]))
         else mret tt
     | None => mret tt
     end)))));;
  es ← read_list results;
  keyed ← gen es (λ e, '(d, s, _, _, _) ← read_entry e; mret [(e, (d, s))]);
  write results (CList (sort_by_key snd keyed).*1);;
  mret results.

End generate_schedule.

Definition generate_schedule (Solve : CpModel → Response) (data : loc)
    (temporary_constraints previous_schedule : option loc) : M (option loc) :=
  '(COURSES, FACULTY, ROOMS, STUDENT_ELECTIONS, ALL_TIMESLOTS) ← read_data data;
  model ← alloc (CModel CpModel_new);
  schedule ← alloc (CSchedule ∅);
  define_variables COURSES FACULTY ROOMS ALL_TIMESLOTS model schedule;;
  course_uniqueness COURSES FACULTY ROOMS ALL_TIMESLOTS model schedule;;
  faculty_conflict COURSES FACULTY ROOMS ALL_TIMESLOTS model schedule;;
  room_conflict COURSES FACULTY ROOMS ALL_TIMESLOTS model schedule;;
  student_conflict FACULTY ROOMS STUDENT_ELECTIONS ALL_TIMESLOTS model schedule;;
  temporary COURSES ROOMS model schedule temporary_constraints;;
  minimize_changes COURSES model schedule previous_schedule;;
  m ← read_model model;
  let solver := Solve m in
  match status solver with
  | OPTIMAL | FEASIBLE =>
      results ← decode COURSES FACULTY ROOMS ALL_TIMESLOTS schedule solver;
      mret (Some results)
  | _ => mret None
  end.

End Store.

(** ** Statements about the store *)

(** [m] changes no object of the store [h0] of the call. *)
Definition framed (h0 : gmap Store.loc Store.Cell) {A} (m : Store.M A) : Prop :=
  ∀ h, h0 ⊆ h → h0 ⊆ (m h).2.

(** [m] changes nothing at all. *)
Definition readonly {A} (m : Store.M A) : Prop := ∀ h, (m h).2 = h.

(** If [m] starts where [P] holds and returns [a], then [Q a] holds where
    it ends, and no object of the call was changed. *)
Definition hoare (h0 : gmap Store.loc Store.Cell) {A}
    (P : gmap Store.loc Store.Cell → Prop) (m : Store.M A)
    (Q : A → gmap Store.loc Store.Cell → Prop) : Prop :=
  ∀ h a h', h0 ⊆ h → P h → m h = (Store.Ok a, h') → h0 ⊆ h' ∧ Q a h'.

(** The entry object [e] refers to records of the three input lists. *)
Definition good_entry (cs fs rs : list Store.loc)
    (h : gmap Store.loc Store.Cell) (e : Store.loc) : Prop :=
  ∃ d s c f r, h !! e = Some (Store.CEntry d s c f r) ∧
               c ∈ cs ∧ f ∈ fs ∧ r ∈ rs.

(** [results] is a list made by this call, of entries whose records are
    records of the input lists. *)
Definition results_ok (h0 : gmap Store.loc Store.Cell)
    (cs fs rs : list Store.loc) (results : Store.loc)
    (h : gmap Store.loc Store.Cell) : Prop :=
  h0 !! results = None ∧
  ∃ es, h !! results = Some (Store.CList es) ∧ Forall (good_entry cs fs rs h) es.

(** ** The store against the values *)

(** How the two optional arguments are laid out in the store. *)
Definition rep_constraints (h : gmap Store.loc Store.Cell) (l : option Store.loc)
    (tc : option (list TempConstraint)) : Prop :=
  match l, tc with
  | None, None => True
  | Some l, Some ks =>
      ∃ ls, h !! l = Some (Store.CList ls) ∧
            Forall2 (λ l k, h !! l = Some (Store.CConstraint k)) ls ks
  | _, _ => False
  end.

Definition rep_entry (h : gmap Store.loc Store.Cell) (l : Store.loc) (e : Entry) : Prop :=
  ∃ c f r, h !! l = Some (Store.CEntry (day e) (slot e) c f r) ∧
           h !! c = Some (Store.CCourse (course e)) ∧
           h !! f = Some (Store.CFaculty (faculty e)) ∧
           h !! r = Some (Store.CRoom (room e)).

Definition rep_previous (h : gmap Store.loc Store.Cell) (l : option Store.loc)
    (prev : option (list Entry)) : Prop :=
  match l, prev with
  | None, None => True
  | Some l, Some es =>
      ∃ ls, h !! l = Some (Store.CList ls) ∧ Forall2 (rep_entry h) ls es
  | _, _ => False
  end.

(** The store [h] holds the data [d] behind the reference [data]. *)
Definition rep_data (h : gmap Store.loc Store.Cell) (data : Store.loc) (d : Data)
    : Prop :=
  ∃ cl fl rl sl tl cs fs rs ss,
    h !! data = Some (Store.CData cl fl rl sl tl) ∧
    h !! cl = Some (Store.CList cs) ∧ h !! fl = Some (Store.CList fs) ∧
    h !! rl = Some (Store.CList rs) ∧ h !! sl = Some (Store.CList ss) ∧
    h !! tl = Some (Store.CTimeslots (ALL_TIMESLOTS d)) ∧
    Forall2 (λ l c, h !! l = Some (Store.CCourse c)) cs (COURSES d) ∧
    Forall2 (λ l f, h !! l = Some (Store.CFaculty f)) fs (FACULTY d) ∧
    Forall2 (λ l r, h !! l = Some (Store.CRoom r)) rs (ROOMS d) ∧
    Forall2 (λ l e, h !! l = Some (Store.CElection e)) ss (STUDENT_ELECTIONS d).

(** While the function runs on the store [h0], the model object holds
    [st.1], the dict [schedule] holds [st.2], and the objects of [h0] are
    as they were. *)
Definition in_store (h0 : gmap Store.loc Store.Cell) (model schedule : Store.loc)
    (st : CpModel * gmap Key BoolVar) (h : gmap Store.loc Store.Cell) : Prop :=
  h0 ⊆ h ∧ h !! model = Some (Store.CModel st.1) ∧
  h !! schedule = Some (Store.CSchedule st.2).

(** An entry made by the call: its three records are objects of [h0]. *)
Definition entry_in (h0 h : gmap Store.loc Store.Cell) (l : Store.loc) (e : Entry)
    : Prop :=
  ∃ c f r, h !! l = Some (Store.CEntry (day e) (slot e) c f r) ∧
           h0 !! c = Some (Store.CCourse (course e)) ∧
           h0 !! f = Some (Store.CFaculty (faculty e)) ∧
           h0 !! r = Some (Store.CRoom (room e)).

(** One iteration of the loops of lines 165-178 on the list [results]. *)
Definition decode_step (d : Data) (schedule : gmap Key BoolVar) (v : Valuation)
    (results : list Entry) (q : Timeslot * Course * Faculty * Room) : list Entry :=
  if chosen schedule v q then
    match result_entry d q with
    | Some e => results ++ [e]
    | None => results
    end
  else results.

(** ** The store against a list with unreadable elements *)

(** The object [l] is the constraint [k], or, for [None], an object from
    which the three fields of a constraint cannot be read. *)
Definition rep_constraint_opt (h : gmap Store.loc Store.Cell) (l : Store.loc)
    (k : option TempConstraint) : Prop :=
  match k with
  | Some k => h !! l = Some (Store.CConstraint k)
  | None => ∃ c, h !! l = Some c ∧ ∀ k, c ≠ Store.CConstraint k
  end.

(** One iteration of the loop of line 108 on the model. *)
Definition lock_step (d : Data) (schedule : gmap Key BoolVar) (m : CpModel)
    (k : option TempConstraint) : CpModel :=
  match k with
  | Some k => add_all (lock_exprs d schedule k) m
  | None => m
  end.

(** ** The loop of the timeslot index *)

(** What the loop of lines 106-120 keeps true of [timeslot_id_map] and
    [slot_indices]: the five counters exist, no id and no coordinate occurs
    twice, every id is the id of a row, and a coordinate [(D, s)] of the
    map has [s] below the counter of day [D]. *)
Definition index_inv (ids : list Z) (st : list (Z * Timeslot) * gmap Z Z) : Prop :=
  (∀ D, D ∈ [0; 1; 2; 3; 4] → is_Some (st.2 !! D)) ∧
  NoDup st.1.*1 ∧ NoDup st.1.*2 ∧
  (∀ k, k ∈ st.1.*1 → k ∈ ids) ∧
  ∀ D s, (D, s) ∈ st.1.*2 → ∃ n, st.2 !! D = Some n ∧ s < n.

(** ** Assignments that are kept *)

(** The schedule [l] leaves the course [c] where [previous_schedule] has
    it: [l] has an entry with the key that [old_schedule_map] gives [c]. *)
Definition keeps (items l : list Entry) (c : Course) : bool :=
  match old_schedule_map items !! c_id c with
  | Some (old_faculty, old_room, old_timeslot) =>
      bool_decide
        (Exists (λ e, entry_key e = (c_id c, old_faculty, old_room, old_timeslot)) l)
  | None => false
  end.

(** The number of courses of [COURSES] that [l] leaves where
    [previous_schedule] has them. *)
Definition kept (d : Data) (items l : list Entry) : nat :=
  length (filter (λ c, keeps items l c = true) (COURSES d)).

(** * [app.py]: from the rows of the database to the solver and back *)

(** ** The rows of the queries of [get_all_solver_data] (lines 48-75) *)

(** [SELECT id, code, title as name, type, enrollment FROM course] *)
Record CourseRow := {
  cr_id : Z;
  cr_code : string;
  cr_name : string;
  cr_type : string;
  cr_enrollment : Z
}.

(** [SELECT id, name FROM faculty] *)
Record FacultyRow := {
  fr_id : Z;
  fr_name : string
}.

(** [SELECT entity_id as faculty_id, timeslot_id FROM constraint_log ...] *)
Record AvailabilityRow := {
  av_faculty_id : Z;
  av_timeslot_id : Z
}.

(** [SELECT faculty_id, course_id FROM faculty_preference] *)
Record PreferenceRow := {
  pr_faculty_id : Z;
  pr_course_id : Z
}.

(** What the seven [fetchall()] calls returned; the rows of [room] and of
    [student_course] have the fields of [Room] and [Election]. *)
Record QueryResults := {
  courses : list CourseRow;
  rooms : list Room;
  faculty_rows : list FacultyRow;
  student_elections : list Election;
  all_timeslots_db : list TimeslotRow;
  availability_rows : list AvailabilityRow;
  preference_rows : list PreferenceRow
}.

(** ** Re-formatting (lines 79-93 and 127-131) *)

(** [if k not in d: d[k] = []] followed by [d[k].append(v)]. *)
Definition append_at (k v : Z) (d : list (Z * list Z)) : list (Z * list Z) :=
  let d1 :=
    match od_lookup k d with
    | None => od_set k [] d
    | Some _ => d
    end in
  match od_lookup k d1 with
  | Some vs => od_set k (vs ++ [v]) d1
  | None => d1
  end.

(** Lines 79-85. *)
Definition faculty_availability (availability_rows : list AvailabilityRow)
    : list (Z * list Z) :=
  foldl (λ d row, append_at (av_faculty_id row) (av_timeslot_id row) d)
        [] availability_rows.

(** Lines 87-93. *)
Definition faculty_preferences (preference_rows : list PreferenceRow)
    : list (Z * list Z) :=
  foldl (λ d row, append_at (pr_course_id row) (pr_faculty_id row) d)
        [] preference_rows.

(** [d.get(k, [])] *)
Definition get_or_empty (k : Z) (d : list (Z * list Z)) : list Z :=
  default [] (od_lookup k d).

(** Line 128: the ids that are keys of [timeslot_id_map] are translated,
    the others are left out. *)
Definition with_availability (timeslot_id_map : list (Z * Timeslot))
    (faculty_availability : list (Z * list Z)) (f : FacultyRow) : Faculty :=
  {| f_id := fr_id f;
     f_name := fr_name f;
     f_availability :=
       omap (λ t_id, od_lookup t_id timeslot_id_map)
            (get_or_empty (fr_id f) faculty_availability) |}.

(** Line 131. *)
Definition with_preferred_faculty (faculty_preferences : list (Z * list Z))
    (c : CourseRow) : Course :=
  {| c_id := cr_id c;
     c_code := cr_code c;
     c_name := cr_name c;
     c_type := cr_type c;
     c_enrollment := cr_enrollment c;
     c_preferred_faculty := get_or_empty (cr_id c) faculty_preferences |}.

(** The dict that is returned (lines 137-144): [solver_data] is what the
    endpoints pass on to the solver, the package without its
    [TIMESLOT_ID_MAP] (lines 189 and 246). *)
Record Package := {
  solver_data : Data;
  TIMESLOT_ID_MAP : list (Z * Timeslot)
}.

(** Lines 77-144, after the queries; [None] stands for a [KeyError] of
    [slot_indices[day_num]]. *)
Definition get_all_solver_data (q : QueryResults) : option Package :=
  m ← timeslot_id_map (all_timeslots_db q);
  Some {| solver_data :=
            {| COURSES :=
                 with_preferred_faculty (faculty_preferences (preference_rows q))
                   <$> courses q;
               FACULTY :=
                 with_availability m (faculty_availability (availability_rows q))
                   <$> faculty_rows q;
               ROOMS := rooms q;
               STUDENT_ELECTIONS := student_elections q;
               ALL_TIMESLOTS := ALL_TIMESLOTS_AS_TUPLES m |};
          TIMESLOT_ID_MAP := m |}.

(** ** The two solver endpoints (lines 184-265) *)

(** The answers of the endpoints: the schedule as JSON, the 400 answer
    "No solution could be found", the 500 answer of the [except] branch. *)
Inductive HttpResponse :=
  | Http200 (final_schedule : list Entry)
  | Http400
  | Http500.

(** A row of the table [timetable]:
    [(course_id, faculty_id, room_id, timeslot_id)]. *)
Definition TimetableRow : Type := Z * Z * Z * Z.

(** Lines 202-212: an item is left out when its coordinate is no key of
    the reversed map, and when its timeslot id is [0] ([if timeslot_id:]). *)
Definition insert_data (TIMESLOT_ID_MAP : list (Z * Timeslot))
    (final_schedule : list Entry) : list TimetableRow :=
  omap (λ item,
          match reverse_timeslot_map TIMESLOT_ID_MAP !! (day item, slot item) with
          | Some timeslot_id =>
              if decide (timeslot_id = 0) then None
              else Some (c_id (course item), f_id (faculty item),
                         r_id (room item), timeslot_id)
          | None => None
          end)
       final_schedule.

Section endpoints.

Variable Solve : CpModel → Response.

(** [run_real_solver] (lines 184-224) on a database that answers: the
    result is the HTTP answer and the content of the table [timetable],
    which is replaced when a schedule is saved.  [if final_schedule:] is
    false for [None] and for the empty list. *)
Definition run_real_solver (q : QueryResults) (timetable : list TimetableRow)
    : HttpResponse * list TimetableRow :=
  match get_all_solver_data q with
  | None => (Http500, timetable)
  | Some solver_data_package =>
      match generate_schedule Solve (solver_data solver_data_package) None None with
      | Raised_KeyError => (Http500, timetable)
      | Returned None | Returned (Some []) => (Http400, timetable)
      | Returned (Some final_schedule) =>
          (Http200 final_schedule,
           insert_data (TIMESLOT_ID_MAP solver_data_package) final_schedule)
      end
  end.

(** [run_rescheduler] (lines 229-265); [None] is an absent (or empty)
    value of the request.  Nothing is saved. *)
Definition run_rescheduler (q : QueryResults)
    (new_constraint : option TempConstraint)
    (previous_schedule : option (list Entry)) : HttpResponse :=
  match new_constraint, previous_schedule with
  | Some constraint, Some (item :: items) =>
      match get_all_solver_data q with
      | None => Http500
      | Some solver_data_package =>
          match generate_schedule Solve (solver_data solver_data_package)
                  (Some [constraint]) (Some (item :: items)) with
          | Raised_KeyError => Http500
          | Returned None | Returned (Some []) => Http400
          | Returned (Some final_schedule) => Http200 final_schedule
          end
      end
  | _, _ => Http400
  end.

End endpoints.

(** * A worked timetable *)

Definition ex_c1 : Course :=
  {| c_id := 1; c_code := "CS101"; c_name := "Programming"; c_type := "lecture";
     c_enrollment := 30; c_preferred_faculty := [1] |}.
Definition ex_c2 : Course :=
  {| c_id := 2; c_code := "CS102"; c_name := "Logic"; c_type := "lecture";
     c_enrollment := 20; c_preferred_faculty := [1; 2] |}.
Definition ex_c3 : Course :=
  {| c_id := 3; c_code := "CS103"; c_name := "Seminar"; c_type := "lecture";
     c_enrollment := 5; c_preferred_faculty := [] |}.
Definition ex_f1 : Faculty :=
  {| f_id := 1; f_name := "Ada"; f_availability := [(0, 0); (0, 1)] |}.
Definition ex_f2 : Faculty :=
  {| f_id := 2; f_name := "Alan"; f_availability := [(0, 0)] |}.
Definition ex_r1 : Room :=
  {| r_id := 1; r_name := "R1"; r_capacity := 30; r_type := "lecture" |}.
Definition ex_r2 : Room :=
  {| r_id := 2; r_name := "R2"; r_capacity := 25; r_type := "lecture" |}.

Definition ex_data : Data :=
  {| COURSES := [ex_c1; ex_c2];
     FACULTY := [ex_f1; ex_f2];
     ROOMS := [ex_r1; ex_r2];
     STUDENT_ELECTIONS :=
       [ {| student_id := 7; course_id := 1 |};
         {| student_id := 7; course_id := 2 |};
         {| student_id := 8; course_id := 1 |} ];
     ALL_TIMESLOTS := [(0, 0); (0, 1)] |}.

(** The same data with a third course that nobody prefers to teach. *)
Definition ex_data_stuck : Data :=
  {| COURSES := [ex_c1; ex_c2; ex_c3];
     FACULTY := FACULTY ex_data;
     ROOMS := ROOMS ex_data;
     STUDENT_ELECTIONS := STUDENT_ELECTIONS ex_data;
     ALL_TIMESLOTS := ALL_TIMESLOTS ex_data |}.

(** Course 1 with faculty 1 in room 1 at (0, 1) is variable 1; course 2
    with faculty 2 in room 2 at (0, 0) is variable 7; 8 and 9 are the
    reward variables. *)
Definition ex_valuation : Valuation :=
  λ x, bool_decide (x ∈ [1; 7; 8; 9]%nat).

Definition ex_Solve_feasible (m : CpModel) : Response :=
  {| status := FEASIBLE; Value := ex_valuation |}.
Definition ex_Solve_optimal (m : CpModel) : Response :=
  {| status := OPTIMAL; Value := ex_valuation |}.
Definition ex_Solve_infeasible (m : CpModel) : Response :=
  {| status := INFEASIBLE; Value := λ _, false |}.

Definition ex_schedule : list Entry :=
  [ {| day := 0; slot := 0; course := ex_c2; faculty := ex_f2; room := ex_r2 |};
    {| day := 0; slot := 1; course := ex_c1; faculty := ex_f1; room := ex_r1 |} ].

(** Faculty 2 is locked at (0, 1), where the schedule does not use it. *)
Definition ex_lock : TempConstraint :=
  {| tc_faculty_id := 2; tc_day := 0; tc_slot := 1 |}.

Definition ex_rows : list TimeslotRow :=
  [ {| ts_id := 11; day_of_week := "Mon"; start_time := 9 |};
    {| ts_id := 12; day_of_week := "Mon"; start_time := 10 |};
    {| ts_id := 13; day_of_week := "Tue"; start_time := 9 |};
    {| ts_id := 14; day_of_week := "Sat"; start_time := 9 |} ].

(** The data of the worked timetable as objects of a store. *)
Definition ex_heap : gmap Store.loc Store.Cell :=
  list_to_map
    [ (0%nat, Store.CData 1%nat 2%nat 3%nat 4%nat 5%nat);
      (1%nat, Store.CList [10; 11]%nat); (2%nat, Store.CList [20; 21]%nat);
      (3%nat, Store.CList [30; 31]%nat);
      (4%nat, Store.CList [40; 41; 42]%nat);
      (5%nat, Store.CTimeslots [(0, 0); (0, 1)]);
      (10%nat, Store.CCourse ex_c1); (11%nat, Store.CCourse ex_c2);
      (20%nat, Store.CFaculty ex_f1); (21%nat, Store.CFaculty ex_f2);
      (30%nat, Store.CRoom ex_r1); (31%nat, Store.CRoom ex_r2);
      (40%nat, Store.CElection {| student_id := 7; course_id := 1 |});
      (41%nat, Store.CElection {| student_id := 7; course_id := 2 |});
      (42%nat, Store.CElection {| student_id := 8; course_id := 1 |}) ].


(** The worked timetable with a single student, who takes one course and
    is listed for it in two election rows; and without any student. *)
Definition ex_data_one_course : Data :=
  {| COURSES := COURSES ex_data;
     FACULTY := FACULTY ex_data;
     ROOMS := ROOMS ex_data;
     STUDENT_ELECTIONS :=
       [ {| student_id := 9; course_id := 1 |};
         {| student_id := 9; course_id := 1 |} ];
     ALL_TIMESLOTS := ALL_TIMESLOTS ex_data |}.

Definition ex_data_no_student : Data :=
  {| COURSES := COURSES ex_data;
     FACULTY := FACULTY ex_data;
     ROOMS := ROOMS ex_data;
     STUDENT_ELECTIONS := [];
     ALL_TIMESLOTS := ALL_TIMESLOTS ex_data |}.

(** The worked timetable with one election row repeated. *)
Definition ex_data_twice : Data :=
  {| COURSES := COURSES ex_data;
     FACULTY := FACULTY ex_data;
     ROOMS := ROOMS ex_data;
     STUDENT_ELECTIONS :=
       {| student_id := 7; course_id := 1 |} :: STUDENT_ELECTIONS ex_data;
     ALL_TIMESLOTS := ALL_TIMESLOTS ex_data |}.

(** Rows from which [get_all_solver_data] makes the worked timetable; the
    Saturday row and the availability row that refers to it are left out. *)
Definition ex_queries : QueryResults :=
  {| courses :=
       [ {| cr_id := 1; cr_code := "CS101"; cr_name := "Programming";
            cr_type := "lecture"; cr_enrollment := 30 |};
         {| cr_id := 2; cr_code := "CS102"; cr_name := "Logic";
            cr_type := "lecture"; cr_enrollment := 20 |} ];
     rooms := [ex_r1; ex_r2];
     faculty_rows :=
       [ {| fr_id := 1; fr_name := "Ada" |}; {| fr_id := 2; fr_name := "Alan" |} ];
     student_elections := STUDENT_ELECTIONS ex_data;
     all_timeslots_db :=
       [ {| ts_id := 11; day_of_week := "Mon"; start_time := 9 |};
         {| ts_id := 12; day_of_week := "Mon"; start_time := 10 |};
         {| ts_id := 14; day_of_week := "Sat"; start_time := 9 |} ];
     availability_rows :=
       [ {| av_faculty_id := 1; av_timeslot_id := 11 |};
         {| av_faculty_id := 2; av_timeslot_id := 11 |};
         {| av_faculty_id := 2; av_timeslot_id := 14 |};
         {| av_faculty_id := 1; av_timeslot_id := 12 |} ];
     preference_rows :=
       [ {| pr_faculty_id := 1; pr_course_id := 1 |};
         {| pr_faculty_id := 1; pr_course_id := 2 |};
         {| pr_faculty_id := 2; pr_course_id := 2 |} ] |}.

Definition ex_package : Package :=
  {| solver_data := ex_data;
     TIMESLOT_ID_MAP := [(11, (0, 0)); (12, (0, 1))] |}.

(** The same rows with an empty course table. *)
Definition ex_queries_no_courses : QueryResults :=
  {| courses := [];
     rooms := rooms ex_queries;
     faculty_rows := faculty_rows ex_queries;
     student_elections := [];
     all_timeslots_db := all_timeslots_db ex_queries;
     availability_rows := availability_rows ex_queries;
     preference_rows := [] |}.

(** The store of the worked timetable with a list of two constraint
    objects, the first of which is no constraint, and the store while the
    function runs, after section 1. *)
Definition ex_heap_locks : gmap Store.loc Store.Cell :=
  <[52%nat := Store.CConstraint ex_lock]>
    (<[51%nat := Store.CList []]>
       (<[50%nat := Store.CList [51; 52]%nat]> ex_heap)).

Definition ex_heap_running : gmap Store.loc Store.Cell :=
  <[61%nat := Store.CSchedule (schedule_of ex_data)]>
    (<[60%nat := Store.CModel (define_variables ex_data).1]> ex_heap_locks).

(** * Properties *)

(** ** Generic facts on lists *)

Lemma NoDup_fmap_eq {A B} (g : A → B) (l : list A) x y :
  NoDup (g <$> l) → x ∈ l → y ∈ l → g x = g y → x = y.
Proof.
  induction l as [|a l IH]; simpl; intros Hnd Hx Hy Hg.
  - by apply elem_of_nil in Hx.
  - apply NoDup_cons in Hnd as [Hna Hnd].
    apply elem_of_cons in Hx as [->|Hx]; apply elem_of_cons in Hy as [->|Hy];
      try done.
    + exfalso. apply Hna. rewrite Hg. by apply list_elem_of_fmap_2.
    + exfalso. apply Hna. rewrite <- Hg. by apply list_elem_of_fmap_2.
    + by apply IH.
Qed.

(** ** Section 1: which variables exist *)

Lemma eligible_spec c f r t : eligible c f r t = true ↔ eligible_prop c f r t.
Proof.
  unfold eligible, eligible_prop.
  rewrite !andb_true_iff, !bool_decide_eq_true. tauto.
Qed.

Lemma elem_of_quadruples d c f r t :
  (c, f, r, t) ∈ quadruples d ↔
  c ∈ COURSES d ∧ f ∈ FACULTY d ∧ r ∈ ROOMS d ∧ t ∈ ALL_TIMESLOTS d.
Proof.
  unfold quadruples. split.
  - intros (c' & Hq & Hc)%list_elem_of_bind.
    apply list_elem_of_bind in Hq as (f' & Hq & Hf).
    apply list_elem_of_bind in Hq as (r' & Hq & Hr).
    apply list_elem_of_bind in Hq as (t' & Hq & Ht).
    apply list_elem_of_singleton in Hq. by simplify_eq.
  - intros (Hc & Hf & Hr & Ht).
    apply list_elem_of_bind. exists c. split; [|done].
    apply list_elem_of_bind. exists f. split; [|done].
    apply list_elem_of_bind. exists r. split; [|done].
    apply list_elem_of_bind. exists t. split; [|done].
    by apply list_elem_of_singleton.
Qed.

Lemma define_step_lookup st q k :
  is_Some ((define_step st q).2 !! k) ↔
  is_Some (st.2 !! k) ∨
  (eligible q.1.1.1 q.1.1.2 q.1.2 q.2 = true ∧ key q.1.1.1 q.1.1.2 q.1.2 q.2 = k).
Proof.
  destruct q as [[[c f] r] t]. simpl.
  destruct (eligible c f r t) eqn:He; simpl.
  - rewrite lookup_insert_is_Some. destruct (decide (key c f r t = k)); naive_solver.
  - naive_solver.
Qed.

Lemma define_fold_lookup qs st k :
  is_Some ((foldl define_step st qs).2 !! k) ↔
  is_Some (st.2 !! k) ∨
  ∃ c f r t, (c, f, r, t) ∈ qs ∧ eligible c f r t = true ∧ key c f r t = k.
Proof.
  revert st. induction qs as [|q qs IH]; intros st; simpl.
  - split; [auto|]. intros [?|(c & f & r & t & H & _)]; [done|].
    by apply elem_of_nil in H.
  - rewrite IH, define_step_lookup. split.
    + intros [[?|[He Hk]]|(c & f & r & t & Hin & He & Hk)]; [by left| |].
      * right. destruct q as [[[c f] r] t]. exists c, f, r, t.
        split; [apply elem_of_cons; by left|done].
      * right. exists c, f, r, t. split; [apply elem_of_cons; by right|done].
    + intros [?|(c & f & r & t & Hin & He & Hk)]; [by left; left|].
      apply elem_of_cons in Hin as [<-|Hin]; [left; right; done|].
      right. by exists c, f, r, t.
Qed.

(** A key is in [schedule] exactly when some iteration of the four loops
    passed the test with that key. *)
Lemma schedule_key_iff d k :
  is_Some (schedule_of d !! k) ↔
  ∃ c f r t, c ∈ COURSES d ∧ f ∈ FACULTY d ∧ r ∈ ROOMS d ∧
             t ∈ ALL_TIMESLOTS d ∧ k = key c f r t ∧ eligible_prop c f r t.
Proof.
  unfold schedule_of, define_variables. rewrite define_fold_lookup. simpl.
  rewrite lookup_empty. split.
  - intros [[? ?]|(c & f & r & t & Hin & He & Hk)]; [done|].
    apply elem_of_quadruples in Hin as (? & ? & ? & ?).
    apply eligible_spec in He. by exists c, f, r, t.
  - intros (c & f & r & t & ? & ? & ? & ? & -> & He). right.
    exists c, f, r, t. rewrite elem_of_quadruples, eligible_spec. done.
Qed.

(** C4.  A key [(course id, faculty id, room id, timeslot)] is in the
    [schedule] dict if and only if records with these ids taken from the
    input lists, and a timeslot of [ALL_TIMESLOTS], pass the four tests
    together (faculty id in the course's preferred_faculty, timeslot in the
    faculty's availability, room capacity at least the enrollment, equal
    types).  With identifiers that identify, this reads on the records
    themselves: the variable of the quadruple [(c, f, r, t)] exists if and
    only if the four tests hold of [c], [f], [r] and [t]. *)
Theorem variable_exists_iff_eligible (d : Data) :
  (∀ k : Key,
     is_Some (schedule_of d !! k) ↔
     ∃ c f r t, c ∈ COURSES d ∧ f ∈ FACULTY d ∧ r ∈ ROOMS d ∧
                t ∈ ALL_TIMESLOTS d ∧ k = key c f r t ∧
                f_id f ∈ c_preferred_faculty c ∧ t ∈ f_availability f ∧
                (r_capacity r >= c_enrollment c)%Z ∧ c_type c = r_type r) ∧
  (unique_ids d →
   ∀ c f r t, c ∈ COURSES d → f ∈ FACULTY d → r ∈ ROOMS d →
              t ∈ ALL_TIMESLOTS d →
     (is_Some (schedule_of d !! key c f r t) ↔
      f_id f ∈ c_preferred_faculty c ∧ t ∈ f_availability f ∧
      (r_capacity r >= c_enrollment c)%Z ∧ c_type c = r_type r)).
Proof.
  split.
  - intros k. apply schedule_key_iff.
  - intros (Hc & Hf & Hr) c f r t Hcin Hfin Hrin Htin.
    rewrite schedule_key_iff. split.
    + intros (c' & f' & r' & t' & ? & ? & ? & ? & Hk & He).
      unfold key in Hk. simplify_eq.
      assert (c = c') as -> by (eapply (NoDup_fmap_eq c_id); eauto).
      assert (f = f') as -> by (eapply (NoDup_fmap_eq f_id); eauto).
      assert (r = r') as -> by (eapply (NoDup_fmap_eq r_id); eauto).
      exact He.
    + intros He. by exists c, f, r, t.
Qed.

(** ** Sums over nested loops *)

Lemma sum_list_with_zero {C} (l : list C) : sum_list_with (λ _, 0%nat) l = 0%nat.
Proof. induction l; simpl; lia. Qed.

Lemma sum_list_with_plus {C} (h h' : C → nat) (l : list C) :
  sum_list_with (λ a, (h a + h' a)%nat) l
  = (sum_list_with h l + sum_list_with h' l)%nat.
Proof. induction l; simpl; lia. Qed.

Section sums.
Context {A B : Type}.

Lemma sum_list_with_bind (h : B → nat) (g : A → list B) (l : list A) :
  sum_list_with h (l ≫= g) = sum_list_with (λ a, sum_list_with h (g a)) l.
Proof.
  induction l as [|a l IH]; [done|].
  rewrite bind_cons, sum_list_with_app, IH. done.
Qed.

Lemma sum_list_with_ext_in (h h' : A → nat) (l : list A) :
  (∀ a, a ∈ l → h a = h' a) → sum_list_with h l = sum_list_with h' l.
Proof.
  induction l as [|a l IH]; intros Hh; [done|]. simpl.
  rewrite (Hh a) by (apply elem_of_cons; by left).
  rewrite IH; [done|]. intros b Hb. apply Hh, elem_of_cons. by right.
Qed.

Lemma sum_list_with_le_in (h h' : A → nat) (l : list A) :
  (∀ a, a ∈ l → (h a ≤ h' a)%nat) →
  (sum_list_with h l ≤ sum_list_with h' l)%nat.
Proof.
  induction l as [|a l IH]; intros Hh; [done|]. simpl.
  assert (h a ≤ h' a)%nat by (apply Hh, elem_of_cons; by left).
  assert (sum_list_with h l ≤ sum_list_with h' l)%nat.
  { apply IH. intros b Hb. apply Hh, elem_of_cons. by right. }
  lia.
Qed.

(** Two nested loops can be swapped. *)
Lemma sum_list_with_exchange (h : A → B → nat) (l1 : list A) (l2 : list B) :
  sum_list_with (λ a, sum_list_with (λ b, h a b) l2) l1
  = sum_list_with (λ b, sum_list_with (λ a, h a b) l1) l2.
Proof.
  induction l1 as [|a l1 IH]; simpl.
  - symmetry. apply sum_list_with_zero.
  - by rewrite IH, sum_list_with_plus.
Qed.

Lemma length_filter_sum (P : A → Prop) `{∀ x, Decision (P x)} (l : list A) :
  length (filter P l) = sum_list_with (λ x, if decide (P x) then 1 else 0)%nat l.
Proof.
  induction l as [|a l IH]; [done|].
  rewrite filter_cons. simpl. destruct (decide (P a)); simpl; lia.
Qed.

(** A sum guarded by [g a = k] picks at most one term when the [g a] are
    pairwise distinct. *)
Lemma sum_guard_absent `{EqDecision K} (g : A → K) (h : A → nat) (l : list A) k :
  k ∉ g <$> l →
  sum_list_with (λ a, if decide (g a = k) then h a else 0%nat) l = 0%nat.
Proof.
  intros Hk. etrans; [|apply (sum_list_with_zero l)].
  apply sum_list_with_ext_in. intros a Ha.
  destruct (decide (g a = k)) as [Heq|]; [|done].
  exfalso. apply Hk. rewrite <- Heq. by apply list_elem_of_fmap_2.
Qed.

Lemma sum_guard_present `{EqDecision K} (g : A → K) (h : A → nat) (l : list A) a0 :
  NoDup (g <$> l) → a0 ∈ l →
  sum_list_with (λ a, if decide (g a = g a0) then h a else 0%nat) l = h a0.
Proof.
  induction l as [|a l IH]; simpl; intros Hnd Hin.
  - by apply elem_of_nil in Hin.
  - apply NoDup_cons in Hnd as [Hna Hnd].
    apply elem_of_cons in Hin as [->|Hin].
    + rewrite decide_True by done.
      rewrite sum_guard_absent by done. lia.
    + rewrite decide_False.
      * rewrite IH by done. lia.
      * intros Heq. apply Hna. rewrite Heq. by apply list_elem_of_fmap_2.
Qed.

Lemma length_filter_Forall2 (R : A → B → Prop) (P : A → Prop) (Q : B → Prop)
    `{∀ x, Decision (P x)} `{∀ y, Decision (Q y)} l k :
  Forall2 R l k → (∀ x y, R x y → (P x ↔ Q y)) →
  length (filter P l) = length (filter Q k).
Proof.
  intros HF HPQ. induction HF as [|x y l k HR HF IH]; [done|].
  rewrite !filter_cons. specialize (HPQ x y HR).
  destruct (decide (P x)), (decide (Q y)); simpl; tauto || lia.
Qed.

End sums.

(** ** Dicts built by comprehension: [{x["id"]: x for x in xs}] *)

Section id_maps.
Context {A : Type} (g : A → Z).

Lemma by_id_lookup_Some l m0 k x :
  by_id g m0 l !! k = Some x → m0 !! k = Some x ∨ (x ∈ l ∧ g x = k).
Proof.
  revert m0. induction l as [|a l IH]; intros m0; simpl; [by left|].
  intros [Hm|[Hin Hk]]%IH.
  - apply lookup_insert_Some in Hm as [[<- <-]|[_ Hm]]; [|by left].
    right. split; [apply elem_of_cons; by left|done].
  - right. split; [apply elem_of_cons; by right|done].
Qed.

Lemma by_id_mono l m0 k : is_Some (m0 !! k) → is_Some (by_id g m0 l !! k).
Proof.
  revert m0. induction l as [|a l IH]; intros m0 Hm; simpl; [done|].
  apply IH. rewrite lookup_insert_is_Some.
  destruct (decide (g a = k)); [by left|by right].
Qed.

Lemma by_id_is_Some l m0 x : x ∈ l → is_Some (by_id g m0 l !! g x).
Proof.
  revert m0. induction l as [|a l IH]; intros m0 Hin; simpl.
  - by apply elem_of_nil in Hin.
  - apply elem_of_cons in Hin as [->|Hin]; [|by apply IH].
    apply by_id_mono. rewrite lookup_insert_eq. by eexists.
Qed.

Lemma by_id_lookup_unique l x :
  NoDup (g <$> l) → x ∈ l → by_id g ∅ l !! g x = Some x.
Proof.
  intros Hnd Hin. destruct (by_id_is_Some l ∅ x Hin) as [y Hy].
  rewrite Hy. f_equal.
  apply by_id_lookup_Some in Hy as [Hy|[Hyin Hg]]; [by rewrite lookup_empty in Hy|].
  by apply (NoDup_fmap_eq g l).
Qed.

End id_maps.

(** ** Shape of the model that is built *)

Lemma add_all_spec es m :
  num_vars (add_all es m) = num_vars m ∧
  constraints (add_all es m) = constraints m ++ (plain <$> es) ∧
  objective (add_all es m) = objective m.
Proof.
  unfold add_all. revert m. induction es as [|e es IH]; intros m; simpl.
  - by rewrite app_nil_r.
  - destruct (IH (Add e m)) as (-> & -> & ->). simpl.
    by rewrite <- app_assoc.
Qed.

Lemma define_fold_frame qs st :
  constraints (foldl define_step st qs).1 = constraints st.1 ∧
  objective (foldl define_step st qs).1 = objective st.1.
Proof.
  revert st. induction qs as [|q qs IH]; intros st; simpl; [done|].
  destruct (IH (define_step st q)) as [-> ->].
  destruct q as [[[c f] r] t]. unfold define_step.
  by destruct (eligible c f r t).
Qed.

(** Every variable stored in [schedule] was handed out by [NewBoolVar]. *)
Lemma define_fold_bound qs st :
  (∀ k x, st.2 !! k = Some x → (x < num_vars st.1)%nat) →
  ∀ k x, (foldl define_step st qs).2 !! k = Some x →
         (x < num_vars (foldl define_step st qs).1)%nat.
Proof.
  revert st. induction qs as [|q qs IH]; intros st Hst; simpl; [done|].
  apply IH. destruct q as [[[c f] r] t]. unfold define_step.
  destruct (eligible c f r t); [|done]. simpl.
  intros k x [[_ <-]|[_ Hk]]%lookup_insert_Some; [lia|].
  apply Hst in Hk. lia.
Qed.

Lemma schedule_var_bound d k x :
  schedule_of d !! k = Some x → (x < num_vars (define_variables d).1)%nat.
Proof.
  unfold schedule_of, define_variables. apply define_fold_bound.
  intros k' x'. simpl. by rewrite lookup_empty.
Qed.

Lemma reward_step_spec schedule old st c :
  reward_post st (reward_step schedule old st c) (reward_target schedule old c).
Proof.
  unfold reward_post, reward_step, reward_target.
  destruct (old !! c_id c) as [[[old_faculty old_room] old_timeslot]|]; simpl.
  - destruct (schedule !! (c_id c, old_faculty, old_room, old_timeslot));
      simpl; rewrite ?app_nil_r, ?Nat.add_0_r; repeat split; try lia.
    unfold reward_ct. by rewrite Nat.add_0_r.
  - rewrite !app_nil_r. repeat split; lia.
Qed.

Lemma reward_fold_spec schedule old cs st :
  reward_post st (foldl (reward_step schedule old) st cs)
              (reward_targets schedule old cs).
Proof.
  revert st. induction cs as [|c cs IH]; intros st.
  - unfold reward_post. simpl. rewrite !app_nil_r. repeat split; lia.
  - change (foldl (reward_step schedule old) st (c :: cs))
      with (foldl (reward_step schedule old) (reward_step schedule old st c) cs).
    unfold reward_targets. rewrite bind_cons.
    fold (reward_targets schedule old cs).
    destruct (IH (reward_step schedule old st c)) as (Hn & Hc & Ho & Hr).
    destruct (reward_step_spec schedule old st c) as (Hn1 & Hc1 & Ho1 & Hr1).
    unfold reward_post.
    rewrite Hn, Hc, Ho, Hr, Hn1, Hc1, Ho1, Hr1.
    rewrite length_app, imap_app, seq_app, <- !app_assoc.
    repeat split; [lia|].
    do 2 f_equal. apply imap_ext. intros i x _. unfold reward_ct.
    do 2 f_equal. lia.
Qed.

Lemma define_variables_frame d :
  constraints (define_variables d).1 = [] ∧
  objective (define_variables d).1 = None.
Proof. unfold define_variables. apply define_fold_frame. Qed.

Lemma minimize_changes_spec d prev m :
  num_vars m = sched_vars d →
  constraints (minimize_changes d (schedule_of d) prev m)
  = constraints m ++ imap (reward_ct (sched_vars d)) (prev_targets d prev) ∧
  objective (minimize_changes d (schedule_of d) prev m)
  = match prev with
    | None | Some [] => objective m
    | Some _ => Some (seq (sched_vars d) (length (prev_targets d prev)))
    end.
Proof.
  intros Hn. unfold minimize_changes, prev_targets.
  destruct prev as [[|item items]|]; simpl; rewrite ?app_nil_r; try done.
  pose proof (reward_fold_spec (schedule_of d)
                (old_schedule_map (item :: items)) (COURSES d) (m, []))
    as (_ & Hc & _ & Hr).
  destruct (foldl _ (m, []) (COURSES d)) as [m' rp]. simpl in *.
  rewrite Hc, Hr, Hn. done.
Qed.

Lemma build_model_spec d tc prev :
  constraints (build_model d tc prev)
  = (plain <$> hard_exprs d (schedule_of d) tc)
    ++ imap (reward_ct (sched_vars d)) (prev_targets d prev) ∧
  objective (build_model d tc prev)
  = match prev with
    | None | Some [] => None
    | Some _ => Some (seq (sched_vars d) (length (prev_targets d prev)))
    end.
Proof.
  unfold build_model.
  pose proof (define_variables_frame d) as [Hc Ho].
  assert (schedule_of d = (define_variables d).2) as Hs by done.
  assert (sched_vars d = num_vars (define_variables d).1) as Hv by done.
  destruct (define_variables d) as [m schedule]. simpl in *. subst schedule.
  destruct (add_all_spec (hard_exprs d (schedule_of d) tc) m) as (Hn' & Hc' & Ho').
  destruct (minimize_changes_spec d prev
              (add_all (hard_exprs d (schedule_of d) tc) m)) as [-> ->];
    [congruence|].
  rewrite Hc', Hc, Ho', Ho. done.
Qed.

(** ** Reading a satisfied model *)

Lemma satisfies_Forall v m :
  satisfies v m = true ↔ Forall (λ c, ct_holds v c = true) (constraints m).
Proof.
  unfold satisfies. rewrite forallb_forall, Forall_forall.
  split; intros H x Hx; apply H; by apply list_elem_of_In.
Qed.

Lemma reward_ct_holds v n i x :
  ct_holds v (reward_ct n i x) = true ↔ (v (n + i)%nat = true → v x = true).
Proof.
  unfold ct_holds, reward_ct, lin_sum. simpl.
  destruct (v (n + i)%nat), (v x); simpl; intuition congruence.
Qed.

Lemma satisfies_build_model v d tc prev :
  satisfies v (build_model d tc prev) = true ↔
  Forall (λ e, expr_holds v e = true) (hard_exprs d (schedule_of d) tc) ∧
  (∀ i x, prev_targets d prev !! i = Some x →
          v (sched_vars d + i)%nat = true → v x = true).
Proof.
  rewrite satisfies_Forall. destruct (build_model_spec d tc prev) as [-> _].
  rewrite Forall_app, Forall_fmap. apply and_iff_compat_l.
  rewrite Forall_lookup. split.
  - intros H i x Hi. apply reward_ct_holds.
    apply (H i). rewrite list_lookup_imap, Hi. done.
  - intros H i c. rewrite list_lookup_imap.
    destruct (prev_targets d prev !! i) as [x|] eqn:Hi; simpl; [|done].
    intros [= <-]. apply reward_ct_holds. by apply H.
Qed.

Lemma lin_sum_bind {A} v (g : A → list BoolVar) (l : list A) :
  lin_sum v (l ≫= g) = sum_list_with (λ a, lin_sum v (g a)) l.
Proof. apply sum_list_with_bind. Qed.

Lemma lin_sum_var_at schedule v k :
  lin_sum v (var_at schedule k) = Nat.b2n (val_at schedule v k).
Proof.
  unfold var_at, val_at, lin_sum. destruct (schedule !! k); simpl; lia.
Qed.

(** ** Decoding *)

Lemma elem_of_decode_order d t c f r :
  (t, c, f, r) ∈ decode_order d ↔
  t ∈ ALL_TIMESLOTS d ∧ c ∈ COURSES d ∧ f ∈ FACULTY d ∧ r ∈ ROOMS d.
Proof.
  unfold decode_order. split.
  - intros (t' & Hq & Ht)%list_elem_of_bind.
    apply list_elem_of_bind in Hq as (c' & Hq & Hc).
    apply list_elem_of_bind in Hq as (f' & Hq & Hf).
    apply list_elem_of_bind in Hq as (r' & Hq & Hr).
    apply list_elem_of_singleton in Hq. by simplify_eq.
  - intros (Ht & Hc & Hf & Hr).
    apply list_elem_of_bind. exists t. split; [|done].
    apply list_elem_of_bind. exists c. split; [|done].
    apply list_elem_of_bind. exists f. split; [|done].
    apply list_elem_of_bind. exists r. split; [|done].
    by apply list_elem_of_singleton.
Qed.

(** The three indexings of lines 175-177 never raise. *)
Lemma result_entry_spec d q :
  q ∈ decode_order d →
  ∃ e, result_entry d q = Some e ∧ entry_for d q e.
Proof.
  destruct q as [[[t c] f] r]. intros (Ht & Hc & Hf & Hr)%elem_of_decode_order.
  unfold result_entry, course_map, faculty_map, room_map.
  destruct (by_id_is_Some c_id (COURSES d) ∅ c Hc) as [c' Hc'].
  destruct (by_id_is_Some f_id (FACULTY d) ∅ f Hf) as [f' Hf'].
  destruct (by_id_is_Some r_id (ROOMS d) ∅ r Hr) as [r' Hr'].
  unfold by_id in *. rewrite Hc', Hf', Hr'. simpl.
  eexists. split; [done|].
  apply (by_id_lookup_Some c_id) in Hc' as [Hc'|[? Hci]];
    [by rewrite lookup_empty in Hc'|].
  apply (by_id_lookup_Some f_id) in Hf' as [Hf'|[? Hfi]];
    [by rewrite lookup_empty in Hf'|].
  apply (by_id_lookup_Some r_id) in Hr' as [Hr'|[? Hri]];
    [by rewrite lookup_empty in Hr'|].
  unfold entry_for, entry_key, hit_key, key. simpl.
  rewrite Hci, Hfi, Hri. by destruct t.
Qed.

Lemma results_of_total d v :
  ∃ res, results_of d (schedule_of d) v = Some res ∧
         Forall2 (entry_for d) (hits d v) res.
Proof.
  unfold results_of. fold (hits d v).
  assert (Forall (λ q, q ∈ decode_order d) (hits d v)) as Hin.
  { apply Forall_forall. intros q Hq. unfold hits in Hq.
    by apply list_elem_of_filter in Hq as [_ ?]. }
  induction Hin as [|q l Hq Hl IH].
  - exists []. split; [done|constructor].
  - destruct IH as (res & Hres & HF).
    destruct (result_entry_spec d q Hq) as (e & He & Hfor).
    exists (e :: res). split; [|by constructor].
    cbn. rewrite He. simpl. rewrite Hres. done.
Qed.

(** *** The sort *)

Lemma insert_sorted_Permutation {A} (key : A → Z * Z) x l :
  insert_sorted key x l ≡ₚ x :: l.
Proof.
  induction l as [|y l IH]; simpl; [done|].
  destruct (tuple_lt (key y) (key x)); [|done].
  rewrite IH. apply Permutation_swap.
Qed.

Lemma sort_by_key_Permutation {A} (key : A → Z * Z) l : sort_by_key key l ≡ₚ l.
Proof.
  induction l as [|x l IH]; simpl; [done|].
  by rewrite insert_sorted_Permutation, IH.
Qed.

Lemma sort_results_Permutation l : sort_results l ≡ₚ l.
Proof. apply sort_by_key_Permutation. Qed.

(** *** Counting the entries of a returned schedule *)

Lemma chosen_val_at d v q :
  chosen (schedule_of d) v q = val_at (schedule_of d) v (hit_key q).
Proof. by destruct q as [[[t c] f] r]. Qed.

Lemma sum_decode_order (h : Timeslot * Course * Faculty * Room → nat) d :
  sum_list_with h (decode_order d)
  = sum_list_with (λ t, sum_list_with (λ c, sum_list_with (λ f,
      sum_list_with (λ r, h (t, c, f, r)) (ROOMS d)) (FACULTY d)) (COURSES d))
      (ALL_TIMESLOTS d).
Proof.
  unfold decode_order. rewrite sum_list_with_bind.
  apply sum_list_with_ext_in. intros t _. rewrite sum_list_with_bind.
  apply sum_list_with_ext_in. intros c _. rewrite sum_list_with_bind.
  apply sum_list_with_ext_in. intros f _. rewrite sum_list_with_bind.
  apply sum_list_with_ext_in. intros r _. simpl. lia.
Qed.

Section returned.
Variable Solve : CpModel → Response.
Variables (d : Data) (tc : option (list TempConstraint))
          (prev : option (list Entry)).

(** The function never raises: it returns [None], or the sorted decoding
    of the solver's valuation. *)
Lemma generate_schedule_outcome :
  ∃ res, results_of d (schedule_of d)
           (Value (Solve (build_model d tc prev))) = Some res ∧
         Forall2 (entry_for d)
           (hits d (Value (Solve (build_model d tc prev)))) res ∧
         generate_schedule Solve d tc prev
         = match status (Solve (build_model d tc prev)) with
           | OPTIMAL | FEASIBLE => Returned (Some (sort_results res))
           | _ => Returned None
           end.
Proof.
  destruct (results_of_total d (Value (Solve (build_model d tc prev))))
    as (res & Hres & HF).
  exists res. repeat split; [done..|].
  unfold generate_schedule. rewrite Hres. done.
Qed.

Lemma generate_schedule_Some l :
  generate_schedule Solve d tc prev = Returned (Some l) →
  (status (Solve (build_model d tc prev)) = OPTIMAL ∨
   status (Solve (build_model d tc prev)) = FEASIBLE) ∧
  ∃ res, Forall2 (entry_for d)
           (hits d (Value (Solve (build_model d tc prev)))) res ∧
         l = sort_results res.
Proof.
  destruct generate_schedule_outcome as (res & _ & HF & ->).
  destruct (status (Solve (build_model d tc prev))); intros [= <-]; eauto.
Qed.

Lemma count_entries (P : Key → Prop) `{!∀ k, Decision (P k)} l :
  generate_schedule Solve d tc prev = Returned (Some l) →
  length (filter (λ e, P (entry_key e)) l)
  = sum_list_with
      (λ q, if decide (P (hit_key q))
            then weight d (Value (Solve (build_model d tc prev))) (hit_key q)
            else 0%nat)
      (decode_order d).
Proof.
  intros (_ & res & HF & ->)%generate_schedule_Some.
  rewrite (sort_results_Permutation res).
  rewrite <- (length_filter_Forall2 (entry_for d) (λ q, P (hit_key q))
                (λ e, P (entry_key e)) _ _ HF).
  - unfold hits. rewrite list_filter_filter, length_filter_sum.
    apply sum_list_with_ext_in. intros q _. unfold weight.
    rewrite <- chosen_val_at.
    destruct (decide (P (hit_key q))) as [HP|HP];
      destruct (chosen (schedule_of d)
                  (Value (Solve (build_model d tc prev))) q) eqn:Hc; simpl.
    + rewrite decide_True; done.
    + rewrite decide_False; [done|]. intros [_ ?]. done.
    + rewrite decide_False; [done|]. intros [? _]. done.
    + rewrite decide_False; [done|]. intros [? _]. done.
  - intros q e (Hk & _). by rewrite Hk.
Qed.

(** The solver's valuation satisfies every hard constraint whenever a
    schedule is returned. *)
Lemma returned_hard_exprs l :
  cp_sat_contract (build_model d tc prev) (Solve (build_model d tc prev)) →
  generate_schedule Solve d tc prev = Returned (Some l) →
  Forall (λ e, expr_holds (Value (Solve (build_model d tc prev))) e = true)
         (hard_exprs d (schedule_of d) tc).
Proof.
  intros Hc [Hst _]%generate_schedule_Some.
  unfold cp_sat_contract in Hc.
  destruct Hst as [Hst|Hst]; rewrite Hst in Hc.
  - destruct Hc as [Hs _]. by apply satisfies_build_model in Hs as [? _].
  - by apply satisfies_build_model in Hc as [? _].
Qed.

End returned.

(** ** The hard constraints, read as sums of weights *)

Section hard.
Variables (d : Data) (tc : option (list TempConstraint)) (v : Valuation).
Hypothesis Hhard :
  Forall (λ e, expr_holds v e = true) (hard_exprs d (schedule_of d) tc).

Local Abbreviation w := (weight d v).

Lemma hard_elem e : e ∈ hard_exprs d (schedule_of d) tc → expr_holds v e = true.
Proof. revert e. by apply Forall_forall. Qed.

Lemma course_vars_sum cid :
  lin_sum v (course_vars d (schedule_of d) cid)
  = sum_list_with (λ f, sum_list_with (λ r, sum_list_with (λ t,
      w (cid, f_id f, r_id r, t)) (ALL_TIMESLOTS d)) (ROOMS d)) (FACULTY d).
Proof.
  unfold course_vars. rewrite lin_sum_bind.
  apply sum_list_with_ext_in. intros f _. rewrite lin_sum_bind.
  apply sum_list_with_ext_in. intros r _. rewrite lin_sum_bind.
  apply sum_list_with_ext_in. intros t _. apply lin_sum_var_at.
Qed.

Lemma faculty_vars_sum fid t :
  lin_sum v (faculty_vars d (schedule_of d) fid t)
  = sum_list_with (λ c, sum_list_with (λ r,
      w (c_id c, fid, r_id r, t)) (ROOMS d)) (COURSES d).
Proof.
  unfold faculty_vars. rewrite lin_sum_bind.
  apply sum_list_with_ext_in. intros c _. rewrite lin_sum_bind.
  apply sum_list_with_ext_in. intros r _. apply lin_sum_var_at.
Qed.

Lemma room_vars_sum rid t :
  lin_sum v (room_vars d (schedule_of d) rid t)
  = sum_list_with (λ c, sum_list_with (λ f,
      w (c_id c, f_id f, rid, t)) (FACULTY d)) (COURSES d).
Proof.
  unfold room_vars. rewrite lin_sum_bind.
  apply sum_list_with_ext_in. intros c _. rewrite lin_sum_bind.
  apply sum_list_with_ext_in. intros f _. apply lin_sum_var_at.
Qed.

Lemma student_vars_sum cs t :
  lin_sum v (student_vars d (schedule_of d) cs t)
  = sum_list_with (λ cid, sum_list_with (λ f, sum_list_with (λ r,
      w (cid, f_id f, r_id r, t)) (ROOMS d)) (FACULTY d)) cs.
Proof.
  unfold student_vars. rewrite lin_sum_bind.
  apply sum_list_with_ext_in. intros cid _. rewrite lin_sum_bind.
  apply sum_list_with_ext_in. intros f _. rewrite lin_sum_bind.
  apply sum_list_with_ext_in. intros r _. apply lin_sum_var_at.
Qed.

Lemma hard_course c :
  c ∈ COURSES d → lin_sum v (course_vars d (schedule_of d) (c_id c)) = 1%nat.
Proof.
  intros Hc. apply Nat.eqb_eq.
  apply (hard_elem (SumEq (course_vars d (schedule_of d) (c_id c)) 1)).
  unfold hard_exprs. apply elem_of_app. left.
  apply list_elem_of_bind. exists c. split; [|done].
  by apply list_elem_of_singleton.
Qed.

Lemma hard_faculty f t :
  f ∈ FACULTY d → t ∈ ALL_TIMESLOTS d →
  (lin_sum v (faculty_vars d (schedule_of d) (f_id f) t) ≤ 1)%nat.
Proof.
  intros Hf Ht. apply Nat.leb_le.
  apply (hard_elem (SumLe (faculty_vars d (schedule_of d) (f_id f) t) 1)).
  unfold hard_exprs. apply elem_of_app. right. apply elem_of_app. left.
  apply list_elem_of_bind. exists f. split; [|done].
  apply list_elem_of_bind. exists t. split; [|done].
  by apply list_elem_of_singleton.
Qed.

Lemma hard_room r t :
  r ∈ ROOMS d → t ∈ ALL_TIMESLOTS d →
  (lin_sum v (room_vars d (schedule_of d) (r_id r) t) ≤ 1)%nat.
Proof.
  intros Hr Ht. apply Nat.leb_le.
  apply (hard_elem (SumLe (room_vars d (schedule_of d) (r_id r) t) 1)).
  unfold hard_exprs. do 2 (apply elem_of_app; right). apply elem_of_app. left.
  apply list_elem_of_bind. exists r. split; [|done].
  apply list_elem_of_bind. exists t. split; [|done].
  by apply list_elem_of_singleton.
Qed.

Lemma hard_student se t :
  se ∈ student_enrollments d → t ∈ ALL_TIMESLOTS d →
  (lin_sum v (student_vars d (schedule_of d) se.2 t) ≤ 1)%nat.
Proof.
  intros Hs Ht. apply Nat.leb_le.
  apply (hard_elem (SumLe (student_vars d (schedule_of d) se.2 t) 1)).
  unfold hard_exprs. do 3 (apply elem_of_app; right). apply elem_of_app. left.
  apply list_elem_of_bind. exists se. split; [|done].
  apply list_elem_of_bind. exists t. split; [|done].
  by apply list_elem_of_singleton.
Qed.

End hard.

Lemma sum_list_with_guard {A} (P : Prop) `{!Decision P} (h : A → nat) l :
  sum_list_with (λ a, if decide P then h a else 0%nat) l
  = if decide P then sum_list_with h l else 0%nat.
Proof. destruct (decide P); [done|apply sum_list_with_zero]. Qed.

(** Every entry of a returned schedule was emitted for a chosen iteration
    of the decoding loops. *)
Lemma returned_entry_for (Solve : CpModel → Response) d tc prev l e :
  generate_schedule Solve d tc prev = Returned (Some l) → e ∈ l →
  ∃ q, q ∈ hits d (Value (Solve (build_model d tc prev))) ∧ entry_for d q e.
Proof.
  intros (_ & res & HF & ->)%generate_schedule_Some He.
  rewrite sort_results_Permutation in He.
  apply list_elem_of_lookup in He as [i Hi].
  destruct (Forall2_lookup_r _ _ _ _ _ HF Hi) as (q & Hq & Hfor).
  exists q. split; [|done]. apply list_elem_of_lookup. by exists i.
Qed.

(** ** Coverage *)

(** C1.  When course identifiers are pairwise distinct and the solver keeps
    its contract, every schedule that [generate_schedule] returns holds
    exactly one entry for each course of [COURSES], and that entry carries
    the course record itself. *)
Theorem coverage_law (Solve : CpModel → Response) (d : Data)
    (tc : option (list TempConstraint)) (prev : option (list Entry))
    (l : list Entry) :
  NoDup (c_id <$> COURSES d) →
  cp_sat_contract (build_model d tc prev) (Solve (build_model d tc prev)) →
  generate_schedule Solve d tc prev = Returned (Some l) →
  ∀ c, c ∈ COURSES d →
    length (filter (λ e, c_id (course e) = c_id c) l) = 1%nat ∧
    ∀ e, e ∈ l → c_id (course e) = c_id c → course e = c.
Proof.
  intros Hnd Hct Hret c Hc. split.
  - pose proof (returned_hard_exprs Solve d tc prev l Hct Hret) as Hhard.
    etrans; [exact (count_entries Solve d tc prev (λ k, k.1.1.1 = c_id c) l Hret)|].
    rewrite sum_decode_order. simpl.
    set (v := Value (Solve (build_model d tc prev))).
    rewrite sum_list_with_exchange.
    etrans.
    { apply sum_list_with_ext_in. intros c' _.
      etrans.
      { apply sum_list_with_ext_in. intros t _.
        etrans.
        { apply sum_list_with_ext_in. intros f _.
          apply (sum_list_with_guard (c_id c' = c_id c)
                   (λ r, weight d v (c_id c', f_id f, r_id r, t))). }
        apply (sum_list_with_guard (c_id c' = c_id c)
                 (λ f, sum_list_with (λ r, weight d v (c_id c', f_id f, r_id r, t))
                         (ROOMS d))). }
      apply (sum_list_with_guard (c_id c' = c_id c)
               (λ t, sum_list_with (λ f, sum_list_with
                       (λ r, weight d v (c_id c', f_id f, r_id r, t))
                       (ROOMS d)) (FACULTY d))). }
    rewrite (sum_guard_present c_id
               (λ c', sum_list_with (λ t, sum_list_with (λ f, sum_list_with
                  (λ r, weight d v (c_id c', f_id f, r_id r, t))
                  (ROOMS d)) (FACULTY d)) (ALL_TIMESLOTS d))
               (COURSES d) c Hnd Hc).
    rewrite <- (hard_course d tc v Hhard c Hc), course_vars_sum.
    rewrite sum_list_with_exchange.
    apply sum_list_with_ext_in. intros f _.
    apply sum_list_with_exchange.
  - intros e He Hid.
    destruct (returned_entry_for Solve d tc prev l e Hret He)
      as (q & _ & _ & Hcin & _).
    by apply (NoDup_fmap_eq c_id (COURSES d)).
Qed.

(** ** Exclusivity of faculty, rooms and students *)

Lemma sum_list_with_0 {A} (h : A → nat) (l : list A) :
  (∀ a, a ∈ l → h a = 0%nat) → sum_list_with h l = 0%nat.
Proof.
  intros H. etrans; [|apply (sum_list_with_zero l)].
  by apply sum_list_with_ext_in.
Qed.

Lemma sum_guard_le {A} `{EqDecision K} (g : A → K) (h : A → nat) (l : list A)
    (k : K) (b : nat) :
  NoDup (g <$> l) → (∀ a, a ∈ l → g a = k → (h a ≤ b)%nat) →
  (sum_list_with (λ a, if decide (g a = k) then h a else 0%nat) l ≤ b)%nat.
Proof.
  intros Hnd Hb. destruct (decide (k ∈ g <$> l)) as [Hin|Hout].
  - apply list_elem_of_fmap in Hin as (a0 & -> & Hin).
    rewrite sum_guard_present by done. by apply Hb.
  - rewrite sum_guard_absent by done. lia.
Qed.

(** Entries at one coordinate come from one iteration of the outer loop
    over [ALL_TIMESLOTS]. *)
Lemma sum_at_timeslot (d : Data) (R : Course → Faculty → Room → Prop)
    (HR : ∀ c f r, Decision (R c f r))
    (P : Timeslot * Course * Faculty * Room → Prop) `{!∀ q, Decision (P q)}
    (h : Key → nat) (T : Timeslot) (b : nat) :
  (∀ t c f r, P (t, c, f, r) ↔ R c f r ∧ t = T) →
  NoDup (ALL_TIMESLOTS d) →
  (T ∈ ALL_TIMESLOTS d →
   (sum_list_with (λ c, sum_list_with (λ f, sum_list_with (λ r,
      if decide (R c f r) then h (key c f r T) else 0%nat)
      (ROOMS d)) (FACULTY d)) (COURSES d) ≤ b)%nat) →
  (sum_list_with (λ q, if decide (P q) then h (hit_key q) else 0%nat)
     (decode_order d) ≤ b)%nat.
Proof.
  intros HP Hnd Hb. rewrite sum_decode_order.
  etrans; [|apply (sum_guard_le id
     (λ t, sum_list_with (λ c, sum_list_with (λ f, sum_list_with (λ r,
        if decide (R c f r) then h (key c f r t) else 0%nat)
        (ROOMS d)) (FACULTY d)) (COURSES d)) (ALL_TIMESLOTS d) T b)].
  - apply Nat.eq_le_incl. apply sum_list_with_ext_in. intros t _. simpl.
    destruct (decide (t = T)) as [->|Hne].
    + apply sum_list_with_ext_in. intros c _.
      apply sum_list_with_ext_in. intros f _.
      apply sum_list_with_ext_in. intros r _.
      unfold hit_key. simpl. apply decide_ext. rewrite HP. tauto.
    + apply sum_list_with_0. intros c _.
      apply sum_list_with_0. intros f _.
      apply sum_list_with_0. intros r _.
      rewrite decide_False; [done|]. rewrite HP. tauto.
  - by rewrite list_fmap_id.
  - intros t Ht. simpl. intros ->. by apply Hb.
Qed.

Lemma sum_list_with_guard2 {A B} (P : Prop) `{!Decision P} (h : A → B → nat)
    (l1 : list A) (l2 : list B) :
  sum_list_with (λ a, sum_list_with (λ b,
    if decide P then h a b else 0%nat) l2) l1
  = if decide P then sum_list_with (λ a, sum_list_with (h a) l2) l1 else 0%nat.
Proof.
  destruct (decide P); [done|].
  apply sum_list_with_0. intros a _. apply sum_list_with_zero.
Qed.

Lemma count_entries_le (Solve : CpModel → Response) d tc prev l
    (Q : Entry → Prop) (P : Key → Prop)
    `{!∀ e, Decision (Q e)} `{!∀ k, Decision (P k)} (b : nat) :
  generate_schedule Solve d tc prev = Returned (Some l) →
  (∀ e, Q e ↔ P (entry_key e)) →
  (sum_list_with
     (λ q, if decide (P (hit_key q))
           then weight d (Value (Solve (build_model d tc prev))) (hit_key q)
           else 0%nat)
     (decode_order d) ≤ b)%nat →
  (length (filter Q l) ≤ b)%nat.
Proof.
  intros Hret HQP Hb.
  rewrite (list_filter_iff Q (λ e, P (entry_key e))) by done.
  by rewrite (count_entries Solve d tc prev P l Hret).
Qed.

(** C2.  When faculty ids, room ids and timeslots are pairwise distinct and
    the solver keeps its contract, a returned schedule books no faculty
    member and no room twice at one (day, slot): for every faculty id and
    coordinate at most one entry has that faculty there, and for every room
    id and coordinate at most one entry has that room there. *)
Theorem no_double_booking (Solve : CpModel → Response) (d : Data)
    (tc : option (list TempConstraint)) (prev : option (list Entry))
    (l : list Entry) :
  NoDup (f_id <$> FACULTY d) → NoDup (r_id <$> ROOMS d) →
  NoDup (ALL_TIMESLOTS d) →
  cp_sat_contract (build_model d tc prev) (Solve (build_model d tc prev)) →
  generate_schedule Solve d tc prev = Returned (Some l) →
  (∀ fid dy sl,
     (length (filter (λ e, f_id (faculty e) = fid ∧ day e = dy ∧ slot e = sl) l)
      ≤ 1)%nat) ∧
  (∀ rid dy sl,
     (length (filter (λ e, r_id (room e) = rid ∧ day e = dy ∧ slot e = sl) l)
      ≤ 1)%nat).
Proof.
  intros Hf Hr Ht Hct Hret.
  pose proof (returned_hard_exprs Solve d tc prev l Hct Hret) as Hhard.
  set (v := Value (Solve (build_model d tc prev))) in *.
  split.
  - intros fid dy sl.
    apply (count_entries_le Solve d tc prev l _
             (λ k : Key, k.1.1.2 = fid ∧ k.2 = (dy, sl)) 1 Hret).
    { intros e. unfold entry_key. simpl. split.
      - intros (? & ? & ?). split; congruence.
      - intros [? [= ? ?]]. done. }
    apply (sum_at_timeslot d (λ _ f _, f_id f = fid)
             (λ _ f _, decide (f_id f = fid)) _ (weight d v) (dy, sl) 1);
      [by intros t c f r|done|].
    intros HT. rewrite sum_list_with_exchange.
    etrans; [apply Nat.eq_le_incl|
             apply (sum_guard_le f_id
               (λ f, sum_list_with (λ c, sum_list_with (λ r,
                  weight d v (key c f r (dy, sl))) (ROOMS d)) (COURSES d))
               (FACULTY d) fid 1 Hf)].
    + apply sum_list_with_ext_in. intros f _.
      apply (sum_list_with_guard2 (f_id f = fid)
               (λ c r, weight d v (key c f r (dy, sl)))).
    + intros f Hfin _. simpl.
      etrans; [apply Nat.eq_le_incl; symmetry;
               exact (faculty_vars_sum d v (f_id f) (dy, sl))|].
      by apply (hard_faculty d tc v Hhard).
  - intros rid dy sl.
    apply (count_entries_le Solve d tc prev l _
             (λ k : Key, k.1.2 = rid ∧ k.2 = (dy, sl)) 1 Hret).
    { intros e. unfold entry_key. simpl. split.
      - intros (? & ? & ?). split; congruence.
      - intros [? [= ? ?]]. done. }
    apply (sum_at_timeslot d (λ _ _ r, r_id r = rid)
             (λ _ _ r, decide (r_id r = rid)) _ (weight d v) (dy, sl) 1);
      [by intros t c f r|done|].
    intros HT.
    etrans; [apply Nat.eq_le_incl|
             apply (sum_guard_le r_id
               (λ r, sum_list_with (λ c, sum_list_with (λ f,
                  weight d v (key c f r (dy, sl))) (FACULTY d)) (COURSES d))
               (ROOMS d) rid 1 Hr)].
    + etrans.
      { apply sum_list_with_ext_in. intros c _. apply sum_list_with_exchange. }
      rewrite sum_list_with_exchange.
      apply sum_list_with_ext_in. intros r _.
      apply (sum_list_with_guard2 (r_id r = rid)
               (λ c f, weight d v (key c f r (dy, sl)))).
    + intros r Hrin _. simpl.
      etrans; [apply Nat.eq_le_incl; symmetry;
               exact (room_vars_sum d v (r_id r) (dy, sl))|].
      by apply (hard_room d tc v Hhard).
Qed.

(** *** The [student_enrollments] dict *)

Lemma od_lookup_set {V} (k k' : Z) (v : V) (od : list (Z * V)) :
  od_lookup k (od_set k' v od) = if decide (k' = k) then Some v else od_lookup k od.
Proof.
  induction od as [|[k0 v0] od IH]; simpl.
  - done.
  - destruct (decide (k0 = k')) as [->|Hne]; simpl.
    + by destruct (decide (k' = k)).
    + rewrite IH. destruct (decide (k0 = k)) as [->|]; [|done].
      by rewrite decide_False.
Qed.

Lemma od_lookup_elem_of {V} (k : Z) (v : V) (od : list (Z * V)) :
  od_lookup k od = Some v → (k, v) ∈ od.
Proof.
  induction od as [|[k0 v0] od IH]; simpl; [done|].
  destruct (decide (k0 = k)) as [->|].
  - intros [= ->]. apply elem_of_cons. by left.
  - intros H. apply elem_of_cons. right. by apply IH.
Qed.

Lemma od_set_keys {V} (k : Z) (v : V) (od : list (Z * V)) :
  (od_set k v od).*1 = if decide (k ∈ od.*1) then od.*1 else od.*1 ++ [k].
Proof.
  induction od as [|[k0 v0] od IH]; csimpl; [done|].
  destruct (decide (k0 = k)) as [->|Hne]; csimpl.
  - rewrite decide_True; [done|]. apply elem_of_cons. by left.
  - rewrite IH. destruct (decide (k ∈ od.*1)) as [Hin|Hout].
    + rewrite decide_True; [done|]. apply elem_of_cons. by right.
    + rewrite decide_False; [done|].
      intros [?|?]%elem_of_cons; congruence.
Qed.

Lemma od_set_NoDup {V} (k : Z) (v : V) (od : list (Z * V)) :
  NoDup od.*1 → NoDup (od_set k v od).*1.
Proof.
  intros Hnd. rewrite od_set_keys. destruct (decide (k ∈ od.*1)); [done|].
  apply NoDup_app. split; [done|]. split.
  - intros x Hx ->%list_elem_of_singleton. done.
  - apply NoDup_singleton.
Qed.

Lemma od_elem_of_lookup {V} (k : Z) (v : V) (od : list (Z * V)) :
  NoDup od.*1 → (k, v) ∈ od → od_lookup k od = Some v.
Proof.
  induction od as [|[k0 v0] od IH]; simpl; intros Hnd Hin.
  - by apply elem_of_nil in Hin.
  - apply NoDup_cons in Hnd as [Hout Hnd].
    apply elem_of_cons in Hin as [[= -> ->]|Hin].
    + by rewrite decide_True.
    + rewrite decide_False; [by apply IH|].
      intros ->. apply Hout.
      apply list_elem_of_fmap. by exists (k, v).
Qed.

Lemma enroll_lookup se e sid :
  od_lookup sid (enroll se e)
  = if decide (student_id e = sid)
    then Some (default [] (od_lookup sid se) ++ [course_id e])
    else od_lookup sid se.
Proof.
  unfold enroll.
  destruct (od_lookup (student_id e) se) as [cs|] eqn:Hl.
  - rewrite Hl, od_lookup_set.
    destruct (decide (student_id e = sid)) as [<-|]; [|done]. by rewrite Hl.
  - rewrite od_lookup_set, decide_True by done. rewrite !od_lookup_set.
    destruct (decide (student_id e = sid)) as [<-|]; [|done]. by rewrite Hl.
Qed.

Lemma enroll_NoDup se e : NoDup se.*1 → NoDup (enroll se e).*1.
Proof.
  intros Hnd. unfold enroll.
  destruct (od_lookup (student_id e) se) as [cs|] eqn:Hl; simpl.
  - rewrite Hl. by apply od_set_NoDup.
  - rewrite od_lookup_set, decide_True by done. by do 2 apply od_set_NoDup.
Qed.

Lemma enroll_fold_lookup es se sid :
  od_lookup sid (foldl enroll se es)
  = match od_lookup sid se,
          course_id <$> filter (λ e, student_id e = sid) es with
    | Some cs, l => Some (cs ++ l)
    | None, [] => None
    | None, l => Some l
    end.
Proof.
  revert se. induction es as [|e es IH]; intros se; simpl.
  - destruct (od_lookup sid se); [by rewrite app_nil_r|done].
  - rewrite IH, enroll_lookup, filter_cons.
    destruct (decide (student_id e = sid)) as [Heq|Hne]; [|done].
    rewrite fmap_cons.
    destruct (od_lookup sid se) as [cs|]; simpl; [|done].
    by rewrite <- app_assoc.
Qed.

Lemma enroll_fold_NoDup es se : NoDup se.*1 → NoDup (foldl enroll se es).*1.
Proof.
  revert se. induction es as [|e es IH]; intros se Hnd; simpl; [done|].
  by apply IH, enroll_NoDup.
Qed.

(** [student_enrollments] maps every student of [STUDENT_ELECTIONS] to the
    course ids of that student's rows, in order, and has no other key. *)
Lemma student_enrollments_elem_of d sid cs :
  (sid, cs) ∈ student_enrollments d ↔ cs = courses_of d sid ∧ cs ≠ [].
Proof.
  unfold student_enrollments, courses_of.
  pose proof (enroll_fold_lookup (STUDENT_ELECTIONS d) [] sid) as Hl.
  simpl in Hl. split.
  - intros Hin. apply od_elem_of_lookup in Hin.
    + rewrite Hin in Hl.
      destruct (course_id <$> filter _ (STUDENT_ELECTIONS d)); [done|].
      by simplify_eq.
    + apply enroll_fold_NoDup. constructor.
  - intros [-> Hne]. apply od_lookup_elem_of. rewrite Hl.
    by destruct (course_id <$> filter _ (STUDENT_ELECTIONS d)).
Qed.

(** A sum over the records whose id is in [ks] is bounded by the sum over
    [ks] itself when ids are pairwise distinct. *)
Lemma sum_guard_elem_le {A} `{EqDecision K} (g : A → K) (h : K → nat)
    (l : list A) (ks : list K) :
  NoDup (g <$> l) →
  (sum_list_with (λ a, if decide (g a ∈ ks) then h (g a) else 0%nat) l
   ≤ sum_list_with h ks)%nat.
Proof.
  revert ks. induction l as [|a l IH]; intros ks Hnd; simpl; [lia|].
  rewrite fmap_cons in Hnd. apply NoDup_cons in Hnd as [Hout Hnd].
  destruct (decide (g a ∈ ks)) as [Hin|Hnin].
  - apply elem_of_Permutation in Hin as [ks' Hks].
    rewrite Hks. simpl. apply Nat.add_le_mono_l.
    etrans; [apply Nat.eq_le_incl|apply (IH ks' Hnd)].
    apply sum_list_with_ext_in. intros a' Ha'. apply decide_ext.
    rewrite Hks, elem_of_cons. split; [|by right].
    intros [Heq|?]; [|done]. exfalso. apply Hout. rewrite <- Heq.
    by apply list_elem_of_fmap_2.
  - simpl. by apply IH.
Qed.

(** C3, as amended.  When course ids and timeslots are pairwise distinct
    and the solver keeps its contract, a returned schedule holds, for every
    student and every (day, slot), at most one entry whose course is one of
    that student's courses.  Whatever the data and the solver, a student
    with at most one election row adds nothing: each of that student's
    constraints already follows from the course-uniqueness constraints, for
    every valuation.  (A student listed twice for a single course is not
    such a student: the list of line 90 keeps both rows.) *)
Theorem student_exclusivity (Solve : CpModel → Response) (d : Data)
    (tc : option (list TempConstraint)) (prev : option (list Entry)) :
  (∀ l,
     NoDup (c_id <$> COURSES d) → NoDup (ALL_TIMESLOTS d) →
     cp_sat_contract (build_model d tc prev) (Solve (build_model d tc prev)) →
     generate_schedule Solve d tc prev = Returned (Some l) →
     ∀ sid dy sl,
       (length (filter (λ e, c_id (course e) ∈ courses_of d sid ∧
                             day e = dy ∧ slot e = sl) l) ≤ 1)%nat) ∧
  (∀ sid enrolled_courses v t,
     (sid, enrolled_courses) ∈ student_enrollments d →
     (length (courses_of d sid) ≤ 1)%nat →
     Forall (λ e, expr_holds v e = true) (course_uniqueness d (schedule_of d)) →
     t ∈ ALL_TIMESLOTS d →
     expr_holds v (SumLe (student_vars d (schedule_of d) enrolled_courses t) 1)
     = true).
Proof.
  split.
  - intros l Hc Ht Hct Hret.
    pose proof (returned_hard_exprs Solve d tc prev l Hct Hret) as Hhard.
    set (v := Value (Solve (build_model d tc prev))) in *.
    intros sid dy sl.
    apply (count_entries_le Solve d tc prev l _
             (λ k : Key, k.1.1.1 ∈ courses_of d sid ∧ k.2 = (dy, sl)) 1 Hret).
    { intros e. unfold entry_key. simpl. split.
      - intros (? & ? & ?). split; congruence.
      - intros [? [= ? ?]]. done. }
    apply (sum_at_timeslot d (λ c _ _, c_id c ∈ courses_of d sid)
             (λ c _ _, decide (c_id c ∈ courses_of d sid)) _
             (weight d v) (dy, sl) 1);
      [by intros t c f r|done|].
    intros HT.
    etrans; [apply Nat.eq_le_incl|
             etrans; [apply (sum_guard_elem_le c_id
               (λ cid, sum_list_with (λ f, sum_list_with (λ r,
                  weight d v (cid, f_id f, r_id r, (dy, sl))) (ROOMS d))
                  (FACULTY d))
               (COURSES d) (courses_of d sid) Hc)|]].
    + apply sum_list_with_ext_in. intros c _.
      apply (sum_list_with_guard2 (c_id c ∈ courses_of d sid)
               (λ f r, weight d v (key c f r (dy, sl)))).
    + destruct (courses_of d sid) as [|cid cs] eqn:Hcs; [simpl; lia|].
      rewrite <- Hcs.
      etrans; [apply Nat.eq_le_incl; symmetry;
               exact (student_vars_sum d v (courses_of d sid) (dy, sl))|].
      apply (hard_student d tc v Hhard (sid, courses_of d sid) (dy, sl)); [|done].
      apply student_enrollments_elem_of. split; [done|]. by rewrite Hcs.
  - intros sid cs v t [-> Hne]%student_enrollments_elem_of Hlen Hcov HT.
    apply Nat.leb_le. rewrite student_vars_sum.
    destruct (courses_of d sid) as [|cid [|cid' cs]]; simpl in *; [done| |lia].
    rewrite Nat.add_0_r.
    destruct (decide (cid ∈ c_id <$> COURSES d)) as [Hin|Hout].
    + apply list_elem_of_fmap in Hin as (c & -> & Hin).
      assert (lin_sum v (course_vars d (schedule_of d) (c_id c)) = 1%nat) as H1.
      { apply Nat.eqb_eq.
        apply (proj1 (Forall_forall _ _) Hcov
                 (SumEq (course_vars d (schedule_of d) (c_id c)) 1)).
        apply list_elem_of_bind. exists c. split; [|done].
        by apply list_elem_of_singleton. }
      rewrite <- H1, course_vars_sum.
      apply sum_list_with_le_in. intros f _.
      apply sum_list_with_le_in. intros r _.
      apply (sum_list_with_in t (λ t, weight d v (c_id c, f_id f, r_id r, t))).
      done.
    + rewrite sum_list_with_0; [lia|]. intros f _.
      apply sum_list_with_0. intros r _.
      unfold weight, val_at.
      destruct (schedule_of d !! _) as [x|] eqn:Hx; [|done].
      exfalso. apply Hout.
      assert (is_Some (schedule_of d !! (cid, f_id f, r_id r, t))) as Hs
        by (by eexists).
      apply schedule_key_iff in Hs as (c' & f' & r' & t' & Hc' & _ & _ & _ & Hk & _).
      unfold key in Hk. simplify_eq. by apply list_elem_of_fmap_2.
Qed.

(** ** Locks *)

Lemma lock_expr_elem_of d tcs constraint c r x :
  constraint ∈ tcs → c ∈ COURSES d → r ∈ ROOMS d →
  schedule_of d !! (c_id c, tc_faculty_id constraint, r_id r,
                    (tc_day constraint, tc_slot constraint)) = Some x →
  SumEq [x] 0 ∈ hard_exprs d (schedule_of d) (Some tcs).
Proof.
  intros Htc Hc Hr Hx. unfold hard_exprs.
  do 4 (apply elem_of_app; right).
  assert (SumEq [x] 0 ∈ tcs ≫= lock_exprs d (schedule_of d)) as Hin.
  { apply list_elem_of_bind. exists constraint. split; [|done].
    unfold lock_exprs.
    apply list_elem_of_bind. exists c. split; [|done].
    apply list_elem_of_bind. exists r. split; [|done].
    rewrite Hx. by apply list_elem_of_singleton. }
  unfold temporary_exprs. destruct tcs; [|done].
  by apply elem_of_nil in Htc.
Qed.

(** C6.  When the solver keeps its contract, a returned schedule has no
    entry that puts the faculty of a temporary constraint at the (day, slot)
    of that constraint, whatever the course and the room. *)
Theorem lock_enforcement (Solve : CpModel → Response) (d : Data)
    (temporary_constraints : list TempConstraint)
    (prev : option (list Entry)) (l : list Entry) :
  cp_sat_contract (build_model d (Some temporary_constraints) prev)
                  (Solve (build_model d (Some temporary_constraints) prev)) →
  generate_schedule Solve d (Some temporary_constraints) prev
  = Returned (Some l) →
  ∀ constraint e,
    constraint ∈ temporary_constraints → e ∈ l →
    ¬ (f_id (faculty e) = tc_faculty_id constraint ∧
       day e = tc_day constraint ∧ slot e = tc_slot constraint).
Proof.
  intros Hct Hret constraint e Htc He (HF & HD & HS).
  pose proof (returned_hard_exprs Solve d _ prev l Hct Hret) as Hhard.
  destruct (returned_entry_for Solve d _ prev l e Hret He)
    as ([[[t c] f] r] & Hq & Hk & _).
  unfold hits in Hq. apply list_elem_of_filter in Hq as [Hch Hq].
  apply elem_of_decode_order in Hq as (_ & Hc & _ & Hr).
  unfold entry_key, hit_key, key in Hk. simpl in Hk.
  injection Hk as _ Hfid _ Hday. 
  unfold chosen, key in Hch.
  destruct (schedule_of d !! _) as [x|] eqn:Hx; [|done].
  rewrite <- Hfid, HF, <- Hday, HD, HS in Hx.
  pose proof (hard_elem d _ _ Hhard _
                (lock_expr_elem_of d _ constraint c r x Htc Hc Hr Hx)) as H0.
  simpl in H0. unfold lin_sum in H0. simpl in H0. rewrite Hch in H0. done.
Qed.

(** ** A course without eligible quadruple *)

Lemma no_eligible_no_key d c fid rid t :
  no_eligible_quadruple d c → schedule_of d !! (c_id c, fid, rid, t) = None.
Proof.
  intros Hno. apply eq_None_not_Some.
  intros (c' & f & r & t' & Hc & Hf & Hr & Ht & Hk & He)%schedule_key_iff.
  unfold key in Hk. simplify_eq.
  apply eligible_spec in He. rewrite (Hno c' f r t') in He; done.
Qed.

Lemma no_eligible_unsat d tc prev c v :
  c ∈ COURSES d → no_eligible_quadruple d c →
  satisfies v (build_model d tc prev) = false.
Proof.
  intros Hc Hno. apply not_true_is_false.
  intros [Hhard _]%satisfies_build_model.
  pose proof (hard_course d tc v Hhard c Hc) as H1.
  rewrite course_vars_sum in H1.
  rewrite sum_list_with_0 in H1; [done|]. intros f _.
  apply sum_list_with_0. intros r _.
  apply sum_list_with_0. intros t _.
  unfold weight, val_at. by rewrite (no_eligible_no_key d c).
Qed.

(** C7.  If a course of [COURSES] has no eligible quadruple, the model that
    is built has no solution; a solver that keeps its contract then does
    not report OPTIMAL or FEASIBLE (it reports INFEASIBLE when the search
    runs to completion), and [generate_schedule] returns [None] without
    raising. *)
Theorem zero_eligible_returns_None (Solve : CpModel → Response) (d : Data)
    (tc : option (list TempConstraint)) (prev : option (list Entry))
    (c : Course) :
  c ∈ COURSES d → no_eligible_quadruple d c →
  cp_sat_contract (build_model d tc prev) (Solve (build_model d tc prev)) →
  (∀ v, satisfies v (build_model d tc prev) = false) ∧
  status (Solve (build_model d tc prev)) ≠ OPTIMAL ∧
  status (Solve (build_model d tc prev)) ≠ FEASIBLE ∧
  (ran_to_completion (Solve (build_model d tc prev)) →
   status (Solve (build_model d tc prev)) = INFEASIBLE) ∧
  generate_schedule Solve d tc prev = Returned None.
Proof.
  intros Hc Hno Hct.
  assert (∀ v, satisfies v (build_model d tc prev) = false) as Hunsat
    by (intros v; by apply (no_eligible_unsat d tc prev c)).
  assert (status (Solve (build_model d tc prev)) ≠ OPTIMAL) as Hopt.
  { intros Hst. unfold cp_sat_contract in Hct. rewrite Hst in Hct.
    destruct Hct as [Hs _]. by rewrite Hunsat in Hs. }
  assert (status (Solve (build_model d tc prev)) ≠ FEASIBLE) as Hfeas.
  { intros Hst. unfold cp_sat_contract in Hct. rewrite Hst in Hct.
    by rewrite Hunsat in Hct. }
  repeat split; try done.
  - intros [?|?]; done.
  - unfold generate_schedule.
    by destruct (status (Solve (build_model d tc prev))).
Qed.

(** An empty [preferred_faculty] list is such a case. *)
Lemma empty_preferred_no_eligible d c :
  NoDup (c_id <$> COURSES d) → c ∈ COURSES d → c_preferred_faculty c = [] →
  no_eligible_quadruple d c.
Proof.
  intros Hnd Hc Hp c' f r t Hc' Hid _ _ _.
  assert (c' = c) as -> by by apply (NoDup_fmap_eq c_id (COURSES d)).
  unfold eligible. rewrite Hp.
  rewrite (bool_decide_eq_false_2 (f_id f ∈ [])); [done|].
  apply not_elem_of_nil.
Qed.

(** ** The output contract *)

Lemma tuple_lt_spec a b : tuple_lt a b = true ↔ a.1 < b.1 ∨ (a.1 = b.1 ∧ a.2 < b.2).
Proof.
  unfold tuple_lt.
  rewrite orb_true_iff, andb_true_iff, !Z.ltb_lt, Z.eqb_eq. done.
Qed.

Lemma tuple_lt_le a b : tuple_lt a b = true → tuple_le a b.
Proof. rewrite tuple_lt_spec. unfold tuple_le. lia. Qed.

Lemma tuple_not_lt_le a b : tuple_lt a b = false → tuple_le b a.
Proof.
  intros H. apply not_true_iff_false in H. rewrite tuple_lt_spec in H.
  unfold tuple_le. lia.
Qed.

Lemma tuple_le_trans a b c : tuple_le a b → tuple_le b c → tuple_le a c.
Proof. unfold tuple_le. lia. Qed.

Lemma insert_sorted_StronglySorted {A} (key : A → Z * Z) x l :
  StronglySorted (λ a b, tuple_le (key a) (key b)) l →
  StronglySorted (λ a b, tuple_le (key a) (key b)) (insert_sorted key x l).
Proof.
  induction 1 as [|y l Hl IH Hy]; simpl.
  - repeat constructor.
  - destruct (tuple_lt (key y) (key x)) eqn:Hlt.
    + constructor; [done|].
      rewrite insert_sorted_Permutation. constructor; [|done].
      by apply tuple_lt_le.
    + apply tuple_not_lt_le in Hlt.
      constructor; [by constructor|]. constructor; [done|].
      eapply Forall_impl; [exact Hy|]. intros z Hz.
      by apply (tuple_le_trans _ (key y)).
Qed.

Lemma sort_by_key_StronglySorted {A} (key : A → Z * Z) l :
  StronglySorted (λ a b, tuple_le (key a) (key b)) (sort_by_key key l).
Proof.
  induction l as [|x l IH]; simpl; [constructor|].
  by apply insert_sorted_StronglySorted.
Qed.

Lemma sort_results_StronglySorted l : StronglySorted entry_le (sort_results l).
Proof. apply (sort_by_key_StronglySorted sort_key). Qed.

(** The sort is stable: elements with equal keys keep their order. *)
Lemma insert_sorted_stable {A} (key : A → Z * Z) x l k :
  filter (λ e, key e = k) (insert_sorted key x l)
  = filter (λ e, key e = k) (x :: l).
Proof.
  induction l as [|y l IH]; simpl; [done|].
  destruct (tuple_lt (key y) (key x)) eqn:Hlt; [|done].
  rewrite (filter_cons _ y), IH, !filter_cons.
  destruct (decide (key y = k)) as [Hy|]; [|done].
  destruct (decide (key x = k)) as [Hx|]; [|done].
  apply tuple_lt_spec in Hlt. rewrite Hy, Hx in Hlt. lia.
Qed.

Lemma sort_by_key_stable {A} (key : A → Z * Z) l k :
  filter (λ e, key e = k) (sort_by_key key l) = filter (λ e, key e = k) l.
Proof.
  induction l as [|x l IH]; simpl; [done|].
  by rewrite insert_sorted_stable, !filter_cons, IH.
Qed.

Lemma sort_results_stable l k :
  filter (λ e, sort_key e = k) (sort_results l) = filter (λ e, sort_key e = k) l.
Proof. apply sort_by_key_stable. Qed.

(** An entry with the key [k] is in the sorted decoding of [v] exactly
    when [v] makes the variable of [k] true. *)
Lemma decoded_key_iff d v res k :
  results_of d (schedule_of d) v = Some res →
  Exists (λ e, entry_key e = k) (sort_results res) ↔
  val_at (schedule_of d) v k = true.
Proof.
  intros Hres. destruct (results_of_total d v) as (res0 & Hres0 & HF).
  rewrite Hres in Hres0. injection Hres0 as <-.
  rewrite Exists_exists. split.
  - intros (e & He & Hk). rewrite sort_results_Permutation in He.
    apply list_elem_of_lookup in He as [i Hi].
    destruct (Forall2_lookup_r _ _ _ _ _ HF Hi) as (q & Hq & Hkq & _).
    apply list_elem_of_lookup_2 in Hq. unfold hits in Hq.
    apply list_elem_of_filter in Hq as [Hch _].
    rewrite chosen_val_at in Hch. congruence.
  - intros Hv. unfold val_at in Hv.
    destruct (schedule_of d !! k) as [x|] eqn:Hx; [|done].
    destruct (proj1 (schedule_key_iff d k) (mk_is_Some _ _ Hx))
      as (c & f & r & t & Hc & Hf & Hr & Ht & -> & _).
    assert ((t, c, f, r) ∈ hits d v) as Hq.
    { unfold hits. apply list_elem_of_filter. split.
      - unfold chosen. by rewrite Hx.
      - by apply elem_of_decode_order. }
    apply list_elem_of_lookup in Hq as [i Hi].
    destruct (Forall2_lookup_l _ _ _ _ _ HF Hi) as (e & He & Hke & _).
    exists e. split; [|done].
    rewrite sort_results_Permutation. by apply list_elem_of_lookup_2 in He.
Qed.

Lemma result_entry_emitted d q e : result_entry d q = Some e → emitted d q e.
Proof.
  destruct q as [[[t c] f] r]. unfold result_entry, emitted. simpl.
  destruct (course_map d !! c_id c) as [c'|]; [|done].
  destruct (faculty_map d !! f_id f) as [f'|]; [|done].
  destruct (room_map d !! r_id r) as [r'|]; [|done].
  simpl. by intros [= <-].
Qed.

(** C8.  [generate_schedule] never raises.  It returns [None] exactly when
    the solver's status is neither OPTIMAL nor FEASIBLE (INFEASIBLE, UNKNOWN
    and MODEL_INVALID alike).  Otherwise it returns a list sorted ascending
    by (day, slot), each entry of which carries a course record of
    [COURSES], a faculty record of [FACULTY] and a room record of [ROOMS].
    That list is the stable sort of the list [res] that holds, for each
    iteration of the decoding loops whose variable the solver set true and
    in the order of the loops, one entry with the coordinate of the
    iteration and the records that the three maps give for its ids; so an
    entry with a given key is in the list exactly when the variable of that
    key is true. *)
Theorem output_contract (Solve : CpModel → Response) (d : Data)
    (tc : option (list TempConstraint)) (prev : option (list Entry)) :
  (generate_schedule Solve d tc prev = Returned None ↔
   status (Solve (build_model d tc prev)) ≠ OPTIMAL ∧
   status (Solve (build_model d tc prev)) ≠ FEASIBLE) ∧
  (generate_schedule Solve d tc prev = Returned None ↔
   status (Solve (build_model d tc prev)) = INFEASIBLE ∨
   status (Solve (build_model d tc prev)) = UNKNOWN ∨
   status (Solve (build_model d tc prev)) = MODEL_INVALID) ∧
  (generate_schedule Solve d tc prev ≠ Returned None →
   ∃ l, generate_schedule Solve d tc prev = Returned (Some l) ∧
        StronglySorted entry_le l ∧
        (∀ e, e ∈ l → course e ∈ COURSES d ∧ faculty e ∈ FACULTY d ∧
                      room e ∈ ROOMS d) ∧
        (∃ res,
           Forall2 (emitted d)
             (hits d (Value (Solve (build_model d tc prev)))) res ∧
           l ≡ₚ res ∧
           ∀ k, filter (λ e, sort_key e = k) l
                = filter (λ e, sort_key e = k) res) ∧
        ∀ k, Exists (λ e, entry_key e = k) l ↔
             val_at (schedule_of d) (Value (Solve (build_model d tc prev))) k
             = true).
Proof.
  destruct (generate_schedule_outcome Solve d tc prev)
    as (res & Hres & HF & Hgen).
  split; [|split].
  - rewrite Hgen. destruct (status (Solve (build_model d tc prev)));
      split; (done || by intros [? ?]).
  - rewrite Hgen. destruct (status (Solve (build_model d tc prev)));
      split; try done; try (intros [?|[?|?]]; done); auto.
  - intros Hne. exists (sort_results res). split.
    { rewrite Hgen in *.
      by destruct (status (Solve (build_model d tc prev))). }
    split; [apply sort_results_StronglySorted|]. split.
    { intros e He. rewrite sort_results_Permutation in He.
      apply list_elem_of_lookup in He as [i Hi].
      destruct (Forall2_lookup_r _ _ _ _ _ HF Hi) as (q & _ & _ & ? & ? & ?).
      done. }
    split.
    { exists res. split; [|split].
      - unfold results_of in Hres. apply mapM_Some in Hres.
        eapply Forall2_impl; [exact Hres|]. apply result_entry_emitted.
      - apply sort_results_Permutation.
      - intros k. apply sort_results_stable. }
    intros k. by apply decoded_key_iff.
Qed.

(** * Properties of the timeslot index *)

Lemma day_map_range s D : day_map !! s = Some D → D ∈ [0; 1; 2; 3; 4].
Proof.
  unfold day_map. intros H.
  repeat (apply lookup_insert_Some in H as [[_ <-]|[_ H]]; [set_solver|]).
  by rewrite lookup_empty in H.
Qed.

Lemma od_set_fresh {V} (k : Z) (v : V) (od : list (Z * V)) :
  k ∉ od.*1 → od_set k v od = od ++ [(k, v)].
Proof.
  induction od as [|[k0 v0] od IH]; csimpl; intros Hk; [done|].
  rewrite not_elem_of_cons in Hk. destruct Hk as [Hne Hk].
  rewrite decide_False by done. by rewrite IH.
Qed.

Lemma count_day_snoc D pre ts :
  count_day D (pre ++ [ts])
  = (count_day D pre
     + if decide (day_map !! day_of_week ts = Some D) then 1 else 0)%nat.
Proof.
  unfold count_day. rewrite filter_app, length_app, filter_cons, filter_nil.
  by destruct (decide (day_map !! day_of_week ts = Some D)).
Qed.

Lemma index_items_keys pre rows :
  ∀ k, k ∈ (index_items pre rows).*1 → k ∈ ts_id <$> rows.
Proof.
  revert pre. induction rows as [|ts rest IH]; intros pre k; csimpl; [done|].
  destruct (day_map !! day_of_week ts); csimpl.
  - intros [->|Hk]%elem_of_cons; [by left|]. right. by eapply IH.
  - intros Hk. right. by eapply IH.
Qed.

(** The loop never raises, and with pairwise distinct ids it appends
    exactly [index_items]. *)
Lemma index_loop_spec rows pre od si :
  NoDup (ts_id <$> rows) →
  (∀ k, k ∈ od.*1 → k ∉ ts_id <$> rows) →
  (∀ D, D ∈ [0; 1; 2; 3; 4] → si !! D = Some (Z.of_nat (count_day D pre))) →
  ∃ si', index_loop rows (od, si) = Some (od ++ index_items pre rows, si').
Proof.
  revert pre od si. induction rows as [|ts rest IH]; intros pre od si Hnd Hod Hsi.
  - exists si. simpl. by rewrite app_nil_r.
  - rewrite fmap_cons in Hnd. apply NoDup_cons in Hnd as [Hfresh Hnd]. simpl.
    destruct (day_map !! day_of_week ts) as [D|] eqn:HD.
    + rewrite (Hsi D (day_map_range _ _ HD)). simpl.
      rewrite od_set_fresh.
      2:{ intros Hin. apply (Hod _ Hin). by left. }
      destruct (IH (pre ++ [ts])
                  (od ++ [(ts_id ts, (D, Z.of_nat (count_day D pre)))])
                  (<[D := Z.of_nat (count_day D pre) + 1]> si) Hnd)
        as [si' Hsi'].
      * intros k. rewrite fmap_app, elem_of_app. intros [Hk|Hk].
        -- intros Hin. apply (Hod k Hk). by right.
        -- csimpl in Hk. apply list_elem_of_singleton in Hk as ->. done.
      * intros D' HD'. rewrite count_day_snoc.
        destruct (decide (D = D')) as [->|Hne].
        -- rewrite lookup_insert_eq, decide_True by done. f_equal. lia.
        -- rewrite lookup_insert_ne by done.
           rewrite decide_False by congruence.
           rewrite Nat.add_0_r. by apply Hsi.
      * exists si'. etrans; [exact Hsi'|]. by rewrite <- app_assoc.
    + apply IH; [done| |].
      * intros k Hk Hin. apply (Hod k Hk). by right.
      * intros D' HD'. rewrite count_day_snoc, decide_False by congruence.
        rewrite Nat.add_0_r. by apply Hsi.
Qed.

Lemma index_loop_skip rows st :
  index_loop (filter is_weekday rows) st = index_loop rows st.
Proof.
  revert st. induction rows as [|ts rest IH]; intros st; [done|].
  rewrite filter_cons. unfold is_weekday at 1.
  destruct (decide (is_Some (day_map !! day_of_week ts))) as [[D HD]|Hno]; simpl.
  - rewrite HD. destruct (st.2 !! D); simpl; [apply IH|done].
  - rewrite IH. apply eq_None_not_Some in Hno. by rewrite Hno.
Qed.

Lemma index_items_elem_of pre rows k c :
  (k, c) ∈ index_items pre rows ↔
  ∃ i ts D, rows !! i = Some ts ∧ ts_id ts = k ∧
            day_map !! day_of_week ts = Some D ∧
            c = (D, Z.of_nat (count_day D (pre ++ take i rows))).
Proof.
  revert pre. induction rows as [|ts rest IH]; intros pre; simpl.
  - split; [by intros ?%elem_of_nil|]. by intros (i & ts & D & ? & _).
  - assert ((k, c) ∈ index_items (pre ++ [ts]) rest ↔
            ∃ i ts' D, (ts :: rest) !! S i = Some ts' ∧ ts_id ts' = k ∧
                       day_map !! day_of_week ts' = Some D ∧
                       c = (D, Z.of_nat (count_day D (pre ++ take (S i) (ts :: rest)))))
      as Hrest.
    { rewrite IH. simpl. setoid_rewrite <- app_assoc. done. }
    destruct (day_map !! day_of_week ts) as [D|] eqn:HD.
    + rewrite elem_of_cons, Hrest. split.
      * intros [[= -> ->]|(i & ts' & D' & ?)].
        -- exists 0%nat, ts, D. simpl. by rewrite app_nil_r.
        -- by exists (S i), ts', D'.
      * intros ([|i] & ts' & D' & Hi & Hk & HD' & ->).
        -- left. simpl in *. rewrite app_nil_r. by simplify_eq.
        -- right. by exists i, ts', D'.
    + rewrite Hrest. split.
      * intros (i & ts' & D' & ?). by exists (S i), ts', D'.
      * intros ([|i] & ts' & D' & Hi & Hk & HD' & ->).
        -- simpl in Hi. simplify_eq.
        -- by exists i, ts', D'.
Qed.

Lemma count_day_app_le D pre l : (count_day D pre ≤ count_day D (pre ++ l))%nat.
Proof. unfold count_day. rewrite filter_app, length_app. lia. Qed.

Lemma index_items_coords_NoDup pre rows : NoDup (index_items pre rows).*2.
Proof.
  revert pre. induction rows as [|ts rest IH]; intros pre; simpl; [constructor|].
  destruct (day_map !! day_of_week ts) as [D|] eqn:HD; [|apply IH].
  csimpl. apply NoDup_cons. split; [|apply IH].
  intros ([k c] & Hc & Hin)%list_elem_of_fmap. simpl in Hc. subst c.
  apply index_items_elem_of in Hin as (i & ts' & D' & _ & _ & _ & [= <- Heq]).
  pose proof (count_day_app_le D (pre ++ [ts]) (take i rest)) as Hle.
  rewrite count_day_snoc, decide_True in Hle by done. lia.
Qed.

Lemma index_items_keys_NoDup pre rows :
  NoDup (ts_id <$> rows) → NoDup (index_items pre rows).*1.
Proof.
  revert pre. induction rows as [|ts rest IH]; intros pre; csimpl; [constructor|].
  intros [Hfresh Hnd]%NoDup_cons.
  destruct (day_map !! day_of_week ts); [|by apply IH].
  csimpl. apply NoDup_cons. split; [|by apply IH].
  intros Hin. by apply index_items_keys in Hin.
Qed.

(** A dict comprehension that swaps keys and values inverts a dict whose
    values are pairwise distinct. *)
Lemma reverse_fold_lookup (m : list (Z * Timeslot)) (rev0 : gmap Timeslot Z) c k :
  foldl (λ rev kv, <[kv.2 := kv.1]> rev) rev0 m !! c = Some k →
  rev0 !! c = Some k ∨ (k, c) ∈ m.
Proof.
  revert rev0. induction m as [|[k0 c0] m IH]; intros rev0; simpl; [by left|].
  intros [Hl|Hin]%IH.
  - apply lookup_insert_Some in Hl as [[<- <-]|[_ Hl]]; [|by left].
    right. by left.
  - right. by right.
Qed.

Lemma reverse_fold_mono (m : list (Z * Timeslot)) (rev0 : gmap Timeslot Z) c :
  is_Some (rev0 !! c) →
  is_Some (foldl (λ rev kv, <[kv.2 := kv.1]> rev) rev0 m !! c).
Proof.
  revert rev0. induction m as [|[k1 c1] m IH]; intros rev0 Hs; simpl; [done|].
  apply IH. rewrite lookup_insert_is_Some.
  destruct (decide (c1 = c)); [by left|by right].
Qed.

Lemma reverse_fold_elem_of (m : list (Z * Timeslot)) (rev0 : gmap Timeslot Z) c k :
  NoDup m.*2 → (k, c) ∈ m →
  foldl (λ rev kv, <[kv.2 := kv.1]> rev) rev0 m !! c = Some k.
Proof.
  revert rev0. induction m as [|[k0 c0] m IH]; intros rev0; csimpl.
  - by intros _ ?%elem_of_nil.
  - intros [Hfresh Hnd]%NoDup_cons [[= -> ->]|Hin]%elem_of_cons; [|by apply IH].
    destruct (reverse_fold_mono m (<[c0:=k0]> rev0) c0) as [k' Hl].
    { rewrite lookup_insert_eq. by eexists. }
    rewrite Hl. f_equal.
    apply reverse_fold_lookup in Hl as [Hl|Hin].
    + rewrite lookup_insert_eq in Hl. by simplify_eq.
    + exfalso. apply Hfresh. apply list_elem_of_fmap. by exists (k', c0).
Qed.

Lemma reverse_timeslot_map_spec m c k :
  NoDup m.*2 → reverse_timeslot_map m !! c = Some k ↔ (k, c) ∈ m.
Proof.
  intros Hnd. unfold reverse_timeslot_map. split.
  - intros [Hl|?]%reverse_fold_lookup; [|done]. by rewrite lookup_empty in Hl.
  - by apply reverse_fold_elem_of.
Qed.

(** C9.  For rows with pairwise distinct ids the loop raises no error and
    builds a map in which the row at position [i], of weekday [D], has the
    coordinate [(D, k)] where [k] counts the rows of day [D] before
    position [i]; rows of another day get no entry and can be left out
    without changing the map; the coordinates are pairwise distinct, and the
    reversed map sends a coordinate to an id exactly when the map sends that
    id to that coordinate, its keys being the coordinates produced. *)
Theorem timeslot_index_bijection (all_timeslots_db : list TimeslotRow) :
  NoDup (ts_id <$> all_timeslots_db) →
  ∃ m, timeslot_id_map all_timeslots_db = Some m ∧
    (∀ i ts D, all_timeslots_db !! i = Some ts →
               day_map !! day_of_week ts = Some D →
       od_lookup (ts_id ts) m
       = Some (D, Z.of_nat (count_day D (take i all_timeslots_db)))) ∧
    (∀ ts, ts ∈ all_timeslots_db → day_map !! day_of_week ts = None →
       od_lookup (ts_id ts) m = None) ∧
    timeslot_id_map (filter is_weekday all_timeslots_db) = Some m ∧
    NoDup (ALL_TIMESLOTS_AS_TUPLES m) ∧
    (∀ k c, od_lookup k m = Some c ↔ reverse_timeslot_map m !! c = Some k) ∧
    (∀ c, c ∈ ALL_TIMESLOTS_AS_TUPLES m ↔ is_Some (reverse_timeslot_map m !! c)).
Proof.
  intros Hnd.
  destruct (index_loop_spec all_timeslots_db [] [] slot_indices_init Hnd)
    as [si' Hloop].
  { intros k Hk. by apply elem_of_nil in Hk. }
  { intros D HD. unfold count_day. simpl.
    repeat (apply elem_of_cons in HD as [->|HD]; [done|]).
    by apply elem_of_nil in HD. }
  simpl in Hloop. set (m := index_items [] all_timeslots_db) in *.
  assert (NoDup m.*1) as Hkeys by by apply index_items_keys_NoDup.
  assert (NoDup m.*2) as Hcoords by apply index_items_coords_NoDup.
  assert (∀ k c, od_lookup k m = Some c ↔ (k, c) ∈ m) as Hlk.
  { intros k c. split; [apply od_lookup_elem_of|by apply od_elem_of_lookup]. }
  exists m. unfold timeslot_id_map.
  rewrite index_loop_skip, Hloop. simpl.
  repeat split; try done.
  - intros i ts D Hi HD. apply Hlk, index_items_elem_of.
    by exists i, ts, D.
  - intros ts Hin HD. apply eq_None_not_Some. intros [c Hc].
    apply Hlk, index_items_elem_of in Hc as (i & ts' & D & Hi & Hid & HD' & _).
    assert (ts' = ts) as ->.
    { apply (NoDup_fmap_eq ts_id all_timeslots_db); [done| |done..].
      apply list_elem_of_lookup. by exists i. }
    congruence.
  - intros Hl. by apply reverse_timeslot_map_spec, Hlk.
  - intros Hl. by apply Hlk, reverse_timeslot_map_spec.
  - unfold ALL_TIMESLOTS_AS_TUPLES.
    intros ([k c'] & -> & Hin)%list_elem_of_fmap. exists k.
    by apply reverse_timeslot_map_spec.
  - intros [k Hk]. apply reverse_timeslot_map_spec in Hk; [|done].
    unfold ALL_TIMESLOTS_AS_TUPLES. apply list_elem_of_fmap. by exists (k, c).
Qed.

(** * Minimum change *)

(** ** Valuations that agree on the variables of [schedule] *)

Lemma lin_sum_ext v v' xs :
  (∀ x, x ∈ xs → v x = v' x) → lin_sum v xs = lin_sum v' xs.
Proof.
  intros H. apply sum_list_with_ext_in. intros x Hx. by rewrite H.
Qed.

Lemma expr_holds_ext v v' e :
  (∀ x, x ∈ expr_vars e → v x = v' x) → expr_holds v e = expr_holds v' e.
Proof. destruct e; simpl; intros H; by rewrite (lin_sum_ext v v'). Qed.

Lemma var_at_elem_of (schedule : gmap Key BoolVar) k x :
  x ∈ var_at schedule k → schedule !! k = Some x.
Proof.
  unfold var_at. destruct (schedule !! k); simpl; [|by intros ?%elem_of_nil].
  by intros ->%list_elem_of_singleton.
Qed.

(** Every variable of a hard constraint is a value of [schedule]. *)
Lemma hard_vars_in_schedule d tc e x :
  e ∈ hard_exprs d (schedule_of d) tc → x ∈ expr_vars e →
  ∃ k, schedule_of d !! k = Some x.
Proof.
  unfold hard_exprs. rewrite !elem_of_app.
  intros [He|[He|[He|[He|He]]]] Hx.
  - apply list_elem_of_bind in He as (c & ->%list_elem_of_singleton & _).
    simpl in Hx. unfold course_vars in Hx.
    apply list_elem_of_bind in Hx as (f & Hx & _).
    apply list_elem_of_bind in Hx as (r & Hx & _).
    apply list_elem_of_bind in Hx as (t & Hx & _).
    eexists. by apply var_at_elem_of.
  - apply list_elem_of_bind in He as (f & He & _).
    apply list_elem_of_bind in He as (t & ->%list_elem_of_singleton & _).
    simpl in Hx. unfold faculty_vars in Hx.
    apply list_elem_of_bind in Hx as (c & Hx & _).
    apply list_elem_of_bind in Hx as (r & Hx & _).
    eexists. by apply var_at_elem_of.
  - apply list_elem_of_bind in He as (r & He & _).
    apply list_elem_of_bind in He as (t & ->%list_elem_of_singleton & _).
    simpl in Hx. unfold room_vars in Hx.
    apply list_elem_of_bind in Hx as (c & Hx & _).
    apply list_elem_of_bind in Hx as (f & Hx & _).
    eexists. by apply var_at_elem_of.
  - apply list_elem_of_bind in He as (se & He & _).
    apply list_elem_of_bind in He as (t & ->%list_elem_of_singleton & _).
    simpl in Hx. unfold student_vars in Hx.
    apply list_elem_of_bind in Hx as (cid & Hx & _).
    apply list_elem_of_bind in Hx as (f & Hx & _).
    apply list_elem_of_bind in Hx as (r & Hx & _).
    eexists. by apply var_at_elem_of.
  - unfold temporary_exprs in He. destruct tc as [[|tc0 tcs]|];
      [by apply elem_of_nil in He| |by apply elem_of_nil in He].
    apply list_elem_of_bind in He as (constraint & He & _).
    unfold lock_exprs in He.
    apply list_elem_of_bind in He as (c & He & _).
    apply list_elem_of_bind in He as (r & He & _).
    destruct (schedule_of d !! _) as [y|] eqn:Hy;
      [|by apply elem_of_nil in He].
    apply list_elem_of_singleton in He as ->. simpl in Hx.
    apply list_elem_of_singleton in Hx as ->. by eexists.
Qed.

Lemma hard_exprs_agree d tc v v' :
  agree d v v' →
  Forall (λ e, expr_holds v e = true) (hard_exprs d (schedule_of d) tc) →
  Forall (λ e, expr_holds v' e = true) (hard_exprs d (schedule_of d) tc).
Proof.
  intros Hag. rewrite !Forall_forall. intros H e He.
  rewrite <- (H e He). symmetry. apply expr_holds_ext. intros x Hx.
  destruct (hard_vars_in_schedule d tc e x He Hx) as [k Hk]. by apply (Hag k).
Qed.

Lemma hits_agree d v v' : agree d v v' → hits d v = hits d v'.
Proof.
  intros Hag. unfold hits. apply list_filter_iff. intros [[[t c] f] r].
  unfold chosen. destruct (schedule_of d !! key c f r t) as [x|] eqn:Hx; [|done].
  by rewrite (Hag _ _ Hx).
Qed.

Lemma results_of_agree d v v' :
  agree d v v' →
  results_of d (schedule_of d) v = results_of d (schedule_of d) v'.
Proof.
  intros Hag. unfold results_of. fold (hits d v) (hits d v').
  by rewrite (hits_agree d v v' Hag).
Qed.

(** ** The map of the old schedule *)

Lemma old_fold_lookup items (m0 : gmap Z (Z * Z * Timeslot)) cid a :
  foldl (λ m item, <[c_id (course item) := old_assignment item]> m) m0 items
    !! cid = Some a →
  m0 !! cid = Some a ∨
  ∃ item, item ∈ items ∧ c_id (course item) = cid ∧ a = old_assignment item.
Proof.
  revert m0. induction items as [|item items IH]; intros m0; simpl; [by left|].
  intros [Hm|(item' & Hin & Hid & Ha)]%IH.
  - apply lookup_insert_Some in Hm as [[<- <-]|[_ Hm]]; [|by left].
    right. exists item. split; [by left|done].
  - right. exists item'. split; [by right|done].
Qed.

Lemma old_fold_mono items (m0 : gmap Z (Z * Z * Timeslot)) cid :
  is_Some (m0 !! cid) →
  is_Some (foldl (λ m item, <[c_id (course item) := old_assignment item]> m)
             m0 items !! cid).
Proof.
  revert m0. induction items as [|item items IH]; intros m0 Hs; simpl; [done|].
  apply IH. rewrite lookup_insert_is_Some.
  destruct (decide (c_id (course item) = cid)); [by left|by right].
Qed.

Lemma old_schedule_map_lookup items cid a :
  old_schedule_map items !! cid = Some a →
  ∃ item, item ∈ items ∧ c_id (course item) = cid ∧ a = old_assignment item.
Proof.
  intros [Hm|?]%old_fold_lookup; [|done]. by rewrite lookup_empty in Hm.
Qed.

Lemma old_schedule_map_is_Some items item :
  item ∈ items → is_Some (old_schedule_map items !! c_id (course item)).
Proof.
  unfold old_schedule_map. generalize (∅ : gmap Z (Z * Z * Timeslot)).
  induction items as [|item' items IH]; intros m0 Hin.
  - by apply elem_of_nil in Hin.
  - apply elem_of_cons in Hin as [->|Hin]; simpl; [|by apply IH].
    apply (old_fold_mono items). rewrite lookup_insert_eq. by eexists.
Qed.

(** ** One true variable per course *)

Lemma course_vars_keys d v cid :
  lin_sum v (course_vars d (schedule_of d) cid)
  = sum_list_with (weight d v) (course_keys d cid).
Proof.
  unfold course_vars, course_keys. rewrite lin_sum_bind, sum_list_with_bind.
  apply sum_list_with_ext_in. intros f _.
  rewrite lin_sum_bind, sum_list_with_bind.
  apply sum_list_with_ext_in. intros r _.
  rewrite lin_sum_bind, sum_list_with_bind.
  apply sum_list_with_ext_in. intros t _.
  rewrite lin_sum_var_at. simpl. unfold weight. lia.
Qed.

Lemma elem_of_course_keys d c f r t :
  f ∈ FACULTY d → r ∈ ROOMS d → t ∈ ALL_TIMESLOTS d →
  key c f r t ∈ course_keys d (c_id c).
Proof.
  intros Hf Hr Ht. unfold course_keys.
  apply list_elem_of_bind. exists f. split; [|done].
  apply list_elem_of_bind. exists r. split; [|done].
  apply list_elem_of_bind. exists t. split; [|done].
  by apply list_elem_of_singleton.
Qed.

Lemma course_keys_inv d cid k :
  k ∈ course_keys d cid →
  ∃ f r t, f ∈ FACULTY d ∧ r ∈ ROOMS d ∧ t ∈ ALL_TIMESLOTS d ∧
           k = (cid, f_id f, r_id r, t).
Proof.
  unfold course_keys.
  intros (f & Hk & Hf)%list_elem_of_bind.
  apply list_elem_of_bind in Hk as (r & Hk & Hr).
  apply list_elem_of_bind in Hk as (t & Hk & Ht).
  apply list_elem_of_singleton in Hk. by exists f, r, t.
Qed.

Lemma sum_pos_exists {A} (h : A → nat) (l : list A) :
  (0 < sum_list_with h l)%nat → ∃ a, a ∈ l ∧ (0 < h a)%nat.
Proof.
  induction l as [|a l IH]; simpl; [lia|]. intros Hpos.
  destruct (decide (0 < h a)%nat) as [Ha|Ha].
  - exists a. split; [by left|done].
  - destruct IH as (b & Hb & Hhb); [lia|]. exists b. split; [by right|done].
Qed.

Lemma sum_one_unique {A} (h : A → nat) (l : list A) a0 a :
  sum_list_with h l = 1%nat → a0 ∈ l → (0 < h a0)%nat → a ∈ l → a ≠ a0 →
  h a = 0%nat.
Proof.
  intros Hsum Ha0 Hpos Ha Hne.
  apply elem_of_Permutation in Ha0 as [l' Hl'].
  rewrite Hl' in Hsum, Ha. simpl in Hsum.
  apply elem_of_cons in Ha as [?|Ha]; [done|].
  pose proof (sum_list_with_in a h l' Ha). lia.
Qed.

(** ** Rewards *)

Lemma lin_sum_le_length v xs : (lin_sum v xs ≤ length xs)%nat.
Proof.
  unfold lin_sum. induction xs as [|x xs IH]; simpl; [lia|].
  destruct (v x); simpl; lia.
Qed.

Lemma lin_sum_seq_true v n len :
  (∀ i, (i < len)%nat → v (n + i)%nat = true) → lin_sum v (seq n len) = len.
Proof.
  revert n. induction len as [|len IH]; intros n H; [done|].
  unfold lin_sum in *. simpl.
  rewrite <- (Nat.add_0_r n) at 1. rewrite (H 0%nat) by lia. simpl.
  f_equal. apply IH. intros i Hi.
  replace (S n + i)%nat with (n + S i)%nat by lia. apply H. lia.
Qed.

Lemma lin_sum_seq_full v n len i :
  (len ≤ lin_sum v (seq n len))%nat → (i < len)%nat → v (n + i)%nat = true.
Proof.
  revert n i. induction len as [|len IH]; intros n i Hle Hi; [lia|].
  unfold lin_sum in *. simpl in Hle.
  pose proof (lin_sum_le_length v (seq (S n) len)) as Hb.
  unfold lin_sum in Hb. rewrite length_seq in Hb.
  destruct i as [|i].
  - rewrite Nat.add_0_r. destruct (v n); [done|simpl in Hle; lia].
  - replace (n + S i)%nat with (S n + i)%nat by lia. apply IH; [|lia].
    destruct (v n); simpl in Hle; lia.
Qed.

(** ** The prior schedule is returned again *)

Lemma weight_Some d v k x :
  schedule_of d !! k = Some x → weight d v k = Nat.b2n (v x).
Proof. intros H. unfold weight, val_at. by rewrite H. Qed.

Lemma prev_targets_elem_of d P x :
  x ∈ prev_targets d (Some P) ↔
  P ≠ [] ∧ ∃ c, c ∈ COURSES d ∧
                x ∈ reward_target (schedule_of d) (old_schedule_map P) c.
Proof.
  unfold prev_targets. destruct P as [|item items].
  - split; [by intros ?%elem_of_nil|]. by intros [? _].
  - unfold reward_targets. rewrite list_elem_of_bind. split.
    + intros (c & ? & ?). split; [done|]. by exists c.
    + intros [_ (c & ? & ?)]. by exists c.
Qed.

Section prior.
Variables (d : Data) (v0 : Valuation) (res : list Entry).
Hypothesis Hh0 :
  Forall (λ e, expr_holds v0 e = true) (hard_exprs d (schedule_of d) None).
Hypothesis Hres : results_of d (schedule_of d) v0 = Some res.

Lemma prior_Forall2 : Forall2 (entry_for d) (hits d v0) res.
Proof.
  destruct (results_of_total d v0) as (res' & Hres' & HF).
  rewrite Hres in Hres'. by simplify_eq.
Qed.

(** The assignment of every entry of the prior schedule is a variable that
    is true in [v0]. *)
Lemma prior_entry_true e :
  e ∈ sort_results res →
  ∃ x, schedule_of d !! entry_key e = Some x ∧ v0 x = true.
Proof.
  rewrite sort_results_Permutation. intros [i Hi]%list_elem_of_lookup.
  destruct (Forall2_lookup_r _ _ _ _ _ prior_Forall2 Hi)
    as ([[[t c] f] r] & Hq & Hk & _).
  assert ((t, c, f, r) ∈ hits d v0) as Hin
    by (apply list_elem_of_lookup; by exists i).
  unfold hits in Hin. apply list_elem_of_filter in Hin as [Hch _].
  rewrite Hk. unfold hit_key. simpl. unfold chosen in Hch.
  destruct (schedule_of d !! key c f r t) as [x|]; [|done]. by exists x.
Qed.

(** Every course has an entry in the prior schedule. *)
Lemma prior_covers c :
  c ∈ COURSES d → ∃ e, e ∈ sort_results res ∧ c_id (course e) = c_id c.
Proof.
  intros Hc. pose proof (hard_course d None v0 Hh0 c Hc) as H1.
  rewrite course_vars_keys in H1.
  destruct (sum_pos_exists (weight d v0) (course_keys d (c_id c)))
    as (k & Hk & Hpos); [lia|].
  apply course_keys_inv in Hk as (f & r & t & Hf & Hr & Ht & ->).
  assert ((t, c, f, r) ∈ hits d v0) as Hin.
  { unfold hits. apply list_elem_of_filter. split.
    - rewrite chosen_val_at. unfold weight in Hpos.
      change (hit_key (t, c, f, r)) with (c_id c, f_id f, r_id r, t).
      destruct (val_at (schedule_of d) v0 (c_id c, f_id f, r_id r, t));
        [done|simpl in Hpos; lia].
    - by apply elem_of_decode_order. }
  apply list_elem_of_lookup in Hin as [i Hi].
  destruct (Forall2_lookup_l _ _ _ _ _ prior_Forall2 Hi) as (e & He & Hk & _).
  exists e. split.
  - rewrite sort_results_Permutation. apply list_elem_of_lookup. by exists i.
  - unfold entry_key, hit_key, key in Hk. simpl in Hk. by simplify_eq.
Qed.

(** The loop of lines 138-147 rewards, for every course, a variable that
    is true in [v0]. *)
Lemma prior_reward_target c :
  c ∈ COURSES d →
  ∃ a x0, schedule_of d !! (c_id c, a.1.1, a.1.2, a.2) = Some x0 ∧
          v0 x0 = true ∧
          reward_target (schedule_of d) (old_schedule_map (sort_results res)) c
          = [x0].
Proof.
  intros Hc. destruct (prior_covers c Hc) as (e & He & Hid).
  destruct (old_schedule_map_is_Some _ e He) as [a Ha]. rewrite Hid in Ha.
  destruct (old_schedule_map_lookup _ _ a Ha) as (e' & He' & Hid' & Heq).
  destruct (prior_entry_true e' He') as (x0 & Hx0 & Hv0).
  unfold entry_key in Hx0. rewrite Hid' in Hx0.
  exists a, x0. unfold reward_target. rewrite Ha.
  destruct a as [[fid rid] t]. unfold old_assignment in Heq. simpl.
  simplify_eq. split; [exact Hx0|]. split; [done|].
  exact (f_equal option_list Hx0).
Qed.

End prior.

Lemma with_rewards_agree d v0 : agree d v0 (with_rewards d v0).
Proof.
  intros k x Hk. unfold with_rewards.
  rewrite decide_True; [done|]. by apply (schedule_var_bound d k).
Qed.

Lemma with_rewards_satisfies d tc v0 res :
  temporary_exprs d (schedule_of d) tc = [] →
  Forall (λ e, expr_holds v0 e = true) (hard_exprs d (schedule_of d) None) →
  results_of d (schedule_of d) v0 = Some res →
  satisfies (with_rewards d v0) (build_model d tc (Some (sort_results res)))
  = true.
Proof.
  intros Htc Hh0 Hres. apply satisfies_build_model. split.
  - assert (hard_exprs d (schedule_of d) tc = hard_exprs d (schedule_of d) None)
      as -> by (unfold hard_exprs; by rewrite Htc).
    apply (hard_exprs_agree d None v0); [apply with_rewards_agree|done].
  - intros i x Hi _.
    assert (x ∈ prev_targets d (Some (sort_results res))) as Hx
      by (apply list_elem_of_lookup; by exists i).
    apply prev_targets_elem_of in Hx as [_ (c & Hc & Hx)].
    destruct (prior_reward_target d v0 res Hh0 Hres c Hc)
      as (a & x0 & Hx0 & Hv0 & Ht).
    rewrite Ht in Hx. apply list_elem_of_singleton in Hx as ->.
    by rewrite <- (with_rewards_agree d v0 _ _ Hx0).
Qed.

(** C5.  Let the prior schedule [P] be a schedule of the same data (the
    sorted decoding of a valuation that satisfies every hard constraint),
    let there be no temporary constraint, and let the solver keep its
    contract and run to completion.  Then [generate_schedule], called with
    [P] as [previous_schedule], returns [P] itself, and every reward
    variable is true in the solution. *)
Theorem minimum_change (Solve : CpModel → Response) (d : Data)
    (tc : option (list TempConstraint)) (P : list Entry) :
  tc = None ∨ tc = Some [] →
  feasible_prior d P →
  cp_sat_contract (build_model d tc (Some P)) (Solve (build_model d tc (Some P))) →
  ran_to_completion (Solve (build_model d tc (Some P))) →
  generate_schedule Solve d tc (Some P) = Returned (Some P) ∧
  ∀ i, (i < length (prev_targets d (Some P)))%nat →
       Value (Solve (build_model d tc (Some P))) (sched_vars d + i)%nat = true.
Proof.
  intros Htc (v0 & res & Hh0 & Hres & ->) Hct Hrun.
  assert (temporary_exprs d (schedule_of d) tc = []) as Hno
    by (destruct Htc as [-> | ->]; done).
  set (P := sort_results res) in *.
  set (m := build_model d tc (Some P)) in *.
  set (ts := prev_targets d (Some P)).
  pose proof (with_rewards_satisfies d tc v0 res Hno Hh0 Hres) as Hsat0.
  fold P m in Hsat0.
  (* the solver proves optimality *)
  assert (status (Solve m) = OPTIMAL) as Hst.
  { destruct Hrun as [?|Hinf]; [done|].
    unfold cp_sat_contract in Hct. rewrite Hinf in Hct.
    by rewrite Hct in Hsat0. }
  unfold cp_sat_contract in Hct. rewrite Hst in Hct.
  destruct Hct as [Hsat Hopt]. set (v := Value (Solve m)) in *.
  apply satisfies_build_model in Hsat as [Hh Hrw].
  assert (hard_exprs d (schedule_of d) tc = hard_exprs d (schedule_of d) None)
    as Hhe by (unfold hard_exprs; by rewrite Hno).
  rewrite Hhe in Hh. fold P ts in Hrw.
  (* every reward is satisfied *)
  assert (∀ i, (i < length ts)%nat → v (sched_vars d + i)%nat = true) as Hall.
  { destruct (decide (P = [])) as [HP|HP].
    - unfold ts, prev_targets. rewrite HP. simpl. lia.
    - specialize (Hopt _ Hsat0). unfold objective_value in Hopt.
      destruct (build_model_spec d tc (Some P)) as [_ Hobj].
      fold m ts in Hobj. rewrite Hobj in Hopt.
      destruct P as [|item items]; [done|].
      rewrite (lin_sum_seq_true (with_rewards d v0)) in Hopt.
      + intros i Hi. by apply (lin_sum_seq_full v _ (length ts)).
      + intros i _. unfold with_rewards. rewrite decide_False; [done|lia]. }
  (* hence the rewarded variable of every course is true *)
  assert (∀ c, c ∈ COURSES d →
            ∃ k0 x0, k0 ∈ course_keys d (c_id c) ∧
                     schedule_of d !! k0 = Some x0 ∧
                     v0 x0 = true ∧ v x0 = true) as Hkeep.
  { intros c Hc.
    destruct (prior_reward_target d v0 res Hh0 Hres c Hc)
      as ([[fid rid] t] & x0 & Hx0 & Hv0 & Ht). simpl in Hx0.
    exists (c_id c, fid, rid, t), x0. split; [|split; [done|split; [done|]]].
    - assert (is_Some (schedule_of d !! (c_id c, fid, rid, t))) as Hs
        by (by eexists).
      apply schedule_key_iff in Hs as (c' & f' & r' & t' & _ & ? & ? & ? & Hk & _).
      unfold key in Hk. simplify_eq. rewrite H2.
      by apply (elem_of_course_keys d c').
    - assert (x0 ∈ ts) as Hin.
      { apply prev_targets_elem_of. split.
        - destruct (prior_covers d v0 res Hh0 Hres c Hc) as (e & He & _).
          fold P in He. intros HP. rewrite HP in He. by apply elem_of_nil in He.
        - exists c. split; [done|]. fold P in Ht. rewrite Ht.
          by apply list_elem_of_singleton. }
      apply list_elem_of_lookup in Hin as [i Hi].
      apply (Hrw i x0 Hi). apply Hall. by apply lookup_lt_Some in Hi. }
  (* so the solution is the prior valuation on the variables of schedule *)
  assert (agree d v v0) as Hag.
  { intros k x Hk.
    assert (is_Some (schedule_of d !! k)) as Hs by (by eexists).
    apply schedule_key_iff in Hs as (c & f & r & t & Hc & Hf & Hr & Ht & -> & _).
    destruct (Hkeep c Hc) as (k0 & x0 & Hk0 & Hx0 & Hv0 & Hv).
    destruct (decide (key c f r t = k0)) as [<-|Hne].
    - rewrite Hk in Hx0. simplify_eq. by rewrite Hv0, Hv.
    - pose proof (elem_of_course_keys d c f r t Hf Hr Ht) as Hkin.
      assert (weight d v (key c f r t) = 0%nat) as Hw.
      { apply (sum_one_unique _ (course_keys d (c_id c)) k0); try done.
        - rewrite <- course_vars_keys. by apply (hard_course d None).
        - rewrite (weight_Some d v k0 x0 Hx0), Hv. simpl. lia. }
      assert (weight d v0 (key c f r t) = 0%nat) as Hw0.
      { apply (sum_one_unique _ (course_keys d (c_id c)) k0); try done.
        - rewrite <- course_vars_keys. by apply (hard_course d None).
        - rewrite (weight_Some d v0 k0 x0 Hx0), Hv0. simpl. lia. }
      rewrite (weight_Some d v _ x Hk) in Hw.
      rewrite (weight_Some d v0 _ x Hk) in Hw0.
      destruct (v x), (v0 x); simpl in *; done. }
  split; [|exact Hall].
  unfold generate_schedule. fold m. rewrite Hst. fold v.
  by rewrite (results_of_agree d v v0 Hag), Hres.
Qed.

(** * The theorems at work on the worked timetable *)

Lemma Forall_forallb {A} (f : A → bool) (l : list A) :
  forallb f l = true → Forall (λ a, f a = true) l.
Proof.
  rewrite forallb_forall, Forall_forall. intros H a Ha.
  by apply H, list_elem_of_In.
Qed.

Lemma NoDup_by_decide `{EqDecision A} (l : list A) :
  bool_decide (NoDup l) = true → NoDup l.
Proof. apply bool_decide_eq_true. Qed.

Example ex_generate :
  generate_schedule ex_Solve_feasible ex_data None None
  = Returned (Some ex_schedule).
Proof. vm_compute. reflexivity. Qed.

Example ex_generate_prev :
  generate_schedule ex_Solve_optimal ex_data None (Some ex_schedule)
  = Returned (Some ex_schedule).
Proof. vm_compute. reflexivity. Qed.

Ltac in_list :=
  repeat first [apply list_elem_of_here | apply list_elem_of_further].

Lemma ex_unique_ids : unique_ids ex_data.
Proof. repeat split; apply NoDup_by_decide; vm_compute; reflexivity. Qed.

Lemma ex_contract_feasible tc :
  satisfies ex_valuation (build_model ex_data tc None) = true →
  cp_sat_contract (build_model ex_data tc None)
                  (ex_Solve_feasible (build_model ex_data tc None)).
Proof. intros H. exact H. Qed.

Lemma variable_exists_iff_eligible_witness :
  unique_ids ex_data ∧
  (is_Some (schedule_of ex_data !! key ex_c2 ex_f2 ex_r2 (0, 0)) ↔
   f_id ex_f2 ∈ c_preferred_faculty ex_c2 ∧ (0, 0) ∈ f_availability ex_f2 ∧
   (r_capacity ex_r2 >= c_enrollment ex_c2)%Z ∧ c_type ex_c2 = r_type ex_r2).
Proof.
  split; [exact ex_unique_ids|].
  apply (proj2 (variable_exists_iff_eligible ex_data) ex_unique_ids);
    in_list.
Defined.

Lemma coverage_law_witness :
  NoDup (c_id <$> COURSES ex_data) ∧
  generate_schedule ex_Solve_feasible ex_data None None
  = Returned (Some ex_schedule) ∧
  length (filter (λ e, c_id (course e) = c_id ex_c1) ex_schedule) = 1%nat ∧
  ∀ e, e ∈ ex_schedule → c_id (course e) = c_id ex_c1 → course e = ex_c1.
Proof.
  assert (NoDup (c_id <$> COURSES ex_data)) as Hnd
    by (apply NoDup_by_decide; vm_compute; reflexivity).
  assert (generate_schedule ex_Solve_feasible ex_data None None
          = Returned (Some ex_schedule)) as Hret
    by (vm_compute; reflexivity).
  split; [exact Hnd|]. split; [exact Hret|].
  apply (coverage_law ex_Solve_feasible ex_data None None ex_schedule Hnd).
  - vm_compute. reflexivity.
  - exact Hret.
  - in_list.
Defined.

Lemma no_double_booking_witness :
  NoDup (ALL_TIMESLOTS ex_data) ∧
  generate_schedule ex_Solve_feasible ex_data None None
  = Returned (Some ex_schedule) ∧
  (∀ fid dy sl,
     (length (filter (λ e, f_id (faculty e) = fid ∧ day e = dy ∧ slot e = sl)
                ex_schedule) ≤ 1)%nat) ∧
  (∀ rid dy sl,
     (length (filter (λ e, r_id (room e) = rid ∧ day e = dy ∧ slot e = sl)
                ex_schedule) ≤ 1)%nat).
Proof.
  assert (NoDup (ALL_TIMESLOTS ex_data)) as Hnd
    by (apply NoDup_by_decide; vm_compute; reflexivity).
  assert (generate_schedule ex_Solve_feasible ex_data None None
          = Returned (Some ex_schedule)) as Hret
    by (vm_compute; reflexivity).
  split; [exact Hnd|]. split; [exact Hret|].
  apply (no_double_booking ex_Solve_feasible ex_data None None ex_schedule).
  - apply NoDup_by_decide. vm_compute. reflexivity.
  - apply NoDup_by_decide. vm_compute. reflexivity.
  - exact Hnd.
  - vm_compute. reflexivity.
  - exact Hret.
Defined.

Lemma student_exclusivity_witness :
  courses_of ex_data 7 = [1; 2] ∧
  generate_schedule ex_Solve_feasible ex_data None None
  = Returned (Some ex_schedule) ∧
  (∀ sid dy sl,
     (length (filter (λ e, c_id (course e) ∈ courses_of ex_data sid ∧
                           day e = dy ∧ slot e = sl) ex_schedule) ≤ 1)%nat) ∧
  expr_holds ex_valuation
    (SumLe (student_vars ex_data (schedule_of ex_data) [1] (0, 1)) 1) = true.
Proof.
  assert (generate_schedule ex_Solve_feasible ex_data None None
          = Returned (Some ex_schedule)) as Hret
    by (vm_compute; reflexivity).
  split; [vm_compute; reflexivity|]. split; [exact Hret|].
  destruct (student_exclusivity ex_Solve_feasible ex_data None None)
    as [H1 H2].
  split.
  - apply (H1 ex_schedule).
    + apply NoDup_by_decide. vm_compute. reflexivity.
    + apply NoDup_by_decide. vm_compute. reflexivity.
    + vm_compute. reflexivity.
    + exact Hret.
  - apply (H2 8 [1] ex_valuation (0, 1)).
    + apply student_enrollments_elem_of.
      split; [vm_compute; reflexivity|discriminate].
    + vm_compute. lia.
    + apply Forall_forallb. vm_compute. reflexivity.
    + in_list.
Defined.

Lemma lock_enforcement_witness :
  generate_schedule ex_Solve_feasible ex_data (Some [ex_lock]) None
  = Returned (Some ex_schedule) ∧
  ∀ e, e ∈ ex_schedule →
       ¬ (f_id (faculty e) = 2 ∧ day e = 0 ∧ slot e = 1).
Proof.
  assert (generate_schedule ex_Solve_feasible ex_data (Some [ex_lock]) None
          = Returned (Some ex_schedule)) as Hret
    by (vm_compute; reflexivity).
  split; [exact Hret|]. intros e He.
  apply (lock_enforcement ex_Solve_feasible ex_data [ex_lock] None ex_schedule
           ltac:(vm_compute; reflexivity) Hret ex_lock e);
    [apply list_elem_of_singleton; reflexivity|exact He].
Defined.

Lemma zero_eligible_returns_None_witness :
  ex_c3 ∈ COURSES ex_data_stuck ∧
  c_preferred_faculty ex_c3 = [] ∧
  (∀ v, satisfies v (build_model ex_data_stuck None None) = false) ∧
  generate_schedule ex_Solve_infeasible ex_data_stuck None None = Returned None.
Proof.
  assert (ex_c3 ∈ COURSES ex_data_stuck) as Hin by in_list.
  split; [exact Hin|]. split; [reflexivity|].
  destruct (zero_eligible_returns_None ex_Solve_infeasible ex_data_stuck
              None None ex_c3 Hin) as (Hunsat & _ & _ & _ & Hret).
  - apply empty_preferred_no_eligible; [|exact Hin|reflexivity].
    apply NoDup_by_decide. vm_compute. reflexivity.
  - intros v. apply (no_eligible_unsat ex_data_stuck None None ex_c3 v Hin).
    apply empty_preferred_no_eligible; [|exact Hin|reflexivity].
    apply NoDup_by_decide. vm_compute. reflexivity.
  - split; [exact Hunsat|exact Hret].
Defined.

Example ex_timeslot_id_map :
  timeslot_id_map ex_rows = Some [(11, (0, 0)); (12, (0, 1)); (13, (1, 0))].
Proof. vm_compute. reflexivity. Qed.

Lemma ex_feasible_prior : feasible_prior ex_data ex_schedule.
Proof.
  exists ex_valuation, ex_schedule. split; [|split].
  - apply Forall_forallb. vm_compute. reflexivity.
  - vm_compute. reflexivity.
  - vm_compute. reflexivity.
Qed.

Lemma ex_contract_optimal :
  cp_sat_contract (build_model ex_data None (Some ex_schedule))
    (ex_Solve_optimal (build_model ex_data None (Some ex_schedule))).
Proof.
  cbv [cp_sat_contract ex_Solve_optimal status Value]. split.
  - vm_compute. reflexivity.
  - intros v' _. unfold objective_value.
    assert (objective (build_model ex_data None (Some ex_schedule))
            = Some [8; 9]%nat) as -> by (vm_compute; reflexivity).
    etrans; [apply lin_sum_le_length|].
    replace (lin_sum ex_valuation [8; 9]%nat) with 2%nat
      by (vm_compute; reflexivity).
    simpl. lia.
Qed.

Lemma minimum_change_witness :
  feasible_prior ex_data ex_schedule ∧
  generate_schedule ex_Solve_optimal ex_data None (Some ex_schedule)
  = Returned (Some ex_schedule) ∧
  ∀ i, (i < length (prev_targets ex_data (Some ex_schedule)))%nat →
       Value (ex_Solve_optimal (build_model ex_data None (Some ex_schedule)))
             (sched_vars ex_data + i)%nat = true.
Proof.
  split; [exact ex_feasible_prior|].
  apply (minimum_change ex_Solve_optimal ex_data None ex_schedule).
  - left. reflexivity.
  - exact ex_feasible_prior.
  - exact ex_contract_optimal.
  - left. reflexivity.
Defined.

Lemma output_contract_witness :
  generate_schedule ex_Solve_feasible ex_data None None ≠ Returned None ∧
  ∃ l, generate_schedule ex_Solve_feasible ex_data None None
       = Returned (Some l) ∧
       StronglySorted entry_le l ∧
       (∀ e, e ∈ l → course e ∈ COURSES ex_data ∧ faculty e ∈ FACULTY ex_data ∧
                     room e ∈ ROOMS ex_data) ∧
       (∃ res,
          Forall2 (emitted ex_data)
            (hits ex_data
               (Value (ex_Solve_feasible (build_model ex_data None None)))) res ∧
          l ≡ₚ res ∧
          ∀ k, filter (λ e, sort_key e = k) l
               = filter (λ e, sort_key e = k) res) ∧
       ∀ k, Exists (λ e, entry_key e = k) l ↔
            val_at (schedule_of ex_data)
              (Value (ex_Solve_feasible (build_model ex_data None None))) k
            = true.
Proof.
  assert (generate_schedule ex_Solve_feasible ex_data None None ≠ Returned None)
    as Hne by (vm_compute; discriminate).
  split; [exact Hne|].
  exact (proj2 (proj2 (output_contract ex_Solve_feasible ex_data None None)) Hne).
Defined.

Lemma timeslot_index_bijection_witness :
  NoDup (ts_id <$> ex_rows) ∧
  ∃ m, timeslot_id_map ex_rows = Some m ∧
       od_lookup 12 m = Some (0, 1) ∧
       od_lookup 14 m = None ∧
       NoDup (ALL_TIMESLOTS_AS_TUPLES m) ∧
       reverse_timeslot_map m !! (0, 1) = Some 12.
Proof.
  assert (NoDup (ts_id <$> ex_rows)) as Hnd
    by (apply NoDup_by_decide; vm_compute; reflexivity).
  split; [exact Hnd|].
  destruct (timeslot_index_bijection ex_rows Hnd)
    as (m & Hm & Hat & Hskip & _ & Hcoords & Hrev & _).
  exists m. split; [exact Hm|].
  assert (od_lookup 12 m = Some (0, 1)) as H12.
  { apply (Hat 1%nat {| ts_id := 12; day_of_week := "Mon"; start_time := 10 |} 0);
      vm_compute; reflexivity. }
  split; [exact H12|]. split.
  - apply (Hskip {| ts_id := 14; day_of_week := "Sat"; start_time := 9 |});
      [in_list|vm_compute; reflexivity].
  - split; [exact Hcoords|]. apply Hrev. exact H12.
Defined.

(** * More on [generate_schedule] *)

(** ** The length of the returned list *)

Lemma sum_list_with_const {A} (l : list A) (n : nat) (h : A → nat) :
  (∀ a, a ∈ l → h a = n) → sum_list_with h l = (length l * n)%nat.
Proof.
  induction l as [|a l IH]; intros Hh; [done|]. simpl.
  rewrite (Hh a) by (by left). rewrite IH; [lia|]. intros b Hb. apply Hh. by right.
Qed.

Lemma filter_all {A} (P : A → Prop) `{!∀ x, Decision (P x)} (l : list A) :
  (∀ x, P x) → filter P l = l.
Proof.
  intros HP. induction l as [|a l IH]; [done|].
  rewrite filter_cons, decide_True by done. by rewrite IH.
Qed.

(** X1.  When the solver keeps its contract, a returned schedule has as
    many entries as [COURSES] has elements, whether or not identifiers
    repeat. *)
Theorem returned_length (Solve : CpModel → Response) (d : Data)
    (tc : option (list TempConstraint)) (prev : option (list Entry))
    (l : list Entry) :
  cp_sat_contract (build_model d tc prev) (Solve (build_model d tc prev)) →
  generate_schedule Solve d tc prev = Returned (Some l) →
  length l = length (COURSES d).
Proof.
  intros Hct Hret.
  pose proof (returned_hard_exprs Solve d tc prev l Hct Hret) as Hhard.
  pose proof (count_entries Solve d tc prev (λ _, True) l Hret) as Hcount.
  rewrite filter_all in Hcount by done. rewrite Hcount.
  rewrite sum_decode_order. simpl.
  set (v := Value (Solve (build_model d tc prev))) in *.
  rewrite sum_list_with_exchange.
  rewrite (sum_list_with_const (COURSES d) 1); [lia|].
  intros c Hc. rewrite <- (hard_course d tc v Hhard c Hc), course_vars_sum.
  rewrite sum_list_with_exchange.
  apply sum_list_with_ext_in. intros f _.
  apply sum_list_with_exchange.
Qed.

Lemma returned_length_witness :
  length ex_schedule = length (COURSES ex_data).
Proof.
  apply (returned_length ex_Solve_feasible ex_data None None ex_schedule).
  - apply ex_contract_feasible. vm_compute. reflexivity.
  - vm_compute. reflexivity.
Defined.

(** ** What a returned entry respects *)

(** X2.  When identifiers identify, whatever the solver answers, every
    entry of a returned schedule passes the four tests of section 1 on its
    own records: its faculty member is preferred for its course and
    available at its coordinate, its room is large enough and of the type
    of the course; and its coordinate is one of [ALL_TIMESLOTS]. *)
Theorem returned_entries_eligible (Solve : CpModel → Response) (d : Data)
    (tc : option (list TempConstraint)) (prev : option (list Entry))
    (l : list Entry) (e : Entry) :
  unique_ids d →
  generate_schedule Solve d tc prev = Returned (Some l) → e ∈ l →
  eligible_prop (course e) (faculty e) (room e) (day e, slot e) ∧
  (day e, slot e) ∈ ALL_TIMESLOTS d.
Proof.
  intros (Hnc & Hnf & Hnr) Hret He.
  destruct (returned_entry_for Solve d tc prev l e Hret He)
    as ([[[t c] f] r] & Hq & Hk & Hce & Hfe & Hre).
  unfold hits in Hq. apply list_elem_of_filter in Hq as [Hch Hq].
  apply elem_of_decode_order in Hq as (Ht & _).
  unfold chosen in Hch.
  destruct (schedule_of d !! key c f r t) as [x|] eqn:Hx; [|done].
  destruct (proj1 (schedule_key_iff _ _) (mk_is_Some _ _ Hx))
    as (c' & f' & r' & t' & Hc' & Hf' & Hr' & _ & Hkey & Hel).
  unfold entry_key, hit_key in Hk. simpl in Hk. rewrite Hkey in Hk.
  unfold key in Hk. injection Hk as Hcid Hfid Hrid Hds.
  assert (course e = c') as <-
    by (by apply (NoDup_fmap_eq c_id (COURSES d))).
  assert (faculty e = f') as <-
    by (by apply (NoDup_fmap_eq f_id (FACULTY d))).
  assert (room e = r') as <-
    by (by apply (NoDup_fmap_eq r_id (ROOMS d))).
  rewrite Hds. split; [done|].
  unfold key in Hkey. injection Hkey as _ _ _ <-. done.
Qed.

Lemma returned_entries_eligible_witness :
  eligible_prop ex_c2 ex_f2 ex_r2 (0, 0) ∧ (0, 0) ∈ ALL_TIMESLOTS ex_data.
Proof.
  apply (returned_entries_eligible ex_Solve_feasible ex_data None None
           ex_schedule
           {| day := 0; slot := 0; course := ex_c2; faculty := ex_f2;
              room := ex_r2 |}).
  - exact ex_unique_ids.
  - vm_compute. reflexivity.
  - apply list_elem_of_here.
Defined.

(** ** Which problems have a schedule *)

(** The model with rewards is satisfiable exactly when the hard constraints
    are: a reward variable may always be false. *)
Lemma build_model_satisfiable d tc prev :
  (∃ v, satisfies v (build_model d tc prev) = true) ↔
  ∃ v, Forall (λ e, expr_holds v e = true) (hard_exprs d (schedule_of d) tc).
Proof.
  split.
  - intros [v Hv]. exists v. by apply satisfies_build_model in Hv as [? _].
  - intros [v Hv].
    exists (λ x, if decide (x < sched_vars d)%nat then v x else false).
    apply satisfies_build_model. split.
    + apply (hard_exprs_agree d tc v); [|done].
      intros k x Hk. rewrite decide_True; [done|].
      by apply (schedule_var_bound d k).
    + intros i x _. rewrite decide_False by lia. done.
Qed.

(** A solver that keeps its contract and completes its search returns a
    list exactly for the satisfiable models. *)
Lemma returns_list_iff (Solve : CpModel → Response) d tc prev :
  cp_sat_contract (build_model d tc prev) (Solve (build_model d tc prev)) →
  ran_to_completion (Solve (build_model d tc prev)) →
  (∃ l, generate_schedule Solve d tc prev = Returned (Some l)) ↔
  ∃ v, satisfies v (build_model d tc prev) = true.
Proof.
  intros Hct Hrun.
  destruct (generate_schedule_outcome Solve d tc prev) as (res & _ & _ & Hout).
  rewrite Hout. unfold cp_sat_contract in Hct.
  destruct Hrun as [Hst|Hst]; rewrite Hst in Hct |- *.
  - destruct Hct as [Hsat _]. split; [by eauto|]. intros _. by eexists.
  - split; [by intros [l ?]|]. intros [v Hv]. by rewrite Hct in Hv.
Qed.

(** X3.  A previous schedule only adds rewards: with a solver that keeps
    its contract and completes, [generate_schedule] returns a list with
    [previous_schedule] exactly when it returns one without. *)
Theorem previous_schedule_keeps_feasibility (Solve : CpModel → Response)
    (d : Data) (tc : option (list TempConstraint)) (prev : option (list Entry)) :
  cp_sat_contract (build_model d tc None) (Solve (build_model d tc None)) →
  ran_to_completion (Solve (build_model d tc None)) →
  cp_sat_contract (build_model d tc prev) (Solve (build_model d tc prev)) →
  ran_to_completion (Solve (build_model d tc prev)) →
  (∃ l, generate_schedule Solve d tc None = Returned (Some l)) ↔
  (∃ l, generate_schedule Solve d tc prev = Returned (Some l)).
Proof.
  intros Hct0 Hrun0 Hct1 Hrun1.
  rewrite (returns_list_iff Solve d tc None Hct0 Hrun0).
  rewrite (returns_list_iff Solve d tc prev Hct1 Hrun1).
  by rewrite !build_model_satisfiable.
Qed.

Lemma ex_contract_optimal_plain :
  cp_sat_contract (build_model ex_data None None)
    (ex_Solve_optimal (build_model ex_data None None)).
Proof.
  cbv [cp_sat_contract ex_Solve_optimal status Value]. split.
  - vm_compute. reflexivity.
  - intros v' _. unfold objective_value.
    assert (objective (build_model ex_data None None) = None) as ->
      by (vm_compute; reflexivity).
    done.
Qed.

Lemma previous_schedule_keeps_feasibility_witness :
  (∃ l, generate_schedule ex_Solve_optimal ex_data None None = Returned (Some l)) ↔
  (∃ l, generate_schedule ex_Solve_optimal ex_data None (Some ex_schedule)
        = Returned (Some l)).
Proof.
  apply (previous_schedule_keeps_feasibility ex_Solve_optimal ex_data None
           (Some ex_schedule)).
  - exact ex_contract_optimal_plain.
  - left. reflexivity.
  - exact ex_contract_optimal.
  - left. reflexivity.
Defined.

(** X4.  Temporary constraints only forbid: when a list is returned with
    them, a list is returned without them (by a solver that keeps its
    contract and completes). *)
Theorem locks_only_restrict (Solve : CpModel → Response) (d : Data)
    (tc : option (list TempConstraint)) (prev : option (list Entry))
    (l : list Entry) :
  cp_sat_contract (build_model d tc prev) (Solve (build_model d tc prev)) →
  cp_sat_contract (build_model d None prev) (Solve (build_model d None prev)) →
  ran_to_completion (Solve (build_model d None prev)) →
  generate_schedule Solve d tc prev = Returned (Some l) →
  ∃ l', generate_schedule Solve d None prev = Returned (Some l').
Proof.
  intros Hct Hct0 Hrun0 Hret.
  apply (returns_list_iff Solve d None prev Hct0 Hrun0).
  apply build_model_satisfiable.
  exists (Value (Solve (build_model d tc prev))).
  pose proof (returned_hard_exprs Solve d tc prev l Hct Hret) as Hhard.
  unfold hard_exprs in *. rewrite !Forall_app in Hhard. rewrite !Forall_app.
  destruct Hhard as (H1 & H2 & H3 & H4 & _). by repeat split.
Qed.

Lemma locks_only_restrict_witness :
  ∃ l', generate_schedule ex_Solve_optimal ex_data None None = Returned (Some l').
Proof.
  apply (locks_only_restrict ex_Solve_optimal ex_data (Some [ex_lock]) None
           ex_schedule).
  - cbv [cp_sat_contract ex_Solve_optimal status Value]. split.
    + vm_compute. reflexivity.
    + intros v' _. unfold objective_value.
      assert (objective (build_model ex_data (Some [ex_lock]) None) = None) as ->
        by (vm_compute; reflexivity).
      done.
  - exact ex_contract_optimal_plain.
  - left. reflexivity.
  - vm_compute. reflexivity.
Defined.

(** ** An election row that occurs twice *)

Lemma sum_count_le (g : Z → nat) (es : list Election) sid k :
  (length (filter (λ e, student_id e = sid ∧ course_id e = k) es) * g k
   ≤ sum_list_with g (course_id <$> filter (λ e, student_id e = sid) es))%nat.
Proof.
  induction es as [|e es IH]; [done|]. rewrite !filter_cons.
  destruct (decide (student_id e = sid)) as [Hs|Hs].
  - rewrite fmap_cons. simpl.
    destruct (decide (student_id e = sid ∧ course_id e = k)) as [[_ <-]|Hn];
      simpl; lia.
  - rewrite decide_False by (by intros [? _]). done.
Qed.

(** X5.  If [STUDENT_ELECTIONS] holds the same row twice, for a course of
    [COURSES], the model has no solution: the course is counted twice in
    the student's sum at the timeslot where it is taught.  A solver that
    keeps its contract then makes [generate_schedule] return [None]. *)
Theorem repeated_election_unsolvable (Solve : CpModel → Response) (d : Data)
    (tc : option (list TempConstraint)) (prev : option (list Entry))
    (c : Course) (sid : Z) :
  c ∈ COURSES d →
  (2 ≤ length (filter (λ e, student_id e = sid ∧ course_id e = c_id c)
                      (STUDENT_ELECTIONS d)))%nat →
  (∀ v, satisfies v (build_model d tc prev) = false) ∧
  (cp_sat_contract (build_model d tc prev) (Solve (build_model d tc prev)) →
   generate_schedule Solve d tc prev = Returned None).
Proof.
  intros Hc Htwice.
  assert (∀ v, satisfies v (build_model d tc prev) = false) as Hunsat.
  { intros v. apply not_true_is_false.
    intros [Hhard _]%satisfies_build_model.
    pose proof (hard_course d tc v Hhard c Hc) as H1.
    rewrite course_vars_sum in H1.
    destruct (sum_pos_exists _ (FACULTY d) ltac:(rewrite H1; lia))
      as (f & Hf & Hpf).
    destruct (sum_pos_exists _ (ROOMS d) Hpf) as (r & Hr & Hpr).
    destruct (sum_pos_exists _ (ALL_TIMESLOTS d) Hpr) as (t & Ht & Hpt).
    assert ((sid, courses_of d sid) ∈ student_enrollments d) as Hse.
    { apply student_enrollments_elem_of. split; [done|].
      intros Hnil. unfold courses_of in Hnil.
      pose proof (sum_count_le (λ _, 1%nat) (STUDENT_ELECTIONS d) sid (c_id c))
        as Hle.
      rewrite Hnil in Hle. simpl in Hle. lia. }
    pose proof (hard_student d tc v Hhard _ t Hse Ht) as H2.
    rewrite student_vars_sum in H2. simpl in H2.
    pose proof (sum_count_le
                  (λ cid, sum_list_with (λ f, sum_list_with (λ r,
                     weight d v (cid, f_id f, r_id r, t)) (ROOMS d)) (FACULTY d))
                  (STUDENT_ELECTIONS d) sid (c_id c)) as Hle.
    fold (courses_of d sid) in Hle.
    pose proof (sum_list_with_in f
                  (λ f, sum_list_with (λ r,
                     weight d v (c_id c, f_id f, r_id r, t)) (ROOMS d))
                  (FACULTY d) Hf) as Hf1.
    pose proof (sum_list_with_in r
                  (λ r, weight d v (c_id c, f_id f, r_id r, t)) (ROOMS d) Hr)
      as Hr1.
    simpl in Hf1, Hr1. nia. }
  split; [done|]. intros Hct.
  unfold generate_schedule. unfold cp_sat_contract in Hct.
  destruct (status (Solve (build_model d tc prev))); try done.
  - by rewrite Hunsat in Hct.
  - destruct Hct as [Hs _]. by rewrite Hunsat in Hs.
Qed.

Lemma repeated_election_unsolvable_witness :
  generate_schedule ex_Solve_infeasible ex_data_twice None None = Returned None.
Proof.
  destruct (repeated_election_unsolvable ex_Solve_infeasible ex_data_twice
              None None ex_c1 7) as [Hunsat Hret].
  - apply list_elem_of_here.
  - vm_compute. lia.
  - apply Hret. exact Hunsat.
Defined.

(** *** A student listed twice for one course *)

Lemma repeated_election_unsat d tc prev c sid v :
  c ∈ COURSES d →
  (2 ≤ length (filter (λ e, student_id e = sid ∧ course_id e = c_id c)
                      (STUDENT_ELECTIONS d)))%nat →
  satisfies v (build_model d tc prev) = false.
Proof.
  intros Hc Htwice. apply not_true_is_false.
  intros [Hhard _]%satisfies_build_model.
  pose proof (hard_course d tc v Hhard c Hc) as H1.
  rewrite course_vars_sum in H1.
  destruct (sum_pos_exists _ (FACULTY d) ltac:(rewrite H1; lia))
    as (f & Hf & Hpf).
  destruct (sum_pos_exists _ (ROOMS d) Hpf) as (r & Hr & Hpr).
  destruct (sum_pos_exists _ (ALL_TIMESLOTS d) Hpr) as (t & Ht & Hpt).
  assert ((sid, courses_of d sid) ∈ student_enrollments d) as Hse.
  { apply student_enrollments_elem_of. split; [done|].
    intros Hnil. unfold courses_of in Hnil.
    pose proof (sum_count_le (λ _, 1%nat) (STUDENT_ELECTIONS d) sid (c_id c))
      as Hle.
    rewrite Hnil in Hle. simpl in Hle. lia. }
  pose proof (hard_student d tc v Hhard _ t Hse Ht) as H2.
  rewrite student_vars_sum in H2. simpl in H2.
  pose proof (sum_count_le
                (λ cid, sum_list_with (λ f, sum_list_with (λ r,
                   weight d v (cid, f_id f, r_id r, t)) (ROOMS d)) (FACULTY d))
                (STUDENT_ELECTIONS d) sid (c_id c)) as Hle.
  fold (courses_of d sid) in Hle.
  pose proof (sum_list_with_in f
                (λ f, sum_list_with (λ r,
                   weight d v (c_id c, f_id f, r_id r, t)) (ROOMS d))
                (FACULTY d) Hf) as Hf1.
  pose proof (sum_list_with_in r
                (λ r, weight d v (c_id c, f_id f, r_id r, t)) (ROOMS d) Hr)
    as Hr1.
  simpl in Hf1, Hr1. nia.
Qed.

(** C3 as stated fails: student 9 takes one course only, and yet the
    constraint of that student at (0, 1) does not follow from course
    uniqueness (the valuation of the worked timetable violates it); with
    that student the model has no solution at all, without any student it
    has one. *)
Lemma student_exclusivity_counterexample :
  remove_dups (courses_of ex_data_one_course 9) = [1] ∧
  ¬ (∀ sid enrolled_courses v t,
       (sid, enrolled_courses) ∈ student_enrollments ex_data_one_course →
       (length (remove_dups (courses_of ex_data_one_course sid)) ≤ 1)%nat →
       Forall (λ e, expr_holds v e = true)
              (course_uniqueness ex_data_one_course
                 (schedule_of ex_data_one_course)) →
       t ∈ ALL_TIMESLOTS ex_data_one_course →
       expr_holds v
         (SumLe (student_vars ex_data_one_course
                   (schedule_of ex_data_one_course) enrolled_courses t) 1)
       = true) ∧
  (∀ v, satisfies v (build_model ex_data_one_course None None) = false) ∧
  satisfies ex_valuation (build_model ex_data_no_student None None) = true.
Proof.
  split; [vm_compute; reflexivity|]. split; [|split].
  - intros H.
    assert (expr_holds ex_valuation
              (SumLe (student_vars ex_data_one_course
                        (schedule_of ex_data_one_course) [1; 1] (0, 1)) 1)
            = true) as Hbad.
    { apply (H 9 [1; 1] ex_valuation (0, 1)).
      - apply student_enrollments_elem_of.
        split; [vm_compute; reflexivity|discriminate].
      - vm_compute. lia.
      - apply Forall_forallb. vm_compute. reflexivity.
      - apply list_elem_of_further, list_elem_of_here. }
    vm_compute in Hbad. discriminate.
  - intros v. apply (repeated_election_unsat ex_data_one_course None None ex_c1 9).
    + apply list_elem_of_here.
    + vm_compute. lia.
  - vm_compute. reflexivity.
Qed.

(** ** How many previous assignments are kept *)

Lemma lin_sum_seq_eq (g : Valuation) (f : BoolVar → bool) ts n :
  (∀ i x, ts !! i = Some x → g (n + i)%nat = f x) →
  lin_sum g (seq n (length ts)) = lin_sum f ts.
Proof.
  revert n. induction ts as [|x ts IH]; intros n H; [done|].
  unfold lin_sum in *. simpl.
  rewrite <- (Nat.add_0_r n) at 1. rewrite (H 0%nat x) by done.
  f_equal. apply IH. intros i y Hi.
  replace (S n + i)%nat with (n + S i)%nat by lia. by apply H.
Qed.

Lemma lin_sum_seq_le (g f : Valuation) ts n :
  (∀ i x, ts !! i = Some x → g (n + i)%nat = true → f x = true) →
  (lin_sum g (seq n (length ts)) ≤ lin_sum f ts)%nat.
Proof.
  revert n. induction ts as [|x ts IH]; intros n H; [done|].
  unfold lin_sum in *. simpl.
  assert (Nat.b2n (g n) ≤ Nat.b2n (f x))%nat.
  { pose proof (H 0%nat x eq_refl) as H0. rewrite Nat.add_0_r in H0.
    destruct (g n); [by rewrite H0|]. simpl. lia. }
  assert (sum_list_with (λ x, Nat.b2n (g x)) (seq (S n) (length ts))
          ≤ sum_list_with (λ x, Nat.b2n (f x)) ts)%nat.
  { apply IH. intros i y Hi.
    replace (S n + i)%nat with (n + S i)%nat by lia. by apply H. }
  lia.
Qed.

Lemma prev_targets_bound d prev x :
  x ∈ prev_targets d prev → (x < sched_vars d)%nat.
Proof.
  destruct prev as [P|]; [|by intros ?%elem_of_nil].
  intros [_ (c & _ & Hx)]%prev_targets_elem_of.
  unfold reward_target in Hx.
  destruct (old_schedule_map P !! c_id c) as [[[f r] t]|];
    [|by apply elem_of_nil in Hx].
  destruct (schedule_of d !! (c_id c, f, r, t)) as [y|] eqn:Hy;
    [|by apply elem_of_nil in Hx].
  apply list_elem_of_singleton in Hx as ->.
  by apply (schedule_var_bound d _ _ Hy).
Qed.

(** In an answer reported as optimal, at least as many rewarded variables
    are true as in any valuation that satisfies the hard constraints. *)
Lemma optimal_rewards_maximal (Solve : CpModel → Response) (d : Data)
    (tc : option (list TempConstraint)) (prev : option (list Entry))
    (v' : Valuation) :
  cp_sat_contract (build_model d tc prev) (Solve (build_model d tc prev)) →
  status (Solve (build_model d tc prev)) = OPTIMAL →
  Forall (λ e, expr_holds v' e = true) (hard_exprs d (schedule_of d) tc) →
  (lin_sum v' (prev_targets d prev)
   ≤ lin_sum (Value (Solve (build_model d tc prev))) (prev_targets d prev))%nat.
Proof.
  intros Hct Hst Hhard. unfold cp_sat_contract in Hct. rewrite Hst in Hct.
  destruct Hct as [Hsat Hopt].
  set (v := Value (Solve (build_model d tc prev))) in *.
  set (ts := prev_targets d prev).
  destruct (decide (ts = [])) as [->|Hts]; [done|].
  assert (objective (build_model d tc prev)
          = Some (seq (sched_vars d) (length ts))) as Hobj.
  { destruct (build_model_spec d tc prev) as [_ Hobj]. rewrite Hobj.
    unfold ts, prev_targets in *. by destruct prev as [[|]|]. }
  set (v2 := λ x, if decide (x < sched_vars d)%nat then v' x
                  else default false (v' <$> ts !! (x - sched_vars d)%nat)).
  assert (satisfies v2 (build_model d tc prev) = true) as Hsat2.
  { apply satisfies_build_model. split.
    - apply (hard_exprs_agree d tc v'); [|done].
      intros k x Hk. unfold v2. rewrite decide_True; [done|].
      by apply (schedule_var_bound d k).
    - intros i x Hi. unfold v2. rewrite decide_False by lia.
      replace (sched_vars d + i - sched_vars d)%nat with i by lia.
      fold ts in Hi. rewrite Hi. simpl. intros Hx.
      rewrite decide_True; [done|].
      apply prev_targets_bound with prev, list_elem_of_lookup. by exists i. }
  specialize (Hopt v2 Hsat2). unfold objective_value in Hopt.
  rewrite Hobj in Hopt.
  rewrite (lin_sum_seq_eq v2 v' ts (sched_vars d)) in Hopt.
  2:{ intros i x Hi. unfold v2. rewrite decide_False by lia.
      replace (sched_vars d + i - sched_vars d)%nat with i by lia.
      by rewrite Hi. }
  etrans; [exact Hopt|]. apply lin_sum_seq_le.
  apply satisfies_build_model in Hsat as [_ Hrew]. exact Hrew.
Qed.

Lemma val_at_Some (s : gmap Key BoolVar) v k x :
  s !! k = Some x → val_at s v k = v x.
Proof. intros H. unfold val_at. by rewrite H. Qed.

Lemma val_at_None (s : gmap Key BoolVar) v k :
  s !! k = None → val_at s v k = false.
Proof. intros H. unfold val_at. by rewrite H. Qed.

(** The courses that a decoded schedule keeps are counted by the rewarded
    variables. *)
Lemma kept_lin_sum d items v res :
  results_of d (schedule_of d) v = Some res →
  kept d items (sort_results res) = lin_sum v (prev_targets d (Some items)).
Proof.
  intros Hres. unfold kept. rewrite length_filter_sum.
  assert (prev_targets d (Some items)
          = reward_targets (schedule_of d) (old_schedule_map items) (COURSES d))
    as ->.
  { unfold prev_targets. destruct items; [|done].
    unfold reward_targets, reward_target, old_schedule_map. simpl.
    induction (COURSES d) as [|c cs IH]; [done|].
    rewrite bind_cons, lookup_empty. simpl. exact IH. }
  unfold reward_targets. rewrite lin_sum_bind.
  apply sum_list_with_ext_in. intros c _.
  unfold keeps, reward_target.
  destruct (old_schedule_map items !! c_id c) as [[[f r] t]|]; [|done].
  pose proof (decoded_key_iff d v res (c_id c, f, r, t) Hres) as Hiff.
  destruct (schedule_of d !! (c_id c, f, r, t)) as [x|] eqn:Hx; simpl.
  - rewrite (val_at_Some (schedule_of d) v (c_id c, f, r, t) x Hx) in Hiff.
    unfold lin_sum. simpl. destruct (v x) eqn:Hvx.
    + rewrite decide_True; [done|]. apply bool_decide_eq_true.
      exact (proj2 Hiff eq_refl).
    + rewrite decide_False; [done|]. intros Hb.
      apply bool_decide_eq_true in Hb. pose proof (proj1 Hiff Hb). done.
  - rewrite (val_at_None (schedule_of d) v (c_id c, f, r, t) Hx) in Hiff.
    rewrite decide_False; [done|]. intros Hb.
    apply bool_decide_eq_true in Hb. pose proof (proj1 Hiff Hb). done.
Qed.

(** X6.  What the soft constraint maximizes: a schedule returned for an
    answer reported as optimal leaves at least as many courses at the
    assignment [previous_schedule] gives them as any other schedule of the
    data does (the sorted decoding of any valuation that satisfies the hard
    constraints). *)
Theorem kept_assignments_maximal (Solve : CpModel → Response) (d : Data)
    (tc : option (list TempConstraint)) (items l : list Entry)
    (v' : Valuation) (res' : list Entry) :
  cp_sat_contract (build_model d tc (Some items))
                  (Solve (build_model d tc (Some items))) →
  status (Solve (build_model d tc (Some items))) = OPTIMAL →
  generate_schedule Solve d tc (Some items) = Returned (Some l) →
  Forall (λ e, expr_holds v' e = true) (hard_exprs d (schedule_of d) tc) →
  results_of d (schedule_of d) v' = Some res' →
  (kept d items (sort_results res') ≤ kept d items l)%nat.
Proof.
  intros Hct Hst Hret Hhard Hres'.
  destruct (generate_schedule_outcome Solve d tc (Some items))
    as (res & Hres & _ & Hout).
  rewrite Hout, Hst in Hret. injection Hret as <-.
  rewrite (kept_lin_sum d items _ _ Hres'), (kept_lin_sum d items _ _ Hres).
  by apply optimal_rewards_maximal.
Qed.

Lemma kept_assignments_maximal_witness :
  (kept ex_data ex_schedule (sort_results ex_schedule)
   ≤ kept ex_data ex_schedule ex_schedule)%nat.
Proof.
  apply (kept_assignments_maximal ex_Solve_optimal ex_data None ex_schedule
           ex_schedule ex_valuation ex_schedule).
  - exact ex_contract_optimal.
  - reflexivity.
  - vm_compute. reflexivity.
  - apply Forall_forallb. vm_compute. reflexivity.
  - vm_compute. reflexivity.
Defined.

(** * The store: the inputs are left as they were *)

Section frame.
Import Store.

(** The store at the call. *)
Variable h0 : gmap loc Cell.

Lemma framed_ret {A} (a : A) : framed h0 (mret a).
Proof. by intros h Hh. Qed.

Lemma framed_raise {A} : framed h0 (@raise A).
Proof. by intros h Hh. Qed.

Lemma framed_bind {A B} (m : M A) (f : A → M B) :
  framed h0 m → (∀ a, framed h0 (f a)) → framed h0 (m ≫= f).
Proof.
  intros Hm Hf h Hh. specialize (Hm h Hh).
  unfold mbind, M_bind, bind. destruct (m h) as [[a|] h']; simpl in *; [|done].
  by apply Hf.
Qed.

Lemma framed_read l : framed h0 (read l).
Proof. intros h Hh. unfold read. by destruct (h !! l). Qed.

(** A fresh object is none of those that existed at the call. *)
Lemma framed_alloc_bind {B} c (f : loc → M B) :
  (∀ l, h0 !! l = None → framed h0 (f l)) → framed h0 (alloc c ≫= f).
Proof.
  intros Hf h Hh. unfold mbind, M_bind, bind, alloc. simpl.
  assert (h !! fresh (dom h) = None) as Hfresh
    by (apply not_elem_of_dom, is_fresh).
  assert (h0 !! fresh (dom h) = None) as Hfresh0.
  { destruct (h0 !! fresh (dom h)) as [c0|] eqn:H0; [|done].
    by rewrite (lookup_weaken _ _ _ _ H0 Hh) in Hfresh. }
  apply Hf; [done|]. by apply insert_subseteq_r.
Qed.

Lemma framed_write l c : h0 !! l = None → framed h0 (write l c).
Proof.
  intros Hl h Hh. unfold write. destruct (h !! l); [|done]. simpl.
  by apply insert_subseteq_r.
Qed.

Lemma framed_for {X} (xs : list X) (body : X → M unit) :
  (∀ x, framed h0 (body x)) → framed h0 (for_ xs body).
Proof.
  intros Hb. induction xs as [|x xs IH]; simpl; [apply framed_ret|].
  apply framed_bind; [apply Hb|]. by intros _.
Qed.

Lemma framed_gen {X Y} (xs : list X) (body : X → M (list Y)) :
  (∀ x, framed h0 (body x)) → framed h0 (gen xs body).
Proof.
  intros Hb. induction xs as [|x xs IH]; simpl; [apply framed_ret|].
  apply framed_bind; [apply Hb|]. intros ys.
  apply framed_bind; [apply IH|]. intros zs. apply framed_ret.
Qed.

Lemma framed_try m : framed h0 m → framed h0 (try_ m).
Proof.
  intros Hm h Hh. specialize (Hm h Hh). unfold try_.
  by destruct (m h) as [[a|] h'].
Qed.

Lemma framed_id_map read_id xs acc :
  (∀ x, framed h0 (read_id x)) → framed h0 (id_map read_id xs acc).
Proof.
  intros Hr. revert acc. induction xs as [|x xs IH]; intros acc; simpl;
    [apply framed_ret|].
  apply framed_bind; [apply Hr|]. intros i. apply IH.
Qed.

Lemma framed_index m i : framed h0 (index m i).
Proof. unfold index. destruct (m !! i); [apply framed_ret|apply framed_raise]. Qed.

(** One step of a proof that a computation is [framed]. *)
Ltac framed_step :=
  match goal with
  | |- framed _ (mret _) => apply framed_ret
  | |- framed _ raise => apply framed_raise
  | |- framed _ (read _) => apply framed_read
  | |- framed _ (write _ _) => apply framed_write; assumption
  | |- framed _ (alloc _ ≫= _) => apply framed_alloc_bind; intros ? ?
  | |- framed _ (_ ≫= _) => apply framed_bind; [|intros ?]
  | |- framed _ (for_ _ _) => apply framed_for; intros ?
  | |- framed _ (gen _ _) => apply framed_gen; intros ?
  | |- framed _ (try_ _) => apply framed_try
  | |- framed _ (id_map _ _ _) => apply framed_id_map; intros ?
  | |- framed _ (index _ _) => apply framed_index
  | |- framed _ (match ?x with _ => _ end) => destruct x
  | |- framed _ (if ?x then _ else _) => destruct x
  | |- framed _ (let '(_, _) := ?x in _) => destruct x
  end.

Ltac framed_auto :=
  repeat first
    [ framed_step
    | progress unfold read_course, read_faculty, read_room, read_election,
        read_constraint, read_entry, read_list, read_timeslots, read_data,
        read_model, read_schedule, read_enrollments, read_old, read_vars,
        new_bool_var, add, add_only_enforce_if, maximize, get_var ].

Lemma framed_define_variables cl fl rl tl model schedule :
  h0 !! model = None → h0 !! schedule = None →
  framed h0 (define_variables cl fl rl tl model schedule).
Proof. intros Hm Hs. unfold define_variables. framed_auto. Qed.

Lemma framed_course_uniqueness cl fl rl tl model schedule :
  h0 !! model = None →
  framed h0 (course_uniqueness cl fl rl tl model schedule).
Proof. intros Hm. unfold course_uniqueness. framed_auto. Qed.

Lemma framed_faculty_conflict cl fl rl tl model schedule :
  h0 !! model = None →
  framed h0 (faculty_conflict cl fl rl tl model schedule).
Proof. intros Hm. unfold faculty_conflict. framed_auto. Qed.

Lemma framed_room_conflict cl fl rl tl model schedule :
  h0 !! model = None →
  framed h0 (room_conflict cl fl rl tl model schedule).
Proof. intros Hm. unfold room_conflict. framed_auto. Qed.

Lemma framed_student_conflict fl rl sl tl model schedule :
  h0 !! model = None →
  framed h0 (student_conflict fl rl sl tl model schedule).
Proof. intros Hm. unfold student_conflict. framed_auto. Qed.

Lemma framed_temporary cl rl model schedule tc :
  h0 !! model = None → framed h0 (temporary cl rl model schedule tc).
Proof. intros Hm. unfold temporary. framed_auto. Qed.

Lemma framed_minimize_changes cl model schedule prev :
  h0 !! model = None → framed h0 (minimize_changes cl model schedule prev).
Proof. intros Hm. unfold minimize_changes. framed_auto. Qed.

Lemma framed_decode cl fl rl tl schedule solver :
  framed h0 (decode cl fl rl tl schedule solver).
Proof. unfold decode. framed_auto. Qed.

Lemma framed_generate_schedule Solve data tc prev :
  framed h0 (generate_schedule Solve data tc prev).
Proof.
  unfold generate_schedule. framed_auto;
    auto using framed_define_variables, framed_course_uniqueness,
      framed_faculty_conflict, framed_room_conflict, framed_student_conflict,
      framed_temporary, framed_minimize_changes, framed_decode.
Qed.

(** ** What the returned entries refer to *)

Lemma readonly_ret {A} (a : A) : readonly (mret a).
Proof. by intros h. Qed.

Lemma readonly_raise {A} : readonly (@raise A).
Proof. by intros h. Qed.

Lemma readonly_read l : readonly (read l).
Proof. intros h. unfold read. by destruct (h !! l). Qed.

Lemma readonly_bind {A B} (m : M A) (f : A → M B) :
  readonly m → (∀ a, readonly (f a)) → readonly (m ≫= f).
Proof.
  intros Hm Hf h. specialize (Hm h).
  unfold mbind, M_bind, bind. destruct (m h) as [[a|] h']; simpl in *; [|done].
  subst h'. apply Hf.
Qed.

Lemma readonly_gen {X Y} (xs : list X) (body : X → M (list Y)) :
  (∀ x, readonly (body x)) → readonly (gen xs body).
Proof.
  intros Hb. induction xs as [|x xs IH]; simpl; [apply readonly_ret|].
  apply readonly_bind; [apply Hb|]. intros ys.
  apply readonly_bind; [apply IH|]. intros zs. apply readonly_ret.
Qed.

Lemma readonly_id_map read_id xs acc :
  (∀ x, readonly (read_id x)) → readonly (id_map read_id xs acc).
Proof.
  intros Hr. revert acc. induction xs as [|x xs IH]; intros acc; simpl;
    [apply readonly_ret|].
  apply readonly_bind; [apply Hr|]. intros i. apply IH.
Qed.

Lemma readonly_index m i : readonly (index m i).
Proof.
  unfold index. destruct (m !! i); [apply readonly_ret|apply readonly_raise].
Qed.

Ltac readonly_step :=
  match goal with
  | |- readonly (mret _) => apply readonly_ret
  | |- readonly raise => apply readonly_raise
  | |- readonly (read _) => apply readonly_read
  | |- readonly (_ ≫= _) => apply readonly_bind; [|intros ?]
  | |- readonly (gen _ _) => apply readonly_gen; intros ?
  | |- readonly (id_map _ _ _) => apply readonly_id_map; intros ?
  | |- readonly (index _ _) => apply readonly_index
  | |- readonly (match ?x with _ => _ end) => destruct x
  | |- readonly (let '(_, _) := ?x in _) => destruct x
  end.

Ltac readonly_auto :=
  repeat first
    [ readonly_step
    | progress unfold read_course, read_faculty, read_room, read_entry,
        read_list, read_timeslots, read_schedule, read_model, get_var ].

Lemma hoare_ret {A} (P : gmap loc Cell → Prop) (a : A) Q :
  (∀ h, P h → Q a h) → hoare h0 P (mret a) Q.
Proof.
  intros HQ h a' h' Hh HP Heq. cbv [mret M_ret ret] in Heq.
  inversion Heq; subst. auto.
Qed.

Lemma hoare_bind {A B} P (m : M A) (f : A → M B) Q1 Q :
  hoare h0 P m Q1 → (∀ a, hoare h0 (Q1 a) (f a) Q) → hoare h0 P (m ≫= f) Q.
Proof.
  intros Hm Hf h b h'' Hh HP. unfold mbind, M_bind, bind.
  destruct (m h) as [[a|] h'] eqn:Hmh; [|done]. intros Hfa.
  destruct (Hm h a h' Hh HP Hmh) as [Hh' HQ1].
  by apply (Hf a h' b h'').
Qed.

Lemma hoare_conseq {A} (P P' : gmap loc Cell → Prop) (m : M A) Q Q' :
  (∀ h, P h → P' h) → hoare h0 P' m Q' → (∀ a h, Q' a h → Q a h) → hoare h0 P m Q.
Proof.
  intros HP Hm HQ h a h' Hh HPh Hmh.
  destruct (Hm h a h' Hh (HP h HPh) Hmh). auto.
Qed.

Lemma hoare_readonly {A} P (m : M A) :
  readonly m → hoare h0 P m (λ _ h, P h).
Proof.
  intros Hro h a h' Hh HP Hmh. specialize (Hro h). rewrite Hmh in Hro.
  simpl in Hro. by subst h'.
Qed.

Lemma hoare_for {X} I (xs : list X) (body : X → M unit) :
  (∀ x, hoare h0 I (body x) (λ _, I)) → hoare h0 I (for_ xs body) (λ _, I).
Proof.
  intros Hb. induction xs as [|x xs IH]; simpl.
  - by apply hoare_ret.
  - eapply hoare_bind; [apply Hb|]. intros []. apply IH.
Qed.

Lemma bind_Ok {A B} (m : M A) (f : A → M B) h b h'' :
  (m ≫= f) h = (Ok b, h'') → ∃ a h', m h = (Ok a, h') ∧ f a h' = (Ok b, h'').
Proof.
  unfold mbind, M_bind, bind. destruct (m h) as [[a|] h'] eqn:Hm; [|done].
  intros Hf. by exists a, h'.
Qed.

Lemma read_Ok l h c h' : read l h = (Ok c, h') → h !! l = Some c ∧ h' = h.
Proof. unfold read. destruct (h !! l); intros [= ? ?]; by subst. Qed.

Lemma read_list_Ok l h xs h' :
  read_list l h = (Ok xs, h') → h !! l = Some (CList xs) ∧ h' = h.
Proof.
  unfold read_list. intros (c & h1 & [Hc ->]%read_Ok & Hr)%bind_Ok.
  destruct c; try done. cbv [mret M_ret ret] in Hr. by simplify_eq.
Qed.

Lemma read_entry_Ok l h d s cl fl rl h' :
  read_entry l h = (Ok (d, s, cl, fl, rl), h') →
  h !! l = Some (CEntry d s cl fl rl) ∧ h' = h.
Proof.
  unfold read_entry. intros (c & h1 & [Hc ->]%read_Ok & Hr)%bind_Ok.
  destruct c; try done. cbv [mret M_ret ret] in Hr. by simplify_eq.
Qed.

Lemma id_map_values read_id xs acc h cm h' :
  id_map read_id xs acc h = (Ok cm, h') →
  ∀ i l, cm !! i = Some l → acc !! i = Some l ∨ l ∈ xs.
Proof.
  revert acc h. induction xs as [|x xs IH]; intros acc h; simpl.
  - cbv [mret M_ret ret]. intros [= <- <-]. auto.
  - intros (i0 & h1 & _ & Hrest)%bind_Ok i l Hl.
    destruct (IH _ _ Hrest i l Hl) as [Hacc|Hin].
    + apply lookup_insert_Some in Hacc as [[_ <-]|[_ Hacc]]; [|by left].
      right. by left.
    + right. by right.
Qed.

Lemma hoare_id_map_list P L xs read_id :
  h0 !! L = Some (CList xs) → (∀ x, readonly (read_id x)) →
  hoare h0 P (ys ← read_list L; id_map read_id ys ∅)
        (λ cm h, P h ∧ ∀ i l, cm !! i = Some l → l ∈ xs).
Proof.
  intros HL Hro h cm h' Hh HP Hrun.
  assert (readonly (ys ← read_list L; id_map read_id ys ∅)) as Hro'.
  { apply readonly_bind; [readonly_auto|]. intros ys.
    by apply readonly_id_map. }
  pose proof (Hro' h) as Heq. rewrite Hrun in Heq. simpl in Heq. subst h'.
  split; [done|]. split; [done|].
  apply bind_Ok in Hrun as (ys & h1 & [Hys ->]%read_list_Ok & Hmap).
  rewrite (lookup_weaken _ _ _ _ HL Hh) in Hys. simplify_eq.
  intros i l Hl.
  destruct (id_map_values _ _ _ _ _ _ Hmap i l Hl) as [Hacc|?]; [|done].
  by rewrite lookup_empty in Hacc.
Qed.

Lemma hoare_index (P : gmap loc Cell → Prop) m i :
  hoare h0 P (index m i) (λ l h, P h ∧ m !! i = Some l).
Proof.
  intros h l h' Hh HP. unfold index. destruct (m !! i) as [l'|]; [|done].
  cbv [mret M_ret ret]. intros [= <- <-]. auto.
Qed.

Lemma hoare_pure {A} (φ : Prop) P (m : M A) Q :
  (φ → hoare h0 P m Q) → hoare h0 (λ h, P h ∧ φ) m Q.
Proof. intros Hm h a h' Hh [HP Hφ]. by apply Hm. Qed.

Section decode.
Variables (cs fs rs : list loc).

Lemma good_entry_insert h e l c :
  good_entry cs fs rs h e → e ≠ l → good_entry cs fs rs (<[l := c]> h) e.
Proof.
  intros (d & s & cl & fl & rl & He & ?) Hne.
  exists d, s, cl, fl, rl. by rewrite lookup_insert_ne.
Qed.

Lemma hoare_alloc_results :
  hoare h0 (λ _, True) (alloc (CList [])) (results_ok h0 cs fs rs).
Proof.
  intros h l h' Hh _. unfold alloc. simpl. intros [= <- <-].
  assert (h !! fresh (dom h) = None) as Hfresh
    by (apply not_elem_of_dom, is_fresh).
  assert (h0 !! fresh (dom h) = None) as Hfresh0.
  { destruct (h0 !! fresh (dom h)) as [c0|] eqn:H0; [|done].
    by rewrite (lookup_weaken _ _ _ _ H0 Hh) in Hfresh. }
  split; [by apply insert_subseteq_r|]. split; [done|].
  exists []. by rewrite lookup_insert_eq.
Qed.

(** Lines 172-178: a new entry is appended. *)
Lemma hoare_append results d s cl fl rl :
  cl ∈ cs → fl ∈ fs → rl ∈ rs →
  hoare h0 (results_ok h0 cs fs rs results)
        (entry ← alloc (CEntry d s cl fl rl);
         es ← read_list results;
         write results (CList (es ++ [entry])))
        (λ _, results_ok h0 cs fs rs results).
Proof.
  intros Hcl Hfl Hrl h [] h' Hh (Hres0 & es & Hres & Hes) Hrun.
  apply bind_Ok in Hrun as (entry & h1 & Halloc & Hrun).
  unfold alloc in Halloc. simpl in Halloc. injection Halloc as <- <-.
  set (entry := fresh (dom h)) in *.
  assert (h !! entry = None) as Hfresh by (apply not_elem_of_dom, is_fresh).
  assert (h0 !! entry = None) as Hfresh0.
  { destruct (h0 !! entry) as [c0|] eqn:H0; [|done].
    by rewrite (lookup_weaken _ _ _ _ H0 Hh) in Hfresh. }
  assert (entry ≠ results) as Hne by congruence.
  apply bind_Ok in Hrun as (es' & h2 & [Hes' ->]%read_list_Ok & Hw).
  rewrite lookup_insert_ne, Hres in Hes' by done. simplify_eq.
  unfold write in Hw. rewrite lookup_insert_ne, Hres in Hw by done.
  injection Hw as <-.
  split; [apply insert_subseteq_r; [done|]; by apply insert_subseteq_r|].
  split; [done|].
  eexists. rewrite lookup_insert_eq. split; [done|].
  apply Forall_app. split.
  - eapply Forall_impl; [exact Hes|]. intros e He.
    assert (e ≠ results ∧ e ≠ entry) as [? ?].
    { destruct He as (? & ? & ? & ? & ? & He & _). split; congruence. }
    by do 2 (apply good_entry_insert; [|done]).
  - apply Forall_singleton. exists d, s, cl, fl, rl.
    rewrite lookup_insert_ne, lookup_insert_eq by done. done.
Qed.

Lemma gen_keys es h keyed h' :
  gen es (λ e, '(d, s, _, _, _) ← read_entry e; mret [(e, (d, s))]) h
  = (Ok keyed, h') →
  keyed.*1 = es ∧ h' = h.
Proof.
  revert h keyed h'. induction es as [|e es IH]; intros h keyed h'; simpl.
  - cbv [mret M_ret ret]. intros [= <- <-]. done.
  - intros (ys & h1 & Hy & Hrest)%bind_Ok.
    apply bind_Ok in Hy as ([[[[d s] cl] fl] rl] & h1' & [_ ->]%read_entry_Ok & Hy).
    cbv [mret M_ret ret] in Hy. injection Hy as <- <-.
    apply bind_Ok in Hrest as (zs & h2 & [Hzs ->]%IH & Hret).
    cbv [mret M_ret ret] in Hret. injection Hret as <- <-.
    split; [|done]. csimpl. by rewrite Hzs.
Qed.

(** [results.sort(...)] *)
Lemma hoare_sort results :
  hoare h0 (results_ok h0 cs fs rs results)
        (es ← read_list results;
         keyed ← gen es (λ e, '(d, s, _, _, _) ← read_entry e;
                              mret [(e, (d, s))]);
         write results (CList (sort_by_key snd keyed).*1);;
         mret results)
        (λ r h, r = results ∧ results_ok h0 cs fs rs results h).
Proof.
  intros h r h' Hh (Hres0 & es & Hres & Hes) Hrun.
  apply bind_Ok in Hrun as (es' & h1 & [Hes' ->]%read_list_Ok & Hrun).
  rewrite Hres in Hes'. simplify_eq.
  apply bind_Ok in Hrun as (keyed & h1 & [Hk ->]%gen_keys & Hrun).
  apply bind_Ok in Hrun as ([] & h2 & Hw & Hret).
  cbv [mret M_ret ret] in Hret. injection Hret as <- <-.
  unfold write in Hw. rewrite Hres in Hw. injection Hw as <-.
  split; [by apply insert_subseteq_r|]. split; [done|]. split; [done|].
  eexists. rewrite lookup_insert_eq. split; [done|].
  apply Forall_forall. intros e He.
  rewrite (sort_by_key_Permutation snd keyed), Hk in He.
  pose proof (proj1 (Forall_forall _ _) Hes e He) as Hgood.
  apply good_entry_insert; [done|].
  destruct Hgood as (? & ? & ? & ? & ? & Hgood & _). congruence.
Qed.

Variables (cl fl rl tl : loc).
Hypothesis Hcs : h0 !! cl = Some (CList cs).
Hypothesis Hfs : h0 !! fl = Some (CList fs).
Hypothesis Hrs : h0 !! rl = Some (CList rs).

Lemma hoare_decode schedule solver :
  hoare h0 (λ _, True) (decode cl fl rl tl schedule solver)
        (λ r h, results_ok h0 cs fs rs r h).
Proof.
  unfold decode.
  eapply hoare_bind;
    [apply (hoare_id_map_list (λ _, True) cl cs); [done|intros ?; readonly_auto]|].
  intros course_map. apply (hoare_pure _ (λ _, True)). intros Hcm.
  eapply hoare_bind;
    [apply (hoare_id_map_list (λ _, True) fl fs); [done|intros ?; readonly_auto]|].
  intros faculty_map. apply (hoare_pure _ (λ _, True)). intros Hfm.
  eapply hoare_bind;
    [apply (hoare_id_map_list (λ _, True) rl rs); [done|intros ?; readonly_auto]|].
  intros room_map. apply (hoare_pure _ (λ _, True)). intros Hrm.
  eapply hoare_bind; [apply hoare_alloc_results|]. intros results.
  apply (hoare_bind _ _ _ (λ _, results_ok h0 cs fs rs results)).
  2:{ intros []. eapply hoare_conseq; [|apply hoare_sort|].
      - intros h Hh. exact Hh.
      - intros r h [-> ?]. done. }
  eapply hoare_bind; [apply hoare_readonly; readonly_auto|].
  intros timeslots. apply hoare_for. intros timeslot.
  eapply hoare_bind; [apply hoare_readonly; readonly_auto|].
  intros courses. apply hoare_for. intros course.
  eapply hoare_bind; [apply hoare_readonly; readonly_auto|].
  intros facultys. apply hoare_for. intros faculty.
  eapply hoare_bind; [apply hoare_readonly; readonly_auto|].
  intros rooms. apply hoare_for. intros room.
  eapply hoare_bind; [apply hoare_readonly; readonly_auto|]. intros c.
  eapply hoare_bind; [apply hoare_readonly; readonly_auto|]. intros f.
  eapply hoare_bind; [apply hoare_readonly; readonly_auto|]. intros r.
  eapply hoare_bind; [apply hoare_readonly; readonly_auto|]. intros s.
  destruct (s !! key c f r timeslot) as [x|]; [|by apply hoare_ret].
  destruct (Value solver x); [|by apply hoare_ret].
  eapply hoare_bind; [apply hoare_index|]. intros cl'.
  apply hoare_pure. intros Hcl'.
  eapply hoare_bind; [apply hoare_index|]. intros fl'.
  apply hoare_pure. intros Hfl'.
  eapply hoare_bind; [apply hoare_index|]. intros rl'.
  apply hoare_pure. intros Hrl'.
  apply hoare_append; eauto.
Qed.

Lemma hoare_framed {A} (m : M A) :
  framed h0 m → hoare h0 (λ _, True) m (λ _ _, True).
Proof.
  intros Hm h a h' Hh _ Hrun. specialize (Hm h Hh). rewrite Hrun in Hm. done.
Qed.

Lemma hoare_alloc c :
  hoare h0 (λ _, True) (alloc c) (λ l _, True ∧ h0 !! l = None).
Proof.
  intros h l h' Hh _. unfold alloc. simpl. intros [= <- <-].
  assert (h !! fresh (dom h) = None) as Hfresh
    by (apply not_elem_of_dom, is_fresh).
  assert (h0 !! fresh (dom h) = None) as Hfresh0.
  { destruct (h0 !! fresh (dom h)) as [c0|] eqn:H0; [|done].
    by rewrite (lookup_weaken _ _ _ _ H0 Hh) in Hfresh. }
  split; [by apply insert_subseteq_r|done].
Qed.

Lemma hoare_read_data data c1 c2 c3 c4 c5 :
  h0 !! data = Some (CData c1 c2 c3 c4 c5) →
  hoare h0 (λ _, True) (read_data data) (λ a _, True ∧ a = (c1, c2, c3, c4, c5)).
Proof.
  intros Hd h a h' Hh _ Hrun. unfold read_data in Hrun.
  apply bind_Ok in Hrun as (c & h1 & [Hc ->]%read_Ok & Hr).
  rewrite (lookup_weaken _ _ _ _ Hd Hh) in Hc. simplify_eq.
  cbv [mret M_ret ret] in Hr. by simplify_eq.
Qed.

Variables (Solve : CpModel → Response) (data : loc)
          (temporary_constraints previous_schedule : option loc).
Variables (sl : loc).
Hypothesis Hdata : h0 !! data = Some (CData cl fl rl sl tl).

Lemma hoare_generate_schedule :
  hoare h0 (λ _, True)
        (generate_schedule Solve data temporary_constraints previous_schedule)
        (λ r h, match r with
                | Some results => results_ok h0 cs fs rs results h
                | None => True
                end).
Proof.
  unfold generate_schedule.
  eapply hoare_bind; [by apply hoare_read_data|]. intros d.
  apply hoare_pure. intros ->.
  eapply hoare_bind; [apply hoare_alloc|]. intros model.
  apply hoare_pure. intros Hmodel.
  eapply hoare_bind; [apply hoare_alloc|]. intros sched.
  apply hoare_pure. intros Hsched.
  eapply hoare_bind;
    [by apply hoare_framed, framed_define_variables|]. intros [].
  eapply hoare_bind;
    [by apply hoare_framed, framed_course_uniqueness|]. intros [].
  eapply hoare_bind;
    [by apply hoare_framed, framed_faculty_conflict|]. intros [].
  eapply hoare_bind;
    [by apply hoare_framed, framed_room_conflict|]. intros [].
  eapply hoare_bind;
    [by apply hoare_framed, framed_student_conflict|]. intros [].
  eapply hoare_bind;
    [by apply hoare_framed, framed_temporary|]. intros [].
  eapply hoare_bind;
    [by apply hoare_framed, framed_minimize_changes|]. intros [].
  eapply hoare_bind; [apply hoare_readonly; readonly_auto|]. intros m.
  simpl. destruct (status (Solve m)); try by apply hoare_ret.
  - eapply hoare_bind; [apply hoare_decode|].
    intros results. by apply hoare_ret.
  - eapply hoare_bind; [apply hoare_decode|].
    intros results. by apply hoare_ret.
Qed.

End decode.

End frame.

(** C10.  Whatever the store, a call of [generate_schedule] leaves every
    object that existed at the call as it was: the data dict, its lists and
    their records, the list of temporary constraints and the previous
    schedule included.  When a schedule is returned, it is a list made by
    the call, and the course, faculty and room of each of its entries are
    records of the lists [COURSES], [FACULTY] and [ROOMS] of the data. *)
Theorem generate_schedule_keeps_inputs (Solve : CpModel → Response)
    (h0 : gmap Store.loc Store.Cell) (data : Store.loc)
    (temporary_constraints previous_schedule : option Store.loc) :
  h0 ⊆ (Store.generate_schedule Solve data temporary_constraints
          previous_schedule h0).2 ∧
  ∀ cl fl rl sl tl cs fs rs results,
    h0 !! data = Some (Store.CData cl fl rl sl tl) →
    h0 !! cl = Some (Store.CList cs) →
    h0 !! fl = Some (Store.CList fs) →
    h0 !! rl = Some (Store.CList rs) →
    (Store.generate_schedule Solve data temporary_constraints
       previous_schedule h0).1 = Store.Ok (Some results) →
    results_ok h0 cs fs rs results
      (Store.generate_schedule Solve data temporary_constraints
         previous_schedule h0).2.
Proof.
  split.
  - by apply framed_generate_schedule.
  - intros cl fl rl sl tl cs fs rs results Hdata Hcs Hfs Hrs Hrun.
    destruct (Store.generate_schedule Solve data temporary_constraints
                previous_schedule h0) as [r h1] eqn:Hgen.
    simpl in *. subst r.
    by destruct (hoare_generate_schedule h0 cs fs rs cl fl rl tl Hcs Hfs Hrs
                   Solve data temporary_constraints previous_schedule sl Hdata
                   h0 (Some results) h1).
Qed.

Lemma generate_schedule_keeps_inputs_witness :
  (Store.generate_schedule ex_Solve_feasible 0%nat None None ex_heap).1
  = Store.Ok (Some 46%nat) ∧
  ex_heap ⊆ (Store.generate_schedule ex_Solve_feasible 0%nat None None ex_heap).2 ∧
  results_ok ex_heap [10; 11]%nat [20; 21]%nat [30; 31]%nat 46%nat
    (Store.generate_schedule ex_Solve_feasible 0%nat None None ex_heap).2.
Proof.
  assert ((Store.generate_schedule ex_Solve_feasible 0%nat None None ex_heap).1
          = Store.Ok (Some 46%nat)) as Hrun by (vm_compute; reflexivity).
  split; [exact Hrun|].
  destruct (generate_schedule_keeps_inputs ex_Solve_feasible ex_heap 0%nat
              None None) as [Hframe Hrec].
  split; [exact Hframe|].
  apply (Hrec 1%nat 2%nat 3%nat 4%nat 5%nat); try exact Hrun;
    vm_compute; reflexivity.
Defined.

(** * The store version computes what the value version computes *)

Section runs.

Lemma bind_run {A B} (m : Store.M A) (f : A → Store.M B) h a h' :
  m h = (Store.Ok a, h') → (m ≫= f) h = f a h'.
Proof. intros Hm. unfold mbind, Store.M_bind, Store.bind. by rewrite Hm. Qed.

Lemma ret_run {A} (a : A) h : (mret a : Store.M A) h = (Store.Ok a, h).
Proof. done. Qed.

Lemma read_run l h c : h !! l = Some c → Store.read l h = (Store.Ok c, h).
Proof. intros H. unfold Store.read. by rewrite H. Qed.

Lemma write_run l c h :
  is_Some (h !! l) → Store.write l c h = (Store.Ok tt, <[l := c]> h).
Proof. intros [c0 H]. unfold Store.write. by rewrite H. Qed.

Lemma read_list_run l h xs :
  h !! l = Some (Store.CList xs) → Store.read_list l h = (Store.Ok xs, h).
Proof. intros H. unfold Store.read_list. by rewrite (bind_run _ _ _ _ _ (read_run _ _ _ H)). Qed.

Lemma read_timeslots_run l h ts :
  h !! l = Some (Store.CTimeslots ts) → Store.read_timeslots l h = (Store.Ok ts, h).
Proof. intros H. unfold Store.read_timeslots. by rewrite (bind_run _ _ _ _ _ (read_run _ _ _ H)). Qed.

Lemma read_course_run l h c :
  h !! l = Some (Store.CCourse c) → Store.read_course l h = (Store.Ok c, h).
Proof. intros H. unfold Store.read_course. by rewrite (bind_run _ _ _ _ _ (read_run _ _ _ H)). Qed.

Lemma read_faculty_run l h c :
  h !! l = Some (Store.CFaculty c) → Store.read_faculty l h = (Store.Ok c, h).
Proof. intros H. unfold Store.read_faculty. by rewrite (bind_run _ _ _ _ _ (read_run _ _ _ H)). Qed.

Lemma read_room_run l h c :
  h !! l = Some (Store.CRoom c) → Store.read_room l h = (Store.Ok c, h).
Proof. intros H. unfold Store.read_room. by rewrite (bind_run _ _ _ _ _ (read_run _ _ _ H)). Qed.

Lemma read_election_run l h c :
  h !! l = Some (Store.CElection c) → Store.read_election l h = (Store.Ok c, h).
Proof. intros H. unfold Store.read_election. by rewrite (bind_run _ _ _ _ _ (read_run _ _ _ H)). Qed.

Lemma read_constraint_run l h c :
  h !! l = Some (Store.CConstraint c) → Store.read_constraint l h = (Store.Ok c, h).
Proof. intros H. unfold Store.read_constraint. by rewrite (bind_run _ _ _ _ _ (read_run _ _ _ H)). Qed.

Lemma read_entry_run l h d s c f r :
  h !! l = Some (Store.CEntry d s c f r) → Store.read_entry l h = (Store.Ok (d, s, c, f, r), h).
Proof. intros H. unfold Store.read_entry. by rewrite (bind_run _ _ _ _ _ (read_run _ _ _ H)). Qed.

Lemma read_data_run l h c1 c2 c3 c4 c5 :
  h !! l = Some (Store.CData c1 c2 c3 c4 c5) →
  Store.read_data l h = (Store.Ok (c1, c2, c3, c4, c5), h).
Proof. intros H. unfold Store.read_data. by rewrite (bind_run _ _ _ _ _ (read_run _ _ _ H)). Qed.

Lemma read_model_run l h m :
  h !! l = Some (Store.CModel m) → Store.read_model l h = (Store.Ok m, h).
Proof. intros H. unfold Store.read_model. by rewrite (bind_run _ _ _ _ _ (read_run _ _ _ H)). Qed.

Lemma read_schedule_run l h m :
  h !! l = Some (Store.CSchedule m) → Store.read_schedule l h = (Store.Ok m, h).
Proof. intros H. unfold Store.read_schedule. by rewrite (bind_run _ _ _ _ _ (read_run _ _ _ H)). Qed.

Lemma read_enrollments_run l h m :
  h !! l = Some (Store.CEnrollments m) → Store.read_enrollments l h = (Store.Ok m, h).
Proof. intros H. unfold Store.read_enrollments. by rewrite (bind_run _ _ _ _ _ (read_run _ _ _ H)). Qed.

Lemma read_old_run l h m :
  h !! l = Some (Store.COldMap m) → Store.read_old l h = (Store.Ok m, h).
Proof. intros H. unfold Store.read_old. by rewrite (bind_run _ _ _ _ _ (read_run _ _ _ H)). Qed.

Lemma read_vars_run l h m :
  h !! l = Some (Store.CVars m) → Store.read_vars l h = (Store.Ok m, h).
Proof. intros H. unfold Store.read_vars. by rewrite (bind_run _ _ _ _ _ (read_run _ _ _ H)). Qed.

(** A loop whose body acts on the store as [step] acts on a value. *)
Lemma for_run {X Y S} (R : X → Y → Prop) (I : S → gmap Store.loc Store.Cell → Prop)
    (step : S → Y → S) (body : X → Store.M unit) xs ys :
  Forall2 R xs ys →
  (∀ x y s h, R x y → I s h → ∃ h', body x h = (Store.Ok tt, h') ∧ I (step s y) h') →
  ∀ s h, I s h → ∃ h', Store.for_ xs body h = (Store.Ok tt, h') ∧ I (foldl step s ys) h'.
Proof.
  intros HF Hb. induction HF as [|x y xs ys HR HF IH]; intros s h HI; simpl.
  - by exists h.
  - destruct (Hb x y s h HR HI) as (h1 & Hrun & HI1).
    rewrite (bind_run _ _ _ _ _ Hrun). by apply IH.
Qed.

(** A generator whose body reads what [g] computes. *)
Lemma gen_run {X Y Z} (R : X → Y → Prop) (g : Y → list Z)
    (body : X → Store.M (list Z)) xs ys h :
  Forall2 R xs ys →
  (∀ x y, R x y → body x h = (Store.Ok (g y), h)) →
  Store.gen xs body h = (Store.Ok (ys ≫= g), h).
Proof.
  intros HF Hb. induction HF as [|x y xs ys HR HF IH]; simpl; [done|].
  rewrite (bind_run _ _ _ _ _ (Hb x y HR)).
  rewrite (bind_run _ _ _ _ _ IH). done.
Qed.

Lemma Forall2_eq_refl {A} (l : list A) : Forall2 eq l l.
Proof. induction l; by constructor. Qed.

Lemma foldl_bind {A B S} (f : S → B → S) (g : A → list B) (s : S) (l : list A) :
  foldl f s (l ≫= g) = foldl (λ s a, foldl f s (g a)) s l.
Proof.
  revert s. induction l as [|a l IH]; intros s; [done|].
  rewrite bind_cons, foldl_app. apply IH.
Qed.

Lemma id_map_run {A} (g : A → Z) (R : Store.loc → A → Prop)
    (read_id : Store.loc → Store.M Z) h xs ys :
  Forall2 R xs ys →
  (∀ x y, R x y → read_id x h = (Store.Ok (g y), h)) →
  ∀ acc pacc, (∀ i, option_Forall2 R (acc !! i) (pacc !! i)) →
  ∃ cm, Store.id_map read_id xs acc h = (Store.Ok cm, h) ∧
        ∀ i, option_Forall2 R (cm !! i) (by_id g pacc ys !! i).
Proof.
  intros HF Hb. induction HF as [|x y xs ys HR HF IH]; intros acc pacc Hrel; simpl.
  - by exists acc.
  - rewrite (bind_run _ _ _ _ _ (Hb x y HR)). apply IH. intros i.
    destruct (decide (g y = i)) as [<-|Hne].
    + rewrite !lookup_insert_eq. by constructor.
    + rewrite !lookup_insert_ne by done. apply Hrel.
Qed.

Lemma index_run {A} (R : Store.loc → A → Prop) (cm : gmap Z Store.loc)
    (pm : gmap Z A) i y h :
  (∀ i, option_Forall2 R (cm !! i) (pm !! i)) → pm !! i = Some y →
  ∃ l, Store.index cm i h = (Store.Ok l, h) ∧ R l y.
Proof.
  intros Hrel Hy. specialize (Hrel i). rewrite Hy in Hrel.
  inversion Hrel as [l y' HR Hl|]; subst. exists l. split; [|done].
  unfold Store.index. by rewrite <- Hl.
Qed.

Lemma Forall2_with_elem_of {A B} (R : A → B → Prop) xs ys :
  Forall2 R xs ys → Forall2 (λ x y, R x y ∧ y ∈ ys) xs ys.
Proof.
  intros HF.
  assert (∀ P : B → Prop, (∀ y, y ∈ ys → P y) →
                          Forall2 (λ x y, R x y ∧ P y) xs ys) as H.
  { induction HF as [|x y xs ys HR HF IH]; intros P HP; constructor.
    - split; [done|]. apply HP. by left.
    - apply IH. intros y' Hy'. apply HP. by right. }
  by apply H.
Qed.

Lemma results_of_foldl d s v res :
  results_of d s v = Some res →
  foldl (decode_step d s v) [] (decode_order d) = res.
Proof.
  unfold results_of. generalize (decode_order d). intros l.
  assert (∀ acc res,
            mapM (result_entry d) (filter (λ q, chosen s v q = true) l) = Some res →
            foldl (decode_step d s v) acc l = acc ++ res) as H.
  { induction l as [|q l IH]; intros acc res' H.
    - injection H as <-. by rewrite app_nil_r.
    - rewrite filter_cons in H. simpl. unfold decode_step at 2.
      destruct (decide (chosen s v q = true)) as [Hc|Hc].
      + rewrite Hc. cbn in H. destruct (result_entry d q) as [e|]; [|done].
        simpl in H. destruct (mapM _ _) as [k|] eqn:Hk; [|done].
        injection H as <-. rewrite (IH _ k eq_refl). by rewrite <- app_assoc.
      + destruct (chosen s v q); [done|]. by apply IH. }
  intros Hres. by rewrite (H [] res Hres).
Qed.

Lemma insert_sorted_Forall2 {A B} (R : A → B → Prop) (k1 : A → Z * Z)
    (k2 : B → Z * Z) x y xs ys :
  (∀ x y, R x y → k1 x = k2 y) →
  R x y → Forall2 R xs ys →
  Forall2 R (insert_sorted k1 x xs) (insert_sorted k2 y ys).
Proof.
  intros Hk HR HF. induction HF as [|x' y' xs ys HR' HF IH]; simpl.
  - by repeat constructor.
  - rewrite (Hk _ _ HR), (Hk _ _ HR').
    destruct (tuple_lt (k2 y') (k2 y)); by repeat constructor.
Qed.

Lemma sort_by_key_Forall2 {A B} (R : A → B → Prop) (k1 : A → Z * Z)
    (k2 : B → Z * Z) xs ys :
  (∀ x y, R x y → k1 x = k2 y) →
  Forall2 R xs ys → Forall2 R (sort_by_key k1 xs) (sort_by_key k2 ys).
Proof.
  intros Hk HF. induction HF as [|x y xs ys HR HF IH]; simpl; [constructor|].
  by apply insert_sorted_Forall2.
Qed.

(** The keys that [results.sort] computes. *)
Lemma gen_keys_run (R : Store.loc → Entry → Prop) h es acc :
  (∀ l e, R l e → ∃ c f r, h !! l = Some (Store.CEntry (day e) (slot e) c f r)) →
  Forall2 R es acc →
  ∃ keyed,
    Store.gen es (λ e, '(d, s, _, _, _) ← Store.read_entry e; mret [(e, (d, s))]) h
    = (Store.Ok keyed, h) ∧
    Forall2 (λ k e, R k.1 e ∧ k.2 = sort_key e) keyed acc.
Proof.
  intros HR HF. induction HF as [|l e es acc Hle HF IH]; simpl.
  - exists []. split; [done|constructor].
  - destruct IH as (keyed & Hrun & Hkeyed).
    destruct (HR l e Hle) as (c & f & r & Hl).
    rewrite (bind_run _ _ _ _ _
               (bind_run _ _ _ _ _ (read_entry_run _ _ _ _ _ _ _ Hl))).
    rewrite (bind_run _ _ _ _ _ Hrun).
    eexists. split; [done|]. by constructor.
Qed.

End runs.

Section refinement.

(** The store [h0] holds the data [d]. *)
Variables (h0 : gmap Store.loc Store.Cell) (d : Data).
Variables (cl fl rl sl tl : Store.loc) (cs fs rs ss : list Store.loc).
Hypothesis Hcl : h0 !! cl = Some (Store.CList cs).
Hypothesis Hfl : h0 !! fl = Some (Store.CList fs).
Hypothesis Hrl : h0 !! rl = Some (Store.CList rs).
Hypothesis Hsl : h0 !! sl = Some (Store.CList ss).
Hypothesis Htl : h0 !! tl = Some (Store.CTimeslots (ALL_TIMESLOTS d)).
Hypothesis Hcs : Forall2 (λ l c, h0 !! l = Some (Store.CCourse c)) cs (COURSES d).
Hypothesis Hfs : Forall2 (λ l f, h0 !! l = Some (Store.CFaculty f)) fs (FACULTY d).
Hypothesis Hrs : Forall2 (λ l r, h0 !! l = Some (Store.CRoom r)) rs (ROOMS d).
Hypothesis Hss :
  Forall2 (λ l e, h0 !! l = Some (Store.CElection e)) ss (STUDENT_ELECTIONS d).

(** The two objects created first. *)
Variables (model schedule : Store.loc).
Hypothesis Hm0 : h0 !! model = None.
Hypothesis Hs0 : h0 !! schedule = None.
Hypothesis Hne : model ≠ schedule.

Local Abbreviation inv := (in_store h0 model schedule).

Lemma inv_lookup st h l c : inv st h → h0 !! l = Some c → h !! l = Some c.
Proof. intros [Hh _] Hl. by apply (lookup_weaken h0). Qed.

Lemma foldl_ext {A S} (f g : S → A → S) (s : S) (l : list A) :
  (∀ s a, a ∈ l → f s a = g s a) → foldl f s l = foldl g s l.
Proof.
  revert s. induction l as [|a l IH]; intros s H; simpl; [done|].
  rewrite H by (by left). apply IH. intros s' a' Ha'. apply H. by right.
Qed.

Lemma quadruples_foldl {S} (f : S → Course * Faculty * Room * Timeslot → S) s :
  foldl f s (quadruples d)
  = foldl (λ s c, foldl (λ s f', foldl (λ s r, foldl (λ s t,
      f s (c, f', r, t)) s (ALL_TIMESLOTS d)) s (ROOMS d)) s (FACULTY d))
      s (COURSES d).
Proof.
  unfold quadruples. rewrite foldl_bind. apply foldl_ext. intros s1 c _.
  rewrite foldl_bind. apply foldl_ext. intros s2 f' _.
  rewrite foldl_bind. apply foldl_ext. intros s3 r _.
  rewrite foldl_bind. apply foldl_ext. intros s4 t _. done.
Qed.

Lemma new_bool_var_run st h :
  inv st h →
  Store.new_bool_var model h
  = (Store.Ok (NewBoolVar st.1).1, <[model := Store.CModel (NewBoolVar st.1).2]> h) ∧
  inv ((NewBoolVar st.1).2, st.2) (<[model := Store.CModel (NewBoolVar st.1).2]> h).
Proof.
  intros (Hh & Hm & Hs). split.
  - unfold Store.new_bool_var.
    rewrite (bind_run _ _ _ _ _ (read_model_run _ _ _ Hm)).
    rewrite (bind_run _ _ _ _ _ (write_run _ _ _ (mk_is_Some _ _ Hm))). done.
  - split; [by apply insert_subseteq_r|]. split.
    + by rewrite lookup_insert_eq.
    + by rewrite lookup_insert_ne.
Qed.

Lemma define_variables_run st h :
  inv st h →
  ∃ h', Store.define_variables cl fl rl tl model schedule h = (Store.Ok tt, h') ∧
        inv (foldl define_step st (quadruples d)) h'.
Proof.
  intros HI. rewrite quadruples_foldl. unfold Store.define_variables.
  rewrite (bind_run _ _ _ _ _ (read_list_run _ _ _ (inv_lookup _ _ _ _ HI Hcl))).
  revert st h HI. apply (for_run _ inv _ _ _ _ Hcs).
  intros course c st h Hc HI.
  rewrite (bind_run _ _ _ _ _ (read_list_run _ _ _ (inv_lookup _ _ _ _ HI Hfl))).
  revert st h HI. apply (for_run _ inv _ _ _ _ Hfs).
  intros faculty f st h Hf HI.
  rewrite (bind_run _ _ _ _ _ (read_list_run _ _ _ (inv_lookup _ _ _ _ HI Hrl))).
  revert st h HI. apply (for_run _ inv _ _ _ _ Hrs).
  intros room r st h Hr HI.
  rewrite (bind_run _ _ _ _ _
             (read_timeslots_run _ _ _ (inv_lookup _ _ _ _ HI Htl))).
  revert st h HI. apply (for_run _ inv _ _ _ _ (Forall2_eq_refl _)).
  intros t ? st h <- HI.
  rewrite (bind_run _ _ _ _ _ (read_course_run _ _ _ (inv_lookup _ _ _ _ HI Hc))).
  rewrite (bind_run _ _ _ _ _ (read_faculty_run _ _ _ (inv_lookup _ _ _ _ HI Hf))).
  rewrite (bind_run _ _ _ _ _ (read_room_run _ _ _ (inv_lookup _ _ _ _ HI Hr))).
  unfold define_step. destruct (eligible c f r t); [|by exists h].
  destruct (new_bool_var_run st h HI) as [Hrun (Hh1 & Hm1 & Hs1)].
  rewrite (bind_run _ _ _ _ _ Hrun).
  rewrite (bind_run _ _ _ _ _ (read_schedule_run _ _ _ Hs1)).
  rewrite (write_run _ _ _ (mk_is_Some _ _ Hs1)).
  eexists. split; [done|]. simpl in *.
  destruct (NewBoolVar st.1) as [x m'] eqn:HN. simpl in *.
  split; [by apply insert_subseteq_r|]. split.
  - by rewrite lookup_insert_ne.
  - by rewrite lookup_insert_eq.
Qed.


Lemma add_run st h e :
  inv st h →
  ∃ h', Store.add model e h = (Store.Ok tt, h') ∧ inv (Add e st.1, st.2) h'.
Proof.
  intros (Hh & Hm & Hs). eexists. split.
  - unfold Store.add. rewrite (bind_run _ _ _ _ _ (read_model_run _ _ _ Hm)).
    apply write_run. by eexists.
  - split; [by apply insert_subseteq_r|]. split.
    + by rewrite lookup_insert_eq.
    + by rewrite lookup_insert_ne.
Qed.

Lemma get_var_run st h k :
  inv st h → Store.get_var schedule k h = (Store.Ok (var_at st.2 k), h).
Proof.
  intros (Hh & Hm & Hs). unfold Store.get_var.
  by rewrite (bind_run _ _ _ _ _ (read_schedule_run _ _ _ Hs)).
Qed.

Lemma course_uniqueness_run m s h :
  inv (m, s) h →
  ∃ h', Store.course_uniqueness cl fl rl tl model schedule h = (Store.Ok tt, h') ∧
        inv (add_all (course_uniqueness d s) m, s) h'.
Proof.
  intros HI. unfold add_all, course_uniqueness. rewrite foldl_bind.
  unfold Store.course_uniqueness.
  rewrite (bind_run _ _ _ _ _ (read_list_run _ _ _ (inv_lookup _ _ _ _ HI Hcl))).
  revert m h HI.
  apply (for_run _ (λ m h, inv (m, s) h) _ _ _ _ Hcs).
  intros course c m h Hc HI. simpl.
  erewrite bind_run; [by apply (add_run (m, s))|].
  rewrite (bind_run _ _ _ _ _ (read_list_run _ _ _ (inv_lookup _ _ _ _ HI Hfl))).
  unfold course_vars. apply (gen_run _ _ _ _ _ _ Hfs). intros faculty f Hf.
  rewrite (bind_run _ _ _ _ _ (read_list_run _ _ _ (inv_lookup _ _ _ _ HI Hrl))).
  apply (gen_run _ _ _ _ _ _ Hrs). intros room r Hr.
  rewrite (bind_run _ _ _ _ _
             (read_timeslots_run _ _ _ (inv_lookup _ _ _ _ HI Htl))).
  apply (gen_run _ _ _ _ _ _ (Forall2_eq_refl _)). intros t ? <-.
  rewrite (bind_run _ _ _ _ _ (read_course_run _ _ _ (inv_lookup _ _ _ _ HI Hc))).
  rewrite (bind_run _ _ _ _ _ (read_faculty_run _ _ _ (inv_lookup _ _ _ _ HI Hf))).
  rewrite (bind_run _ _ _ _ _ (read_room_run _ _ _ (inv_lookup _ _ _ _ HI Hr))).
  apply (get_var_run (m, s) h _ HI).
Qed.


Lemma faculty_conflict_run m s h :
  inv (m, s) h →
  ∃ h', Store.faculty_conflict cl fl rl tl model schedule h = (Store.Ok tt, h') ∧
        inv (add_all (faculty_conflict d s) m, s) h'.
Proof.
  intros HI. unfold add_all, faculty_conflict. rewrite foldl_bind.
  unfold Store.faculty_conflict.
  rewrite (bind_run _ _ _ _ _ (read_list_run _ _ _ (inv_lookup _ _ _ _ HI Hfl))).
  revert m h HI.
  apply (for_run _ (λ m h, inv (m, s) h) _ _ _ _ Hfs).
  intros faculty f m h Hf HI. rewrite foldl_bind.
  rewrite (bind_run _ _ _ _ _
             (read_timeslots_run _ _ _ (inv_lookup _ _ _ _ HI Htl))).
  revert m h HI.
  apply (for_run _ (λ m h, inv (m, s) h) _ _ _ _ (Forall2_eq_refl _)).
  intros t ? m h <- HI. simpl.
  erewrite bind_run; [by apply (add_run (m, s))|].
  rewrite (bind_run _ _ _ _ _ (read_list_run _ _ _ (inv_lookup _ _ _ _ HI Hcl))).
  unfold faculty_vars. apply (gen_run _ _ _ _ _ _ Hcs). intros course c Hc.
  rewrite (bind_run _ _ _ _ _ (read_list_run _ _ _ (inv_lookup _ _ _ _ HI Hrl))).
  apply (gen_run _ _ _ _ _ _ Hrs). intros room r Hr.
  rewrite (bind_run _ _ _ _ _ (read_course_run _ _ _ (inv_lookup _ _ _ _ HI Hc))).
  rewrite (bind_run _ _ _ _ _ (read_faculty_run _ _ _ (inv_lookup _ _ _ _ HI Hf))).
  rewrite (bind_run _ _ _ _ _ (read_room_run _ _ _ (inv_lookup _ _ _ _ HI Hr))).
  apply (get_var_run (m, s) h _ HI).
Qed.

Lemma room_conflict_run m s h :
  inv (m, s) h →
  ∃ h', Store.room_conflict cl fl rl tl model schedule h = (Store.Ok tt, h') ∧
        inv (add_all (room_conflict d s) m, s) h'.
Proof.
  intros HI. unfold add_all, room_conflict. rewrite foldl_bind.
  unfold Store.room_conflict.
  rewrite (bind_run _ _ _ _ _ (read_list_run _ _ _ (inv_lookup _ _ _ _ HI Hrl))).
  revert m h HI.
  apply (for_run _ (λ m h, inv (m, s) h) _ _ _ _ Hrs).
  intros room r m h Hr HI. rewrite foldl_bind.
  rewrite (bind_run _ _ _ _ _
             (read_timeslots_run _ _ _ (inv_lookup _ _ _ _ HI Htl))).
  revert m h HI.
  apply (for_run _ (λ m h, inv (m, s) h) _ _ _ _ (Forall2_eq_refl _)).
  intros t ? m h <- HI. simpl.
  erewrite bind_run; [by apply (add_run (m, s))|].
  rewrite (bind_run _ _ _ _ _ (read_list_run _ _ _ (inv_lookup _ _ _ _ HI Hcl))).
  unfold room_vars. apply (gen_run _ _ _ _ _ _ Hcs). intros course c Hc.
  rewrite (bind_run _ _ _ _ _ (read_list_run _ _ _ (inv_lookup _ _ _ _ HI Hfl))).
  apply (gen_run _ _ _ _ _ _ Hfs). intros faculty f Hf.
  rewrite (bind_run _ _ _ _ _ (read_course_run _ _ _ (inv_lookup _ _ _ _ HI Hc))).
  rewrite (bind_run _ _ _ _ _ (read_faculty_run _ _ _ (inv_lookup _ _ _ _ HI Hf))).
  rewrite (bind_run _ _ _ _ _ (read_room_run _ _ _ (inv_lookup _ _ _ _ HI Hr))).
  apply (get_var_run (m, s) h _ HI).
Qed.

(** A cell allocated later is none of the cells of [h0], nor the model,
    nor the dict. *)
Lemma alloc_run st h c :
  inv st h →
  ∃ l, Store.alloc c h = (Store.Ok l, <[l := c]> h) ∧
       h !! l = None ∧ inv st (<[l := c]> h).
Proof.
  intros (Hh & Hm & Hs). exists (fresh (dom h)).
  assert (h !! fresh (dom h) = None) as Hfr.
  { apply not_elem_of_dom, is_fresh. }
  split; [done|]. split; [done|]. split; [|split].
  - apply insert_subseteq_r; [|done]. by apply (lookup_weaken_None _ h).
  - rewrite lookup_insert_ne; [done|]. intros <-. congruence.
  - rewrite lookup_insert_ne; [done|]. intros <-. congruence.
Qed.

Lemma inv_insert st h l c :
  inv st h → l ≠ model → l ≠ schedule → h0 !! l = None → inv st (<[l := c]> h).
Proof.
  intros (Hh & Hm & Hs) H1 H2 H3. split; [by apply insert_subseteq_r|].
  by rewrite !lookup_insert_ne.
Qed.

Lemma alloc_fresh st h c :
  inv st h →
  ∃ l, Store.alloc c h = (Store.Ok l, <[l := c]> h) ∧ h !! l = None ∧
       l ≠ model ∧ l ≠ schedule ∧ h0 !! l = None.
Proof.
  intros HI. destruct (alloc_run _ _ c HI) as (l & Hal & Hl & _).
  exists l. do 2 (split; [done|]). destruct HI as (Hh & Hm & Hs).
  split; [intros ->; congruence|]. split; [intros ->; congruence|].
  by apply (lookup_weaken_None _ h).
Qed.

Lemma student_conflict_run m s h :
  inv (m, s) h →
  ∃ h', Store.student_conflict fl rl sl tl model schedule h = (Store.Ok tt, h') ∧
        inv (add_all (student_conflict d s) m, s) h'.
Proof.
  intros HI. unfold Store.student_conflict.
  destruct (alloc_fresh _ _ (Store.CEnrollments []) HI)
    as (l & Hal & Hl & Hlm & Hls & Hl0).
  rewrite (bind_run _ _ _ _ _ Hal).
  assert (∃ h1,
    (elections ← Store.read_list sl;
     Store.for_ elections (λ election,
       e ← Store.read_election election;
       se ← Store.read_enrollments l;
       Store.write l (Store.CEnrollments (enroll se e))))
      (<[l := Store.CEnrollments []]> h) = (Store.Ok tt, h1) ∧
    (inv (m, s) h1 ∧
     h1 !! l = Some (Store.CEnrollments (student_enrollments d))))
    as (h1 & Hrun1 & HI2 & Hse).
  { pose proof (inv_insert _ _ l (Store.CEnrollments []) HI Hlm Hls Hl0) as HI1.
    rewrite (bind_run _ _ _ _ _
               (read_list_run _ _ _ (inv_lookup _ _ _ _ HI1 Hsl))).
    unfold student_enrollments.
    assert (inv (m, s) (<[l := Store.CEnrollments []]> h) ∧
            <[l := Store.CEnrollments []]> h !! l = Some (Store.CEnrollments []))
      as HJ by (split; [done|by rewrite lookup_insert_eq]).
    revert HJ. generalize (<[l := Store.CEnrollments []]> h).
    generalize (@nil (Z * list Z)).
    apply (for_run _ (λ se h, inv (m, s) h ∧ h !! l = Some (Store.CEnrollments se))
             _ _ _ _ Hss).
    intros election e se h2 He (HI2 & Hse).
    rewrite (bind_run _ _ _ _ _
               (read_election_run _ _ _ (inv_lookup _ _ _ _ HI2 He))).
    rewrite (bind_run _ _ _ _ _ (read_enrollments_run _ _ _ Hse)).
    rewrite (write_run _ _ _ (mk_is_Some _ _ Hse)).
    eexists. split; [done|]. split; [by apply inv_insert|].
    by rewrite lookup_insert_eq. }
  rewrite (bind_run _ _ _ _ _ Hrun1).
  rewrite (bind_run _ _ _ _ _ (read_enrollments_run _ _ _ Hse)).
  clear Hse Hrun1 Hal Hl HI. revert m h1 HI2.
  unfold add_all, student_conflict. intros m. rewrite foldl_bind. revert m.
  apply (for_run _ (λ m h, inv (m, s) h) _ _ _ _ (Forall2_eq_refl _)).
  intros item ? m h1 <- HI. rewrite foldl_bind.
  rewrite (bind_run _ _ _ _ _
             (read_timeslots_run _ _ _ (inv_lookup _ _ _ _ HI Htl))).
  revert m h1 HI.
  apply (for_run _ (λ m h, inv (m, s) h) _ _ _ _ (Forall2_eq_refl _)).
  intros t ? m h1 <- HI. simpl.
  erewrite bind_run; [by apply (add_run (m, s))|].
  unfold student_vars.
  apply (gen_run _ _ _ _ _ _ (Forall2_eq_refl _)). intros cid ? <-.
  rewrite (bind_run _ _ _ _ _ (read_list_run _ _ _ (inv_lookup _ _ _ _ HI Hfl))).
  apply (gen_run _ _ _ _ _ _ Hfs). intros faculty f Hf.
  rewrite (bind_run _ _ _ _ _ (read_list_run _ _ _ (inv_lookup _ _ _ _ HI Hrl))).
  apply (gen_run _ _ _ _ _ _ Hrs). intros room r Hr.
  rewrite (bind_run _ _ _ _ _ (read_faculty_run _ _ _ (inv_lookup _ _ _ _ HI Hf))).
  rewrite (bind_run _ _ _ _ _ (read_room_run _ _ _ (inv_lookup _ _ _ _ HI Hr))).
  apply (get_var_run (m, s) h1 _ HI).
Qed.


Lemma try_run (m : Store.M unit) h h' :
  m h = (Store.Ok tt, h') → Store.try_ m h = (Store.Ok tt, h').
Proof. intros H. unfold Store.try_. by rewrite H. Qed.

Lemma temporary_run tcl tc m s h :
  rep_constraints h0 tcl tc →
  inv (m, s) h →
  ∃ h', Store.temporary cl rl model schedule tcl h = (Store.Ok tt, h') ∧
        inv (add_all (temporary_exprs d s tc) m, s) h'.
Proof.
  intros Hrep HI. destruct tcl as [l|], tc as [ks|]; try done; [|by exists h].
  destruct Hrep as (ls & Hl & HF). unfold Store.temporary.
  rewrite (bind_run _ _ _ _ _ (read_list_run _ _ _ (inv_lookup _ _ _ _ HI Hl))).
  assert (∃ h', Store.for_ ls (λ constraint, Store.try_ (
            k ← Store.read_constraint constraint;
            courses ← Store.read_list cl; Store.for_ courses (λ course,
            rooms ← Store.read_list rl; Store.for_ rooms (λ room,
              c ← Store.read_course course; r ← Store.read_room room;
              s ← Store.read_schedule schedule;
              match s !! (c_id c, tc_faculty_id k, r_id r,
                          (tc_day k, tc_slot k)) with
              | Some x => Store.add model (SumEq [x] 0)
              | None => mret tt
              end)))) h = (Store.Ok tt, h') ∧
          inv (add_all (ks ≫= lock_exprs d s) m, s) h') as Hloop.
  { unfold add_all. rewrite foldl_bind. revert m h HI.
    apply (for_run _ (λ m h, inv (m, s) h) _ _ _ _ HF).
    intros constraint k m h Hk HI.
    assert (∀ P : gmap Store.loc Store.Cell → Prop,
              (∃ h', Store.for_ cs (λ course,
                 rooms ← Store.read_list rl; Store.for_ rooms (λ room,
                   c ← Store.read_course course; r ← Store.read_room room;
                   s ← Store.read_schedule schedule;
                   match s !! (c_id c, tc_faculty_id k, r_id r,
                               (tc_day k, tc_slot k)) with
                   | Some x => Store.add model (SumEq [x] 0)
                   | None => mret tt
                   end)) h = (Store.Ok tt, h') ∧ P h') →
              ∃ h', Store.try_ (
                k ← Store.read_constraint constraint;
                courses ← Store.read_list cl; Store.for_ courses (λ course,
                rooms ← Store.read_list rl; Store.for_ rooms (λ room,
                  c ← Store.read_course course; r ← Store.read_room room;
                  s ← Store.read_schedule schedule;
                  match s !! (c_id c, tc_faculty_id k, r_id r,
                              (tc_day k, tc_slot k)) with
                  | Some x => Store.add model (SumEq [x] 0)
                  | None => mret tt
                  end))) h = (Store.Ok tt, h') ∧ P h') as Htry.
    { intros P (h' & Hrun & HP). exists h'. split; [|done]. apply try_run.
      rewrite (bind_run _ _ _ _ _
                 (read_constraint_run _ _ _ (inv_lookup _ _ _ _ HI Hk))).
      by rewrite (bind_run _ _ _ _ _
                    (read_list_run _ _ _ (inv_lookup _ _ _ _ HI Hcl))). }
    apply Htry. clear Htry. unfold lock_exprs. rewrite foldl_bind.
    revert m h HI.
    apply (for_run _ (λ m h, inv (m, s) h) _ _ _ _ Hcs).
    intros course c m h Hc HI. rewrite foldl_bind.
    rewrite (bind_run _ _ _ _ _ (read_list_run _ _ _ (inv_lookup _ _ _ _ HI Hrl))).
    revert m h HI.
    apply (for_run _ (λ m h, inv (m, s) h) _ _ _ _ Hrs).
    intros room r m h Hr HI.
    rewrite (bind_run _ _ _ _ _ (read_course_run _ _ _ (inv_lookup _ _ _ _ HI Hc))).
    rewrite (bind_run _ _ _ _ _ (read_room_run _ _ _ (inv_lookup _ _ _ _ HI Hr))).
    rewrite (bind_run _ _ _ _ _ (read_schedule_run _ _ _ (proj2 (proj2 HI)))).
    simpl. destruct (s !! _) as [x|].
    - apply (add_run (m, s) h _ HI).
    - by exists h. }
  destruct HF as [|l1 k1 ls ks H1 HF]; [by exists h|]. exact Hloop.
Qed.


Lemma bind_raises {A B} (m : Store.M A) (f : A → Store.M B) h h' :
  m h = (Store.Error, h') → (m ≫= f) h = (Store.Error, h').
Proof. intros Hm. unfold mbind, Store.M_bind, Store.bind. by rewrite Hm. Qed.

Lemma read_constraint_raises l h c :
  h !! l = Some c → (∀ k, c ≠ Store.CConstraint k) →
  Store.read_constraint l h = (Store.Error, h).
Proof.
  intros Hl Hc. unfold Store.read_constraint.
  rewrite (bind_run _ _ _ _ _ (read_run _ _ _ Hl)).
  destruct c; try done. by destruct (Hc k).
Qed.

Lemma lock_step_foldl (s : gmap Key BoolVar) ks m :
  foldl (lock_step d s) m ks
  = add_all (temporary_exprs d s (Some (omap id ks))) m.
Proof.
  assert (∀ tcs, temporary_exprs d s (Some tcs) = tcs ≫= lock_exprs d s) as ->
    by (by intros []).
  revert m. induction ks as [|[k|] ks IH]; intros m; simpl; [done| |apply IH].
  rewrite IH. unfold add_all. csimpl. by rewrite foldl_app.
Qed.

(** The body of the loop of line 108 for a constraint that can be read. *)
Lemma lock_run constraint k m s h :
  h0 !! constraint = Some (Store.CConstraint k) →
  inv (m, s) h →
  ∃ h', Store.try_ (
          k ← Store.read_constraint constraint;
          courses ← Store.read_list cl; Store.for_ courses (λ course,
          rooms ← Store.read_list rl; Store.for_ rooms (λ room,
            c ← Store.read_course course; r ← Store.read_room room;
            s ← Store.read_schedule schedule;
            match s !! (c_id c, tc_faculty_id k, r_id r,
                        (tc_day k, tc_slot k)) with
            | Some x => Store.add model (SumEq [x] 0)
            | None => mret tt
            end))) h = (Store.Ok tt, h') ∧
        inv (add_all (lock_exprs d s k) m, s) h'.
Proof.
  intros Hk HI.
  assert (∃ h', Store.for_ cs (λ course,
             rooms ← Store.read_list rl; Store.for_ rooms (λ room,
               c ← Store.read_course course; r ← Store.read_room room;
               s ← Store.read_schedule schedule;
               match s !! (c_id c, tc_faculty_id k, r_id r,
                           (tc_day k, tc_slot k)) with
               | Some x => Store.add model (SumEq [x] 0)
               | None => mret tt
               end)) h = (Store.Ok tt, h') ∧
            inv (add_all (lock_exprs d s k) m, s) h') as (h' & Hrun & HI').
  { unfold add_all, lock_exprs. rewrite foldl_bind. revert m h HI.
    apply (for_run _ (λ m h, inv (m, s) h) _ _ _ _ Hcs).
    intros course c m h Hc HI. rewrite foldl_bind.
    rewrite (bind_run _ _ _ _ _ (read_list_run _ _ _ (inv_lookup _ _ _ _ HI Hrl))).
    revert m h HI.
    apply (for_run _ (λ m h, inv (m, s) h) _ _ _ _ Hrs).
    intros room r m h Hr HI.
    rewrite (bind_run _ _ _ _ _ (read_course_run _ _ _ (inv_lookup _ _ _ _ HI Hc))).
    rewrite (bind_run _ _ _ _ _ (read_room_run _ _ _ (inv_lookup _ _ _ _ HI Hr))).
    rewrite (bind_run _ _ _ _ _ (read_schedule_run _ _ _ (proj2 (proj2 HI)))).
    simpl. destruct (s !! _) as [x|].
    - apply (add_run (m, s) h _ HI).
    - by exists h. }
  exists h'. split; [|done]. apply try_run.
  rewrite (bind_run _ _ _ _ _
             (read_constraint_run _ _ _ (inv_lookup _ _ _ _ HI Hk))).
  by rewrite (bind_run _ _ _ _ _
                (read_list_run _ _ _ (inv_lookup _ _ _ _ HI Hcl))).
Qed.

(** Section 5 on a list in which some objects are no constraints: they are
    skipped by the [except] branch. *)
Lemma temporary_skip_run tcl ls ks m s h :
  h0 !! tcl = Some (Store.CList ls) →
  Forall2 (rep_constraint_opt h0) ls ks →
  inv (m, s) h →
  ∃ h', Store.temporary cl rl model schedule (Some tcl) h = (Store.Ok tt, h') ∧
        inv (add_all (temporary_exprs d s (Some (omap id ks))) m, s) h'.
Proof.
  intros Hl HF HI. unfold Store.temporary.
  rewrite (bind_run _ _ _ _ _ (read_list_run _ _ _ (inv_lookup _ _ _ _ HI Hl))).
  assert (∃ h', Store.for_ ls (λ constraint, Store.try_ (
            k ← Store.read_constraint constraint;
            courses ← Store.read_list cl; Store.for_ courses (λ course,
            rooms ← Store.read_list rl; Store.for_ rooms (λ room,
              c ← Store.read_course course; r ← Store.read_room room;
              s ← Store.read_schedule schedule;
              match s !! (c_id c, tc_faculty_id k, r_id r,
                          (tc_day k, tc_slot k)) with
              | Some x => Store.add model (SumEq [x] 0)
              | None => mret tt
              end)))) h = (Store.Ok tt, h') ∧
          inv (add_all (temporary_exprs d s (Some (omap id ks))) m, s) h')
    as Hloop.
  { rewrite <- lock_step_foldl. revert m h HI.
    apply (for_run _ (λ m h, inv (m, s) h) _ _ _ _ HF).
    intros constraint [k|] m h Hk HI; simpl in Hk.
    - by apply lock_run.
    - destruct Hk as (c & Hc & Hbad). exists h. split; [|done].
      unfold Store.try_.
      by rewrite (bind_raises _ _ _ _
                    (read_constraint_raises _ _ _ (inv_lookup _ _ _ _ HI Hc) Hbad)). }
  destruct ls; exact Hloop.
Qed.

Lemma add_only_enforce_if_run st h e b :
  inv st h →
  Store.add_only_enforce_if model e b h
  = (Store.Ok tt, <[model := Store.CModel (AddOnlyEnforceIf e b st.1)]> h) ∧
  inv (AddOnlyEnforceIf e b st.1, st.2)
      (<[model := Store.CModel (AddOnlyEnforceIf e b st.1)]> h).
Proof.
  intros (Hh & Hm & Hs). split.
  - unfold Store.add_only_enforce_if.
    rewrite (bind_run _ _ _ _ _ (read_model_run _ _ _ Hm)).
    apply write_run. by eexists.
  - split; [by apply insert_subseteq_r|]. split.
    + by rewrite lookup_insert_eq.
    + by rewrite lookup_insert_ne.
Qed.

Lemma maximize_run st h xs :
  inv st h →
  ∃ h', Store.maximize model xs h = (Store.Ok tt, h') ∧
        inv (Maximize xs st.1, st.2) h'.
Proof.
  intros (Hh & Hm & Hs). eexists. split.
  - unfold Store.maximize.
    rewrite (bind_run _ _ _ _ _ (read_model_run _ _ _ Hm)).
    apply write_run. by eexists.
  - split; [by apply insert_subseteq_r|]. split.
    + by rewrite lookup_insert_eq.
    + by rewrite lookup_insert_ne.
Qed.

Lemma minimize_changes_run pl prev m s h :
  rep_previous h0 pl prev →
  inv (m, s) h →
  ∃ h', Store.minimize_changes cl model schedule pl h = (Store.Ok tt, h') ∧
        inv (minimize_changes d s prev m, s) h'.
Proof.
  intros Hrep HI. destruct pl as [l|], prev as [es|]; try done; [|by exists h].
  destruct Hrep as (ls & Hl & HF). unfold Store.minimize_changes.
  rewrite (bind_run _ _ _ _ _ (read_list_run _ _ _ (inv_lookup _ _ _ _ HI Hl))).
  unfold minimize_changes.
  assert (∃ h', (reward_points ← Store.alloc (Store.CVars []);
          old_schedule_map ← Store.alloc (Store.COldMap ∅);
          Store.for_ ls (λ item,
            '(d, s, cl, fl, rl) ← Store.read_entry item;
            c ← Store.read_course cl; f ← Store.read_faculty fl;
            r ← Store.read_room rl;
            o ← Store.read_old old_schedule_map;
            Store.write old_schedule_map
              (Store.COldMap (<[c_id c := (f_id f, r_id r, (d, s))]> o)));;
          (courses ← Store.read_list cl; Store.for_ courses (λ course,
             c ← Store.read_course course;
             o ← Store.read_old old_schedule_map;
             match o !! c_id c with
             | Some (old_faculty, old_room, old_timeslot) =>
                 s ← Store.read_schedule schedule;
                 match s !! (c_id c, old_faculty, old_room, old_timeslot) with
                 | Some x =>
                     reward_var ← Store.new_bool_var model;
                     Store.add_only_enforce_if model (SumEq [x] 1) reward_var;;
                     rp ← Store.read_vars reward_points;
                     Store.write reward_points (Store.CVars (rp ++ [reward_var]))
                 | None => mret tt
                 end
             | None => mret tt
             end));;
          rp ← Store.read_vars reward_points;
          Store.maximize model rp) h = (Store.Ok tt, h') ∧
        inv ((let '(m', reward_points) :=
                foldl (reward_step s (old_schedule_map es)) (m, []) (COURSES d) in
              Maximize reward_points m'), s) h') as Hmain.
  { destruct (alloc_fresh _ _ (Store.CVars []) HI)
      as (rpl & Hal1 & Hfr1 & Hrm & Hrs' & Hr0).
    rewrite (bind_run _ _ _ _ _ Hal1).
    pose proof (inv_insert _ _ rpl (Store.CVars []) HI Hrm Hrs' Hr0) as HI1.
    destruct (alloc_fresh _ _ (Store.COldMap ∅) HI1)
      as (ol & Hal2 & Hfr2 & Hom & Hos & Ho0).
    rewrite (bind_run _ _ _ _ _ Hal2).
    pose proof (inv_insert _ _ ol (Store.COldMap ∅) HI1 Hom Hos Ho0) as HI2.
    assert (ol ≠ rpl) as Hor.
    { intros ->. by rewrite lookup_insert_eq in Hfr2. }
    set (h2 := <[ol := Store.COldMap ∅]> (<[rpl := Store.CVars []]> h)) in *.
    assert (h2 !! rpl = Some (Store.CVars [])) as Hrp2.
    { unfold h2. rewrite lookup_insert_ne by done. by rewrite lookup_insert_eq. }
    assert (h2 !! ol = Some (Store.COldMap ∅)) as Hol2.
    { unfold h2. by rewrite lookup_insert_eq. }
    clearbody h2. clear Hal1 Hal2 Hfr1 Hfr2 HI HI1 h.
    (* the old schedule map *)
    assert (∃ h3, Store.for_ ls (λ item,
              '(d, s, cl, fl, rl) ← Store.read_entry item;
              c ← Store.read_course cl; f ← Store.read_faculty fl;
              r ← Store.read_room rl;
              o ← Store.read_old ol;
              Store.write ol
                (Store.COldMap (<[c_id c := (f_id f, r_id r, (d, s))]> o))) h2
              = (Store.Ok tt, h3) ∧
            (inv (m, s) h3 ∧ h3 !! rpl = Some (Store.CVars []) ∧
             h3 !! ol = Some (Store.COldMap (old_schedule_map es))))
      as (h3 & Hrun3 & HI3 & Hrp3 & Hol3).
    { unfold old_schedule_map.
      assert (inv (m, s) h2 ∧ h2 !! rpl = Some (Store.CVars []) ∧
              h2 !! ol = Some (Store.COldMap ∅)) as HJ by done.
      revert HJ. generalize h2. generalize (∅ : gmap Z (Z * Z * Timeslot)).
      apply (for_run _ (λ o h, inv (m, s) h ∧ h !! rpl = Some (Store.CVars []) ∧
                               h !! ol = Some (Store.COldMap o)) _ _ _ _ HF).
      intros item e o h (c & f & r & He & Hc & Hf & Hr) (HI & Hrp & Hol).
      rewrite (bind_run _ _ _ _ _
                 (read_entry_run _ _ _ _ _ _ _ (inv_lookup _ _ _ _ HI He))).
      rewrite (bind_run _ _ _ _ _ (read_course_run _ _ _ (inv_lookup _ _ _ _ HI Hc))).
      rewrite (bind_run _ _ _ _ _ (read_faculty_run _ _ _ (inv_lookup _ _ _ _ HI Hf))).
      rewrite (bind_run _ _ _ _ _ (read_room_run _ _ _ (inv_lookup _ _ _ _ HI Hr))).
      rewrite (bind_run _ _ _ _ _ (read_old_run _ _ _ Hol)).
      rewrite (write_run _ _ _ (mk_is_Some _ _ Hol)).
      eexists. split; [done|]. split; [by apply inv_insert|]. split.
      - by rewrite lookup_insert_ne.
      - by rewrite lookup_insert_eq. }
    rewrite (bind_run _ _ _ _ _ Hrun3).
    (* the rewards *)
    assert (∃ h4, (courses ← Store.read_list cl; Store.for_ courses (λ course,
             c ← Store.read_course course;
             o ← Store.read_old ol;
             match o !! c_id c with
             | Some (old_faculty, old_room, old_timeslot) =>
                 s ← Store.read_schedule schedule;
                 match s !! (c_id c, old_faculty, old_room, old_timeslot) with
                 | Some x =>
                     reward_var ← Store.new_bool_var model;
                     Store.add_only_enforce_if model (SumEq [x] 1) reward_var;;
                     rp ← Store.read_vars rpl;
                     Store.write rpl (Store.CVars (rp ++ [reward_var]))
                 | None => mret tt
                 end
             | None => mret tt
             end)) h3 = (Store.Ok tt, h4) ∧
            (inv ((foldl (reward_step s (old_schedule_map es)) (m, [])
                     (COURSES d)).1, s) h4 ∧
             h4 !! rpl = Some (Store.CVars
               (foldl (reward_step s (old_schedule_map es)) (m, [])
                  (COURSES d)).2) ∧
             h4 !! ol = Some (Store.COldMap (old_schedule_map es))))
      as (h4 & Hrun4 & HI4 & Hrp4 & Hol4).
    { rewrite (bind_run _ _ _ _ _
                 (read_list_run _ _ _ (inv_lookup _ _ _ _ HI3 Hcl))).
      assert (inv ((m, @nil BoolVar).1, s) h3 ∧
              h3 !! rpl = Some (Store.CVars (m, @nil BoolVar).2) ∧
              h3 !! ol = Some (Store.COldMap (old_schedule_map es))) as HJ by done.
      revert HJ. generalize h3. generalize (m, @nil BoolVar).
      apply (for_run _ (λ (st : CpModel * list BoolVar) h,
                 inv (st.1, s) h ∧ h !! rpl = Some (Store.CVars st.2) ∧
                 h !! ol = Some (Store.COldMap (old_schedule_map es)))
               _ _ _ _ Hcs).
      intros course c st h Hc (HI & Hrp & Hol).
      rewrite (bind_run _ _ _ _ _ (read_course_run _ _ _ (inv_lookup _ _ _ _ HI Hc))).
      rewrite (bind_run _ _ _ _ _ (read_old_run _ _ _ Hol)).
      unfold reward_step.
      destruct (old_schedule_map es !! c_id c) as [[[ofa orm] otm]|];
        [|by exists h].
      rewrite (bind_run _ _ _ _ _ (read_schedule_run _ _ _ (proj2 (proj2 HI)))).
      cbn [fst snd]. destruct (s !! _) as [x|]; [|by exists h].
      destruct (new_bool_var_run _ _ HI) as [Hrun HI']. cbn [fst snd] in Hrun, HI'.
      rewrite (bind_run _ _ _ _ _ Hrun).
      destruct (NewBoolVar st.1) as [reward_var m'] eqn:HN. cbn [fst snd] in *.
      destruct (add_only_enforce_if_run _ _ (SumEq [x] 1) reward_var HI')
        as [Hrun' HI'']. cbn [fst snd] in Hrun', HI''.
      rewrite (bind_run _ _ _ _ _ Hrun').
      assert (<[model := Store.CModel (AddOnlyEnforceIf (SumEq [x] 1) reward_var m')]>
                (<[model := Store.CModel m']> h) !! rpl
              = Some (Store.CVars st.2)) as Hrp'.
      { by rewrite !lookup_insert_ne. }
      rewrite (bind_run _ _ _ _ _ (read_vars_run _ _ _ Hrp')).
      rewrite (write_run _ _ _ (mk_is_Some _ _ Hrp')).
      eexists. split; [done|]. split; [by apply inv_insert|]. split.
      - by rewrite lookup_insert_eq.
      - by rewrite !lookup_insert_ne. }
    rewrite (bind_run _ _ _ _ _ Hrun4).
    rewrite (bind_run _ _ _ _ _ (read_vars_run _ _ _ Hrp4)).
    destruct (foldl (reward_step s (old_schedule_map es)) (m, []) (COURSES d))
      as [m' rp]. simpl in *.
    apply (maximize_run (m', s) h4 rp HI4). }
  destruct HF as [|l1 e1 ls' es' H1 HF']; [by exists h|]. exact Hmain.
Qed.


Lemma decode_order_foldl {S} (f : S → Timeslot * Course * Faculty * Room → S) s :
  foldl f s (decode_order d)
  = foldl (λ s t, foldl (λ s c, foldl (λ s f', foldl (λ s r,
      f s (t, c, f', r)) s (ROOMS d)) s (FACULTY d)) s (COURSES d))
      s (ALL_TIMESLOTS d).
Proof.
  unfold decode_order. rewrite foldl_bind. apply foldl_ext. intros s1 t _.
  rewrite foldl_bind. apply foldl_ext. intros s2 c _.
  rewrite foldl_bind. apply foldl_ext. intros s3 f' _.
  rewrite foldl_bind. apply foldl_ext. intros s4 r _. done.
Qed.

Lemma entry_in_insert h l e l' c :
  entry_in h0 h l e → (∀ d s c f r, h !! l' ≠ Some (Store.CEntry d s c f r)) →
  entry_in h0 (<[l' := c]> h) l e.
Proof.
  intros (c1 & f1 & r1 & Hl & H) Hl'. exists c1, f1, r1. split; [|done].
  rewrite lookup_insert_ne; [done|]. intros ->. by apply Hl' in Hl.
Qed.

Lemma decode_run solver st h res :
  inv st h →
  results_of d st.2 (Value solver) = Some res →
  ∃ results es h',
    Store.decode cl fl rl tl schedule solver h = (Store.Ok results, h') ∧
    h0 ⊆ h' ∧ h0 !! results = None ∧
    h' !! results = Some (Store.CList es) ∧
    Forall2 (rep_entry h') es (sort_results res).
Proof.
  intros HI Hres. unfold Store.decode.
  (* the three maps *)
  assert (∃ cm, (courses ← Store.read_list cl;
                 Store.id_map (λ l, c ← Store.read_course l; mret (c_id c))
                   courses ∅) h = (Store.Ok cm, h) ∧
                ∀ i, option_Forall2 (λ l c, h0 !! l = Some (Store.CCourse c))
                       (cm !! i) (course_map d !! i)) as (cm & Hcm & Hcrel).
  { rewrite (bind_run _ _ _ _ _ (read_list_run _ _ _ (inv_lookup _ _ _ _ HI Hcl))).
    apply (id_map_run c_id _ _ _ _ _ Hcs).
    - intros l c Hl.
      by rewrite (bind_run _ _ _ _ _
                    (read_course_run _ _ _ (inv_lookup _ _ _ _ HI Hl))).
    - intros i. rewrite !lookup_empty. constructor. }
  rewrite (bind_run _ _ _ _ _ Hcm).
  assert (∃ fm, (facultys ← Store.read_list fl;
                 Store.id_map (λ l, f ← Store.read_faculty l; mret (f_id f))
                   facultys ∅) h = (Store.Ok fm, h) ∧
                ∀ i, option_Forall2 (λ l f, h0 !! l = Some (Store.CFaculty f))
                       (fm !! i) (faculty_map d !! i)) as (fm & Hfm & Hfrel).
  { rewrite (bind_run _ _ _ _ _ (read_list_run _ _ _ (inv_lookup _ _ _ _ HI Hfl))).
    apply (id_map_run f_id _ _ _ _ _ Hfs).
    - intros l f Hl.
      by rewrite (bind_run _ _ _ _ _
                    (read_faculty_run _ _ _ (inv_lookup _ _ _ _ HI Hl))).
    - intros i. rewrite !lookup_empty. constructor. }
  rewrite (bind_run _ _ _ _ _ Hfm).
  assert (∃ rm, (rooms ← Store.read_list rl;
                 Store.id_map (λ l, r ← Store.read_room l; mret (r_id r))
                   rooms ∅) h = (Store.Ok rm, h) ∧
                ∀ i, option_Forall2 (λ l r, h0 !! l = Some (Store.CRoom r))
                       (rm !! i) (room_map d !! i)) as (rm & Hrm & Hrrel).
  { rewrite (bind_run _ _ _ _ _ (read_list_run _ _ _ (inv_lookup _ _ _ _ HI Hrl))).
    apply (id_map_run r_id _ _ _ _ _ Hrs).
    - intros l r Hl.
      by rewrite (bind_run _ _ _ _ _
                    (read_room_run _ _ _ (inv_lookup _ _ _ _ HI Hl))).
    - intros i. rewrite !lookup_empty. constructor. }
  rewrite (bind_run _ _ _ _ _ Hrm).
  (* the list [results] *)
  destruct (alloc_fresh _ _ (Store.CList []) HI)
    as (results & Hal & Hfr & Hresm & Hress & Hres0).
  rewrite (bind_run _ _ _ _ _ Hal).
  pose proof (inv_insert _ _ results (Store.CList []) HI Hresm Hress Hres0) as HI1.
  assert (∃ h2,
    (timeslots ← Store.read_timeslots tl; Store.for_ timeslots (λ timeslot,
     courses ← Store.read_list cl; Store.for_ courses (λ course,
     facultys ← Store.read_list fl; Store.for_ facultys (λ faculty,
     rooms ← Store.read_list rl; Store.for_ rooms (λ room,
       c ← Store.read_course course; f ← Store.read_faculty faculty;
       r ← Store.read_room room;
       s ← Store.read_schedule schedule;
       match s !! key c f r timeslot with
       | Some x =>
           if Value solver x then
             cl ← Store.index cm (c_id c);
             fl ← Store.index fm (f_id f);
             rl ← Store.index rm (r_id r);
             entry ← Store.alloc (Store.CEntry timeslot.1 timeslot.2 cl fl rl);
             es ← Store.read_list results;
             Store.write results (Store.CList (es ++ [entry]))
           else mret tt
       | None => mret tt
       end))))) (<[results := Store.CList []]> h) = (Store.Ok tt, h2) ∧
    (inv st h2 ∧ ∃ es, h2 !! results = Some (Store.CList es) ∧
                       Forall2 (entry_in h0 h2) es res))
    as (h2 & Hrun2 & HI2 & es & Hes & HFes).
  { rewrite <- (results_of_foldl _ _ _ _ Hres). rewrite decode_order_foldl.
    rewrite (bind_run _ _ _ _ _
               (read_timeslots_run _ _ _ (inv_lookup _ _ _ _ HI1 Htl))).
    assert (inv st (<[results := Store.CList []]> h) ∧
            ∃ es, <[results := Store.CList []]> h !! results = Some (Store.CList es) ∧
                  Forall2 (entry_in h0 (<[results := Store.CList []]> h)) es [])
      as HJ.
    { split; [done|]. exists []. split; [by rewrite lookup_insert_eq|constructor]. }
    revert HJ. generalize (<[results := Store.CList []]> h).
    generalize (@nil Entry).
    pose (I := λ (acc : list Entry) (h : gmap Store.loc Store.Cell),
            inv st h ∧ ∃ es, h !! results = Some (Store.CList es) ∧
                             Forall2 (entry_in h0 h) es acc).
    apply (for_run _ I _ _ _ _ (Forall2_eq_refl _)).
    intros t ? acc h1 <- HJ.
    rewrite (bind_run _ _ _ _ _
               (read_list_run _ _ _ (inv_lookup _ _ _ _ (proj1 HJ) Hcl))).
    revert acc h1 HJ.
    apply (for_run _ I _ _ _ _ (Forall2_with_elem_of _ _ _ Hcs)).
    intros course c acc h1 [Hc Hcin] HJ.
    rewrite (bind_run _ _ _ _ _
               (read_list_run _ _ _ (inv_lookup _ _ _ _ (proj1 HJ) Hfl))).
    revert acc h1 HJ.
    apply (for_run _ I _ _ _ _ (Forall2_with_elem_of _ _ _ Hfs)).
    intros faculty f acc h1 [Hf Hfin] HJ.
    rewrite (bind_run _ _ _ _ _
               (read_list_run _ _ _ (inv_lookup _ _ _ _ (proj1 HJ) Hrl))).
    revert acc h1 HJ.
    apply (for_run _ I _ _ _ _ (Forall2_with_elem_of _ _ _ Hrs)).
    intros room r acc h1 [Hr Hrin] (HI' & es & Hes & HFes).
    rewrite (bind_run _ _ _ _ _ (read_course_run _ _ _ (inv_lookup _ _ _ _ HI' Hc))).
    rewrite (bind_run _ _ _ _ _ (read_faculty_run _ _ _ (inv_lookup _ _ _ _ HI' Hf))).
    rewrite (bind_run _ _ _ _ _ (read_room_run _ _ _ (inv_lookup _ _ _ _ HI' Hr))).
    rewrite (bind_run _ _ _ _ _ (read_schedule_run _ _ _ (proj2 (proj2 HI')))).
    unfold decode_step, chosen.
    destruct (st.2 !! key c f r t) as [x|]; [|exists h1; split; [done|]; by split; eauto].
    destruct (Value solver x); [|exists h1; split; [done|]; by split; eauto].
    unfold result_entry.
    destruct (by_id_is_Some c_id (COURSES d) ∅ c Hcin) as [c' Hc'].
    destruct (by_id_is_Some f_id (FACULTY d) ∅ f Hfin) as [f' Hf'].
    destruct (by_id_is_Some r_id (ROOMS d) ∅ r Hrin) as [r' Hr'].
    change (course_map d !! c_id c = Some c') in Hc'.
    change (faculty_map d !! f_id f = Some f') in Hf'.
    change (room_map d !! r_id r = Some r') in Hr'.
    rewrite Hc', Hf', Hr'. simpl.
    destruct (index_run _ _ _ _ _ h1 Hcrel Hc') as (lc & Hic & Hlc).
    destruct (index_run _ _ _ _ _ h1 Hfrel Hf') as (lf & Hif & Hlf).
    destruct (index_run _ _ _ _ _ h1 Hrrel Hr') as (lr & Hir & Hlr).
    rewrite (bind_run _ _ _ _ _ Hic), (bind_run _ _ _ _ _ Hif),
            (bind_run _ _ _ _ _ Hir).
    destruct (alloc_fresh _ _ (Store.CEntry t.1 t.2 lc lf lr) HI')
      as (entry & Hale & Hfre & Hem & Hes' & He0).
    rewrite (bind_run _ _ _ _ _ Hale).
    assert (entry ≠ results) as Hne' by (intros ->; congruence).
    assert (<[entry := Store.CEntry t.1 t.2 lc lf lr]> h1 !! results
            = Some (Store.CList es)) as Hes2 by by rewrite lookup_insert_ne.
    rewrite (bind_run _ _ _ _ _ (read_list_run _ _ _ Hes2)).
    rewrite (write_run _ _ _ (mk_is_Some _ _ Hes2)).
    eexists. split; [done|]. split; [by apply inv_insert; [apply inv_insert|..]|].
    exists (es ++ [entry]). split; [by rewrite lookup_insert_eq|].
    apply Forall2_app.
    - eapply Forall2_impl; [exact HFes|]. intros l e Hle.
      apply entry_in_insert.
      + apply entry_in_insert; [done|]. intros. congruence.
      + intros. rewrite lookup_insert_ne by done. congruence.
    - constructor; [|constructor]. exists lc, lf, lr. simpl.
      split; [|done]. rewrite lookup_insert_ne by done.
      by rewrite lookup_insert_eq. }
  rewrite (bind_run _ _ _ _ _ Hrun2).
  (* the sort *)
  rewrite (bind_run _ _ _ _ _ (read_list_run _ _ _ Hes)).
  destruct (gen_keys_run (entry_in h0 h2) h2 es res) as (keyed & Hkeyed & HFk);
    [by intros l e (c & f & r & Hl & _); eauto|done|].
  rewrite (bind_run _ _ _ _ _ Hkeyed).
  rewrite (bind_run _ _ _ _ _ (write_run _ _ _ (mk_is_Some _ _ Hes))).
  eexists results, _, _. split; [done|].
  destruct HI2 as (Hh2 & Hm2 & Hs2).
  split; [by apply insert_subseteq_r|]. split; [done|].
  split; [by rewrite lookup_insert_eq|].
  apply Forall2_fmap_l. unfold sort_results.
  eapply Forall2_impl.
  - apply (sort_by_key_Forall2 _ snd sort_key _ _ (λ k e H, proj2 H) HFk).
  - intros [l k] e [(c & f & r & Hl & Hc & Hf & Hr) _]. simpl in *.
    assert (l ≠ results) as Hlr by (intros ->; congruence).
    exists c, f, r. rewrite lookup_insert_ne by done. split; [done|].
    assert (h0 ⊆ <[results := Store.CList (sort_by_key snd keyed).*1]> h2)
      as Hsub by by apply insert_subseteq_r.
    repeat split; by apply (lookup_weaken h0).
Qed.


(** Sections 1 and 2 and the soft constraint leave the model of
    [build_model] in the model object. *)
Lemma build_model_run tcl tc pl prev h :
  rep_constraints h0 tcl tc → rep_previous h0 pl prev →
  inv (CpModel_new, ∅) h →
  ∃ h', inv (build_model d tc prev, schedule_of d) h' ∧
        ∀ A (k : Store.M A),
          (Store.define_variables cl fl rl tl model schedule;;
           Store.course_uniqueness cl fl rl tl model schedule;;
           Store.faculty_conflict cl fl rl tl model schedule;;
           Store.room_conflict cl fl rl tl model schedule;;
           Store.student_conflict fl rl sl tl model schedule;;
           Store.temporary cl rl model schedule tcl;;
           Store.minimize_changes cl model schedule pl;;
           k) h = k h'.
Proof.
  intros Htc Hprev HI.
  destruct (define_variables_run _ _ HI) as (h1 & H1 & HI1).
  unfold build_model, schedule_of, define_variables.
  destruct (foldl define_step (CpModel_new, ∅) (quadruples d)) as [m s].
  unfold hard_exprs. cbn [snd].
  destruct (course_uniqueness_run _ _ _ HI1) as (h2 & H2 & HI2).
  destruct (faculty_conflict_run _ _ _ HI2) as (h3 & H3 & HI3).
  destruct (room_conflict_run _ _ _ HI3) as (h4 & H4 & HI4).
  destruct (student_conflict_run _ _ _ HI4) as (h5 & H5 & HI5).
  destruct (temporary_run _ _ _ _ _ Htc HI5) as (h6 & H6 & HI6).
  destruct (minimize_changes_run _ _ _ _ _ Hprev HI6) as (h7 & H7 & HI7).
  exists h7. split.
  - unfold add_all in *. by rewrite !foldl_app.
  - intros A k.
    rewrite (bind_run _ _ _ _ _ H1), (bind_run _ _ _ _ _ H2),
            (bind_run _ _ _ _ _ H3), (bind_run _ _ _ _ _ H4),
            (bind_run _ _ _ _ _ H5), (bind_run _ _ _ _ _ H6).
    by rewrite (bind_run _ _ _ _ _ H7).
Qed.

End refinement.

(** X7.  On a store that holds the arguments, the function on the store
    returns what the function on values returns and never raises: [None]
    for [None], and for a list a new list object of entry objects that hold
    its entries, in the same order, with the records of the store. *)
Theorem generate_schedule_on_store (Solve : CpModel → Response)
    (h0 : gmap Store.loc Store.Cell) (data : Store.loc) (d : Data)
    (tcl : option Store.loc) (tc : option (list TempConstraint))
    (pl : option Store.loc) (prev : option (list Entry)) :
  rep_data h0 data d → rep_constraints h0 tcl tc → rep_previous h0 pl prev →
  ∃ h',
    match generate_schedule Solve d tc prev with
    | Raised_KeyError => False
    | Returned None =>
        Store.generate_schedule Solve data tcl pl h0 = (Store.Ok None, h')
    | Returned (Some l) =>
        ∃ results es,
          Store.generate_schedule Solve data tcl pl h0
          = (Store.Ok (Some results), h') ∧
          h0 !! results = None ∧
          h' !! results = Some (Store.CList es) ∧
          Forall2 (rep_entry h') es l
    end.
Proof.
  intros (cl & fl & rl & sl & tl & cs & fs & rs & ss & Hdata & Hcl & Hfl & Hrl &
          Hsl & Htl & Hcs & Hfs & Hrs & Hss) Htc Hprev.
  unfold Store.generate_schedule.
  rewrite (bind_run _ _ _ _ _ (read_data_run _ _ _ _ _ _ _ Hdata)).
  set (model := fresh (dom h0)).
  set (h1 := <[model := Store.CModel CpModel_new]> h0).
  set (schedule := fresh (dom h1)).
  set (h2 := <[schedule := Store.CSchedule ∅]> h1).
  rewrite (bind_run _ _ _ _ _
             (eq_refl : Store.alloc (Store.CModel CpModel_new) h0
                        = (Store.Ok model, h1))).
  rewrite (bind_run _ _ _ _ _
             (eq_refl : Store.alloc (Store.CSchedule ∅) h1
                        = (Store.Ok schedule, h2))).
  assert (h0 !! model = None) as Hm0 by apply not_elem_of_dom, is_fresh.
  assert (h1 !! schedule = None) as Hs1 by apply not_elem_of_dom, is_fresh.
  assert (model ≠ schedule) as Hne.
  { intros E. unfold h1 in Hs1. rewrite <- E in Hs1.
    by rewrite lookup_insert_eq in Hs1. }
  assert (h0 !! schedule = None) as Hs0.
  { unfold h1 in Hs1. by rewrite lookup_insert_ne in Hs1. }
  assert (in_store h0 model schedule (CpModel_new, ∅) h2) as HI.
  { split; [|split].
    - unfold h2, h1. by do 2 (apply insert_subseteq_r; [done|]).
    - unfold h2, h1. rewrite lookup_insert_ne by done. by rewrite lookup_insert_eq.
    - unfold h2. by rewrite lookup_insert_eq. }
  clearbody h2.
  destruct (build_model_run h0 d cl fl rl sl tl cs fs rs ss Hcl Hfl Hrl Hsl Htl
               Hcs Hfs Hrs Hss model schedule Hm0 Hs0 Hne tcl tc pl prev h2
               Htc Hprev HI) as (h3 & HI3 & Hrun).
  rewrite Hrun. clear Hrun.
  rewrite (bind_run _ _ _ _ _ (read_model_run _ _ _ (proj1 (proj2 HI3)))).
  destruct (generate_schedule_outcome Solve d tc prev) as (res & Hres & _ & ->).
  cbn [fst snd].
  destruct (status (Solve (build_model d tc prev))); try by exists h3.
  - destruct (decode_run h0 d cl fl rl tl cs fs rs Hcl Hfl Hrl Htl Hcs Hfs Hrs
                model schedule Hm0 Hs0 Hne (Solve (build_model d tc prev)) _ _ res HI3 Hres)
      as (results & es & h4 & Hdec & Hsub & Hr0 & Hr4 & HF).
    rewrite (bind_run _ _ _ _ _ Hdec). exists h4, results, es. done.
  - destruct (decode_run h0 d cl fl rl tl cs fs rs Hcl Hfl Hrl Htl Hcs Hfs Hrs
                model schedule Hm0 Hs0 Hne (Solve (build_model d tc prev)) _ _ res HI3 Hres)
      as (results & es & h4 & Hdec & Hsub & Hr0 & Hr4 & HF).
    rewrite (bind_run _ _ _ _ _ Hdec). exists h4, results, es. done.
Qed.

(** The worked timetable, on the store. *)
Lemma ex_rep_data : rep_data ex_heap 0%nat ex_data.
Proof.
  exists 1%nat, 2%nat, 3%nat, 4%nat, 5%nat, [10; 11]%nat, [20; 21]%nat,
         [30; 31]%nat, [40; 41; 42]%nat.
  do 6 (split; [vm_compute; reflexivity|]).
  do 3 (split; [repeat (constructor; [vm_compute; reflexivity|]); constructor|]).
  repeat (constructor; [vm_compute; reflexivity|]); constructor.
Qed.

Lemma generate_schedule_on_store_witness :
  ∃ h' results es,
    Store.generate_schedule ex_Solve_feasible 0%nat None None ex_heap
    = (Store.Ok (Some results), h') ∧
    h' !! results = Some (Store.CList es) ∧
    Forall2 (rep_entry h') es ex_schedule.
Proof.
  destruct (generate_schedule_on_store ex_Solve_feasible ex_heap 0%nat ex_data
              None None None None ex_rep_data I I) as [h' H].
  assert (generate_schedule ex_Solve_feasible ex_data None None
          = Returned (Some ex_schedule)) as E by (vm_compute; reflexivity).
  rewrite E in H. destruct H as (results & es & Hrun & _ & Hes & HF).
  exists h', results, es. split; [exact Hrun|]. split; [exact Hes|exact HF].
Defined.

(** X8.  Section 5 on the store never raises: an element of
    [temporary_constraints] from which the fields of a constraint cannot be
    read is skipped by the [except] branch, and the model receives the
    locks of the other elements, in order. *)
Theorem malformed_constraints_skipped (h0 : gmap Store.loc Store.Cell) (d : Data)
    (cl rl : Store.loc) (cs rs : list Store.loc) (model schedule : Store.loc)
    (tcl : Store.loc) (ls : list Store.loc) (ks : list (option TempConstraint))
    (m : CpModel) (s : gmap Key BoolVar) (h : gmap Store.loc Store.Cell) :
  h0 !! cl = Some (Store.CList cs) → h0 !! rl = Some (Store.CList rs) →
  Forall2 (λ l c, h0 !! l = Some (Store.CCourse c)) cs (COURSES d) →
  Forall2 (λ l r, h0 !! l = Some (Store.CRoom r)) rs (ROOMS d) →
  h0 !! model = None →
  h0 !! tcl = Some (Store.CList ls) →
  Forall2 (rep_constraint_opt h0) ls ks →
  in_store h0 model schedule (m, s) h →
  ∃ h', Store.temporary cl rl model schedule (Some tcl) h = (Store.Ok tt, h') ∧
        in_store h0 model schedule
          (add_all (temporary_exprs d s (Some (omap id ks))) m, s) h'.
Proof.
  intros Hcl Hrl Hcs Hrs Hm0 Hl HF HI.
  assert (model ≠ schedule) as Hne.
  { destruct HI as (_ & Hm & Hs). intros E. rewrite E in Hm. congruence. }
  exact (temporary_skip_run h0 d cl rl cs rs Hcl Hrl Hcs Hrs model schedule
           Hm0 Hne tcl ls ks m s h Hl HF HI).
Qed.

Lemma malformed_constraints_skipped_witness :
  ∃ h', Store.temporary 1%nat 3%nat 60%nat 61%nat (Some 50%nat) ex_heap_running
        = (Store.Ok tt, h') ∧
        in_store ex_heap_locks 60%nat 61%nat
          (add_all (temporary_exprs ex_data (schedule_of ex_data)
                      (Some (omap id [None; Some ex_lock])))
                   (define_variables ex_data).1,
           schedule_of ex_data) h'.
Proof.
  apply (malformed_constraints_skipped ex_heap_locks ex_data 1%nat 3%nat
           [10; 11]%nat [30; 31]%nat 60%nat 61%nat 50%nat [51; 52]%nat
           [None; Some ex_lock]).
  - vm_compute. reflexivity.
  - vm_compute. reflexivity.
  - repeat (constructor; [vm_compute; reflexivity|]). constructor.
  - repeat (constructor; [vm_compute; reflexivity|]). constructor.
  - vm_compute. reflexivity.
  - vm_compute. reflexivity.
  - constructor.
    { exists (Store.CList []). split; [vm_compute; reflexivity|]. intros k. discriminate. }
    constructor; [vm_compute; reflexivity|constructor].
  - split; [|split].
    + unfold ex_heap_running.
      apply insert_subseteq_r; [vm_compute; reflexivity|].
      apply insert_subseteq_r; [vm_compute; reflexivity|]. reflexivity.
    + vm_compute. reflexivity.
    + vm_compute. reflexivity.
Defined.

(** * Properties of [get_all_solver_data] *)

(** ** The two grouping loops *)

Lemma append_at_lookup d k v k' :
  od_lookup k' (append_at k v d)
  = if decide (k = k') then Some (default [] (od_lookup k' d) ++ [v])
    else od_lookup k' d.
Proof.
  unfold append_at.
  destruct (od_lookup k d) as [vs|] eqn:Hl.
  - rewrite Hl, od_lookup_set.
    destruct (decide (k = k')) as [<-|]; [|done]. by rewrite Hl.
  - rewrite od_lookup_set, decide_True by done. rewrite !od_lookup_set.
    destruct (decide (k = k')) as [<-|]; [|done]. by rewrite Hl.
Qed.

Lemma append_at_NoDup d k v : NoDup d.*1 → NoDup (append_at k v d).*1.
Proof.
  intros Hnd. unfold append_at.
  destruct (od_lookup k d) as [vs|] eqn:Hl; simpl.
  - rewrite Hl. by apply od_set_NoDup.
  - rewrite od_lookup_set, decide_True by done. by do 2 apply od_set_NoDup.
Qed.

(** Grouping the rows by a key: the list stored at [k] holds the values of
    the rows of key [k], in the order of the rows. *)
Lemma group_fold_lookup {A} (kf vf : A → Z) (rows : list A) d k :
  get_or_empty k (foldl (λ d row, append_at (kf row) (vf row) d) d rows)
  = get_or_empty k d ++ (vf <$> filter (λ row, kf row = k) rows).
Proof.
  unfold get_or_empty. revert d. induction rows as [|row rows IH]; intros d; simpl.
  - by rewrite app_nil_r.
  - rewrite IH, append_at_lookup, filter_cons.
    destruct (decide (kf row = k)) as [Heq|Hne]; [|done].
    rewrite fmap_cons. simpl. by rewrite <- app_assoc.
Qed.

(** ** The timeslot index, whatever the ids are *)

Lemma od_set_values {V} (k : Z) (v x : V) (od : list (Z * V)) :
  x ∈ (od_set k v od).*2 → x = v ∨ x ∈ od.*2.
Proof.
  induction od as [|[k0 v0] od IH]; csimpl.
  - intros ->%list_elem_of_singleton. by left.
  - destruct (decide (k0 = k)) as [->|Hne]; csimpl.
    + intros [->|Hx]%elem_of_cons; [by left|]. right. by right.
    + intros [->|Hx]%elem_of_cons; [right; by left|].
      destruct (IH Hx) as [->|Hin]; [by left|]. right. by right.
Qed.

Lemma od_set_values_NoDup {V} (k : Z) (v : V) (od : list (Z * V)) :
  NoDup od.*2 → v ∉ od.*2 → NoDup (od_set k v od).*2.
Proof.
  induction od as [|[k0 v0] od IH]; csimpl; intros Hnd Hv.
  - apply NoDup_singleton.
  - apply NoDup_cons in Hnd as [Hv0 Hnd]. apply not_elem_of_cons in Hv as [Hne Hv].
    destruct (decide (k0 = k)) as [->|Hk]; csimpl.
    + apply NoDup_cons. by split.
    + apply NoDup_cons. split; [|by apply IH].
      intros [->|Hin]%od_set_values; done.
Qed.

Lemma od_set_keys_incl {V} (k : Z) (v : V) (od : list (Z * V)) x :
  x ∈ (od_set k v od).*1 → x = k ∨ x ∈ od.*1.
Proof.
  rewrite od_set_keys. destruct (decide (k ∈ od.*1)); [by right|].
  intros [?|Hx]%elem_of_app; [by right|].
  apply list_elem_of_singleton in Hx. by left.
Qed.

Lemma index_loop_inv rows ids st :
  index_inv ids st → (∀ ts, ts ∈ rows → ts_id ts ∈ ids) →
  ∃ st', index_loop rows st = Some st' ∧ index_inv ids st'.
Proof.
  revert st. induction rows as [|ts rows IH]; intros st Hinv Hids; simpl.
  - by exists st.
  - assert (∀ ts', ts' ∈ rows → ts_id ts' ∈ ids) as Hids'
      by (intros ts' Hin; apply Hids; by right).
    destruct (day_map !! day_of_week ts) as [D|] eqn:HD; [|by apply IH].
    destruct Hinv as (Hsi & Hk & Hv & Hin & Hlt).
    destruct (Hsi D (day_map_range _ _ HD)) as [n Hn]. rewrite Hn. simpl.
    apply IH; [|done]. split; [|split; [|split; [|split]]]; simpl.
    + intros D' HD'. rewrite lookup_insert_is_Some.
      destruct (decide (D = D')); [by left|]. right. split; [done|]. by apply Hsi.
    + by apply od_set_NoDup.
    + apply od_set_values_NoDup; [done|]. intros Hc.
      destruct (Hlt D n Hc) as (n' & Hn' & Hlt'). rewrite Hn in Hn'.
      injection Hn' as <-. lia.
    + intros k [->|Hk']%od_set_keys_incl; [|by apply Hin].
      apply Hids. by left.
    + intros D' s [[= -> ->]|Hc]%od_set_values.
      * exists (n + 1). rewrite lookup_insert_eq. split; [done|lia].
      * destruct (Hlt D' s Hc) as (n' & Hn' & Hlt').
        destruct (decide (D = D')) as [<-|Hne].
        -- exists (n + 1). rewrite lookup_insert_eq. split; [done|].
           rewrite Hn in Hn'. injection Hn' as <-. lia.
        -- exists n'. by rewrite lookup_insert_ne.
Qed.

Lemma index_inv_init ids : index_inv ids ([], slot_indices_init).
Proof.
  split; [|split; [|split; [|split]]]; simpl.
  - intros D HD. unfold slot_indices_init.
    repeat (apply elem_of_cons in HD as [->|HD]; [by eexists|]).
    by apply elem_of_nil in HD.
  - constructor.
  - constructor.
  - by intros k ?%elem_of_nil.
  - by intros D s ?%elem_of_nil.
Qed.

Lemma timeslot_id_map_total rows :
  ∃ m, timeslot_id_map rows = Some m ∧
       NoDup m.*1 ∧ NoDup m.*2 ∧ ∀ k, k ∈ m.*1 → k ∈ ts_id <$> rows.
Proof.
  destruct (index_loop_inv rows (ts_id <$> rows) _ (index_inv_init _))
    as ([m si] & Hrun & _ & Hk & Hv & Hin & _).
  { intros ts Hts. apply list_elem_of_fmap. by exists ts. }
  exists m. unfold timeslot_id_map. rewrite Hrun. done.
Qed.

Lemma od_lookup_iff {V} (k : Z) (v : V) (od : list (Z * V)) :
  NoDup od.*1 → od_lookup k od = Some v ↔ (k, v) ∈ od.
Proof.
  intros Hnd. split; [apply od_lookup_elem_of|by apply od_elem_of_lookup].
Qed.

(** ** The package *)

Lemma omap_fmap_compose {A B C} (g : A → B) (h : B → option C) (l : list A) :
  omap h (g <$> l) = omap (λ a, h (g a)) l.
Proof. induction l as [|a l IH]; [done|]. csimpl. by rewrite IH. Qed.

Lemma get_all_solver_data_Some q p :
  get_all_solver_data q = Some p →
  timeslot_id_map (all_timeslots_db q) = Some (TIMESLOT_ID_MAP p) ∧
  COURSES (solver_data p)
  = with_preferred_faculty (faculty_preferences (preference_rows q)) <$> courses q ∧
  FACULTY (solver_data p)
  = with_availability (TIMESLOT_ID_MAP p)
      (faculty_availability (availability_rows q)) <$> faculty_rows q ∧
  ROOMS (solver_data p) = rooms q ∧
  STUDENT_ELECTIONS (solver_data p) = student_elections q ∧
  ALL_TIMESLOTS (solver_data p) = (TIMESLOT_ID_MAP p).*2.
Proof.
  unfold get_all_solver_data.
  destruct (timeslot_id_map (all_timeslots_db q)) as [m|]; [|done].
  simpl. by intros [= <-].
Qed.

Lemma package_availability q p f :
  get_all_solver_data q = Some p → f ∈ FACULTY (solver_data p) →
  f_availability f
  = omap (λ row, od_lookup (av_timeslot_id row) (TIMESLOT_ID_MAP p))
         (filter (λ row, av_faculty_id row = f_id f) (availability_rows q)).
Proof.
  intros (_ & _ & HF & _)%get_all_solver_data_Some Hf.
  rewrite HF in Hf. apply list_elem_of_fmap in Hf as (row & -> & _). simpl.
  unfold faculty_availability. rewrite group_fold_lookup. simpl.
  apply omap_fmap_compose.
Qed.

Lemma package_preferred_faculty q p c :
  get_all_solver_data q = Some p → c ∈ COURSES (solver_data p) →
  c_preferred_faculty c
  = pr_faculty_id <$> filter (λ row, pr_course_id row = c_id c) (preference_rows q).
Proof.
  intros (_ & HC & _)%get_all_solver_data_Some Hc.
  rewrite HC in Hc. apply list_elem_of_fmap in Hc as (row & -> & _). simpl.
  unfold faculty_preferences. by rewrite group_fold_lookup.
Qed.

(** X9.  The availability handed to the solver for a faculty member is
    the list of the coordinates of that member's availability rows, in the
    order of the rows, without the rows whose timeslot id is not in the
    timeslot index; every such coordinate is one of [ALL_TIMESLOTS]. *)
Theorem availability_from_rows (q : QueryResults) (p : Package) (f : Faculty) :
  get_all_solver_data q = Some p → f ∈ FACULTY (solver_data p) →
  f_availability f
  = omap (λ row, od_lookup (av_timeslot_id row) (TIMESLOT_ID_MAP p))
         (filter (λ row, av_faculty_id row = f_id f) (availability_rows q)) ∧
  ∀ t, t ∈ f_availability f → t ∈ ALL_TIMESLOTS (solver_data p).
Proof.
  intros Hp Hf. pose proof (package_availability q p f Hp Hf) as Hav.
  split; [done|]. rewrite Hav.
  apply get_all_solver_data_Some in Hp as (_ & _ & _ & _ & _ & ->).
  intros t (row & _ & Hk)%list_elem_of_omap.
  apply od_lookup_elem_of in Hk. apply list_elem_of_fmap.
  by exists (av_timeslot_id row, t).
Qed.

(** X10.  The preferred faculty handed to the solver for a course are the
    faculty ids of the preference rows of that course, in the order of the
    rows. *)
Theorem preferred_faculty_from_rows (q : QueryResults) (p : Package) (c : Course) :
  get_all_solver_data q = Some p → c ∈ COURSES (solver_data p) →
  c_preferred_faculty c
  = pr_faculty_id <$> filter (λ row, pr_course_id row = c_id c) (preference_rows q).
Proof.
  apply package_preferred_faculty.
Qed.

(** X11.  Whatever the rows are, the re-formatting raises no [KeyError];
    the timeslots handed to the solver are the values of the timeslot
    index and are pairwise distinct, and the reversed index of line 202
    sends a coordinate to an id exactly when the index sends that id to
    that coordinate. *)
Theorem get_all_solver_data_total (q : QueryResults) :
  ∃ p, get_all_solver_data q = Some p ∧
       ALL_TIMESLOTS (solver_data p) = (TIMESLOT_ID_MAP p).*2 ∧
       NoDup (ALL_TIMESLOTS (solver_data p)) ∧
       (∀ k, k ∈ (TIMESLOT_ID_MAP p).*1 → k ∈ ts_id <$> all_timeslots_db q) ∧
       ∀ k t, od_lookup k (TIMESLOT_ID_MAP p) = Some t ↔
              reverse_timeslot_map (TIMESLOT_ID_MAP p) !! t = Some k.
Proof.
  destruct (timeslot_id_map_total (all_timeslots_db q)) as (m & Hm & Hk & Hv & Hin).
  unfold get_all_solver_data. rewrite Hm. simpl. eexists. split; [done|]. simpl.
  split; [done|]. split; [done|]. split; [done|]. intros k t.
  by rewrite reverse_timeslot_map_spec, od_lookup_iff.
Qed.

(** ** The solver on the package *)

(** X12.  Whatever the solver answers, an entry of a schedule computed from
    the package puts a faculty member only at a coordinate for which that
    member has an availability row, and only on a course for which that
    member has a preference row. *)
Theorem scheduled_where_rows_allow (Solve : CpModel → Response)
    (q : QueryResults) (p : Package) (tc : option (list TempConstraint))
    (prev : option (list Entry)) (l : list Entry) (e : Entry) :
  get_all_solver_data q = Some p →
  generate_schedule Solve (solver_data p) tc prev = Returned (Some l) →
  e ∈ l →
  (∃ row, row ∈ availability_rows q ∧ av_faculty_id row = f_id (faculty e) ∧
          od_lookup (av_timeslot_id row) (TIMESLOT_ID_MAP p)
          = Some (day e, slot e)) ∧
  (∃ row, row ∈ preference_rows q ∧ pr_course_id row = c_id (course e) ∧
          pr_faculty_id row = f_id (faculty e)).
Proof.
  intros Hp Hret He.
  destruct (returned_entry_for Solve _ tc prev l e Hret He)
    as ([[[t c] f] r] & Hq & Hk & _).
  unfold hits in Hq. apply list_elem_of_filter in Hq as [Hch _].
  unfold chosen in Hch.
  destruct (schedule_of (solver_data p) !! key c f r t) as [x|] eqn:Hx; [|done].
  destruct (proj1 (schedule_key_iff _ _) (mk_is_Some _ _ Hx))
    as (c' & f' & r' & t' & Hc' & Hf' & _ & _ & Hkey & Hpref & Hav & _).
  unfold entry_key, hit_key in Hk. simpl in Hk. rewrite Hkey in Hk.
  unfold key in Hk. injection Hk as Hcid Hfid _ Ht.
  split.
  - rewrite (package_availability q p f' Hp Hf') in Hav.
    apply list_elem_of_omap in Hav as (row & Hrow & Hlk).
    apply list_elem_of_filter in Hrow as [Hrf Hrow].
    exists row. split; [done|]. split; [congruence|].
    by rewrite Hlk, Ht.
  - rewrite (package_preferred_faculty q p c' Hp Hc') in Hpref.
    apply list_elem_of_fmap in Hpref as (row & Hrf & Hrow).
    apply list_elem_of_filter in Hrow as [Hrc Hrow].
    exists row. split; [done|]. split; congruence.
Qed.

Lemma bind_nil_r {A B} (l : list A) : l ≫= (λ _, @nil B) = [].
Proof. induction l as [|a l IH]; [done|]. by rewrite bind_cons, IH. Qed.

Lemma no_courses_outcome (Solve : CpModel → Response) d tc prev :
  COURSES d = [] →
  generate_schedule Solve d tc prev = Returned None ∨
  generate_schedule Solve d tc prev = Returned (Some []).
Proof.
  intros Hc.
  destruct (generate_schedule_outcome Solve d tc prev) as (res & _ & HF & ->).
  assert (decode_order d = []) as Hd.
  { unfold decode_order. rewrite Hc. apply bind_nil_r. }
  unfold hits in HF. rewrite Hd in HF. apply Forall2_nil_inv_l in HF as ->.
  destruct (status _); auto.
Qed.

(** The coordinate of a returned entry has an id in the timeslot index. *)
Lemma returned_entry_timeslot (Solve : CpModel → Response) d tc prev l e :
  generate_schedule Solve d tc prev = Returned (Some l) → e ∈ l →
  (day e, slot e) ∈ ALL_TIMESLOTS d.
Proof.
  intros Hret He.
  destruct (returned_entry_for Solve d tc prev l e Hret He)
    as ([[[t c] f] r] & Hq & Hk & _).
  unfold hits in Hq. apply list_elem_of_filter in Hq as [_ Hq].
  apply elem_of_decode_order in Hq as (Ht & _).
  unfold entry_key, hit_key, key in Hk. simpl in Hk.
  injection Hk as _ _ _ Hds. by rewrite Hds.
Qed.

Lemma insert_data_cons m e l :
  insert_data m (e :: l)
  = match reverse_timeslot_map m !! (day e, slot e) with
    | Some timeslot_id =>
        if decide (timeslot_id = 0) then insert_data m l
        else (c_id (course e), f_id (faculty e), r_id (room e), timeslot_id)
             :: insert_data m l
    | None => insert_data m l
    end.
Proof.
  unfold insert_data. cbn [omap list_omap].
  destruct (reverse_timeslot_map m !! (day e, slot e)) as [k|]; [|done].
  by destruct (decide (k = 0)).
Qed.

Lemma insert_data_Forall2 m l :
  NoDup m.*1 → NoDup m.*2 → 0 ∉ m.*1 →
  (∀ e, e ∈ l → (day e, slot e) ∈ m.*2) →
  Forall2 (λ e row,
             row.1.1.1 = c_id (course e) ∧ row.1.1.2 = f_id (faculty e) ∧
             row.1.2 = r_id (room e) ∧
             od_lookup row.2 m = Some (day e, slot e))
          l (insert_data m l).
Proof.
  intros Hk Hv H0. induction l as [|e l IH]; intros Hin; [constructor|].
  rewrite insert_data_cons.
  assert ((day e, slot e) ∈ m.*2) as He by (apply Hin; by left).
  apply list_elem_of_fmap in He as ([k t] & Ht & Hkt). simpl in Ht. subst t.
  assert (reverse_timeslot_map m !! (day e, slot e) = Some k) as ->
    by exact (proj2 (reverse_timeslot_map_spec m _ k Hv) Hkt).
  rewrite decide_False.
  2:{ intros ->. apply H0. apply list_elem_of_fmap. by exists (0, (day e, slot e)). }
  constructor.
  - simpl. repeat split. by apply od_lookup_iff.
  - apply IH. intros e' He'. apply Hin. by right.
Qed.

(** X13.  When no timeslot row has the id [0], a schedule that
    [run_real_solver] answers with is saved whole: the table [timetable]
    then holds one row per entry, in the order of the entries, with the
    ids of the entry's course, faculty member and room and a timeslot id
    that the timeslot index sends to the entry's coordinate. *)
Theorem saved_rows (Solve : CpModel → Response) (q : QueryResults)
    (p : Package) (timetable saved : list TimetableRow) (l : list Entry) :
  get_all_solver_data q = Some p →
  (∀ ts, ts ∈ all_timeslots_db q → ts_id ts ≠ 0) →
  run_real_solver Solve q timetable = (Http200 l, saved) →
  Forall2 (λ e row,
             row.1.1.1 = c_id (course e) ∧ row.1.1.2 = f_id (faculty e) ∧
             row.1.2 = r_id (room e) ∧
             od_lookup row.2 (TIMESLOT_ID_MAP p) = Some (day e, slot e))
          l saved.
Proof.
  intros Hp Hids Hrun.
  destruct (timeslot_id_map_total (all_timeslots_db q)) as (m & Hm & Hk & Hv & Hin).
  pose proof (get_all_solver_data_Some q p Hp) as (Hm' & _ & _ & _ & _ & HT).
  rewrite Hm in Hm'. injection Hm' as ->.
  unfold run_real_solver in Hrun. rewrite Hp in Hrun.
  destruct (generate_schedule Solve (solver_data p) None None)
    as [|[[|e0 l0]|]] eqn:Hret; try done.
  injection Hrun as <- <-.
  apply insert_data_Forall2; [done..| |].
  - intros H0. apply Hin in H0. apply list_elem_of_fmap in H0 as (ts & H0 & Hts).
    by apply (Hids ts).
  - intros e He.
    pose proof (returned_entry_timeslot Solve _ None None (e0 :: l0) e Hret He)
      as Ht.
    rewrite HT in Ht. exact Ht.
Qed.

(** X14.  A timeslot row with the id [0] loses its classes at saving: an
    entry at the coordinate of that row yields no row of [timetable],
    because [if timeslot_id:] is false for [0]. *)
Theorem timeslot_id_zero_dropped (m : list (Z * Timeslot)) (l1 l2 : list Entry)
    (e : Entry) :
  NoDup m.*2 → (0, (day e, slot e)) ∈ m →
  insert_data m (l1 ++ e :: l2) = insert_data m (l1 ++ l2).
Proof.
  intros Hv He. unfold insert_data. rewrite !omap_app. f_equal.
  fold (insert_data m (e :: l2)) (insert_data m l2). rewrite insert_data_cons.
  assert (reverse_timeslot_map m !! (day e, slot e) = Some 0) as ->
    by exact (proj2 (reverse_timeslot_map_spec m _ 0 Hv) He).
  by rewrite decide_True.
Qed.

(** X15.  With an empty course table [run_real_solver] answers 400 and
    leaves the table [timetable] as it is, whatever the solver says: the
    empty schedule that the solver may return counts as no schedule. *)
Theorem no_courses_answer_400 (Solve : CpModel → Response) (q : QueryResults)
    (timetable : list TimetableRow) :
  courses q = [] →
  run_real_solver Solve q timetable = (Http400, timetable).
Proof.
  intros Hc. destruct (timeslot_id_map_total (all_timeslots_db q)) as (m & Hm & _).
  unfold run_real_solver, get_all_solver_data. rewrite Hm, Hc. simpl.
  match goal with
  | |- context [generate_schedule Solve ?d None None] =>
      destruct (no_courses_outcome Solve d None None eq_refl) as [-> | ->]
  end; done.
Qed.

(** X16.  [run_rescheduler] answers with a schedule only when the previous
    schedule of the request is not empty; when the solver keeps its
    contract, that schedule is not empty and has no entry that puts the
    faculty member of the constraint at the coordinate of the constraint. *)
Theorem rescheduler_keeps_lock (Solve : CpModel → Response) (q : QueryResults)
    (p : Package) (constraint : TempConstraint)
    (previous_schedule : option (list Entry)) (l : list Entry) :
  get_all_solver_data q = Some p →
  cp_sat_contract
    (build_model (solver_data p) (Some [constraint]) previous_schedule)
    (Solve (build_model (solver_data p) (Some [constraint]) previous_schedule)) →
  run_rescheduler Solve q (Some constraint) previous_schedule = Http200 l →
  (∃ item items, previous_schedule = Some (item :: items)) ∧
  l ≠ [] ∧
  ∀ e, e ∈ l →
    ¬ (f_id (faculty e) = tc_faculty_id constraint ∧
       day e = tc_day constraint ∧ slot e = tc_slot constraint).
Proof.
  intros Hp Hct Hrun. unfold run_rescheduler in Hrun.
  destruct previous_schedule as [[|item items]|]; try done.
  rewrite Hp in Hrun.
  destruct (generate_schedule Solve (solver_data p) (Some [constraint])
              (Some (item :: items))) as [|[[|e0 l0]|]] eqn:Hret; try done.
  injection Hrun as <-.
  split; [by eauto|]. split; [done|].
  intros e He (HF & HD & HS).
  pose proof (returned_hard_exprs Solve _ _ _ _ Hct Hret) as Hhard.
  destruct (returned_entry_for Solve _ _ _ _ e Hret He)
    as ([[[t c] f] r] & Hq & Hk & _).
  unfold hits in Hq. apply list_elem_of_filter in Hq as [Hch Hq].
  apply elem_of_decode_order in Hq as (_ & Hc & _ & Hr).
  unfold entry_key, hit_key, key in Hk. simpl in Hk.
  injection Hk as _ Hfid _ Hday.
  unfold chosen, key in Hch.
  destruct (schedule_of (solver_data p) !! _) as [x|] eqn:Hx; [|done].
  rewrite <- Hfid, HF, <- Hday, HD, HS in Hx.
  assert (constraint ∈ [constraint]) as Htc by (by apply list_elem_of_singleton).
  pose proof (hard_elem _ _ _ Hhard _
                (lock_expr_elem_of _ _ constraint c r x Htc Hc Hr Hx)) as H0.
  simpl in H0. unfold lin_sum in H0. simpl in H0. rewrite Hch in H0. done.
Qed.

(** ** The worked timetable, from the rows *)

Lemma ex_get_all_solver_data : get_all_solver_data ex_queries = Some ex_package.
Proof. vm_compute. reflexivity. Qed.

Lemma availability_from_rows_witness :
  f_availability ex_f2
  = omap (λ row, od_lookup (av_timeslot_id row) (TIMESLOT_ID_MAP ex_package))
         (filter (λ row, av_faculty_id row = f_id ex_f2)
                 (availability_rows ex_queries)) ∧
  ∀ t, t ∈ f_availability ex_f2 → t ∈ ALL_TIMESLOTS (solver_data ex_package).
Proof.
  apply (availability_from_rows ex_queries ex_package ex_f2).
  - exact ex_get_all_solver_data.
  - apply list_elem_of_further, list_elem_of_here.
Defined.

Lemma preferred_faculty_from_rows_witness :
  c_preferred_faculty ex_c2
  = pr_faculty_id <$> filter (λ row, pr_course_id row = c_id ex_c2)
                             (preference_rows ex_queries).
Proof.
  apply (preferred_faculty_from_rows ex_queries ex_package ex_c2).
  - exact ex_get_all_solver_data.
  - apply list_elem_of_further, list_elem_of_here.
Defined.

Lemma ex_generate_package :
  generate_schedule ex_Solve_feasible (solver_data ex_package) None None
  = Returned (Some ex_schedule).
Proof. vm_compute. reflexivity. Qed.

Lemma scheduled_where_rows_allow_witness :
  (∃ row, row ∈ availability_rows ex_queries ∧ av_faculty_id row = 2 ∧
          od_lookup (av_timeslot_id row) (TIMESLOT_ID_MAP ex_package)
          = Some (0, 0)) ∧
  (∃ row, row ∈ preference_rows ex_queries ∧ pr_course_id row = 2 ∧
          pr_faculty_id row = 2).
Proof.
  apply (scheduled_where_rows_allow ex_Solve_feasible ex_queries ex_package
           None None ex_schedule
           {| day := 0; slot := 0; course := ex_c2; faculty := ex_f2;
              room := ex_r2 |}).
  - exact ex_get_all_solver_data.
  - exact ex_generate_package.
  - apply list_elem_of_here.
Defined.

Lemma saved_rows_witness :
  run_real_solver ex_Solve_feasible ex_queries []
  = (Http200 ex_schedule, [(2, 2, 2, 11); (1, 1, 1, 12)]) ∧
  Forall2 (λ e row,
             row.1.1.1 = c_id (course e) ∧ row.1.1.2 = f_id (faculty e) ∧
             row.1.2 = r_id (room e) ∧
             od_lookup row.2 (TIMESLOT_ID_MAP ex_package) = Some (day e, slot e))
          ex_schedule [(2, 2, 2, 11); (1, 1, 1, 12)].
Proof.
  assert (run_real_solver ex_Solve_feasible ex_queries []
          = (Http200 ex_schedule, [(2, 2, 2, 11); (1, 1, 1, 12)])) as Hrun
    by (vm_compute; reflexivity).
  split; [exact Hrun|].
  apply (saved_rows ex_Solve_feasible ex_queries ex_package []).
  - exact ex_get_all_solver_data.
  - intros ts Hts.
    repeat (apply elem_of_cons in Hts as [->|Hts]; [done|]).
    by apply elem_of_nil in Hts.
  - exact Hrun.
Defined.

Lemma timeslot_id_zero_dropped_witness :
  insert_data [(0, (0, 0)); (12, (0, 1))] ex_schedule
  = insert_data [(0, (0, 0)); (12, (0, 1))]
      [{| day := 0; slot := 1; course := ex_c1; faculty := ex_f1;
          room := ex_r1 |}].
Proof.
  apply (timeslot_id_zero_dropped [(0, (0, 0)); (12, (0, 1))] []
           [{| day := 0; slot := 1; course := ex_c1; faculty := ex_f1;
               room := ex_r1 |}]
           {| day := 0; slot := 0; course := ex_c2; faculty := ex_f2;
              room := ex_r2 |}).
  - apply NoDup_by_decide. vm_compute. reflexivity.
  - apply list_elem_of_here.
Defined.

Lemma no_courses_answer_400_witness :
  run_real_solver ex_Solve_optimal ex_queries_no_courses [(1, 1, 1, 11)]
  = (Http400, [(1, 1, 1, 11)]).
Proof.
  apply (no_courses_answer_400 ex_Solve_optimal ex_queries_no_courses).
  reflexivity.
Defined.

Lemma rescheduler_keeps_lock_witness :
  run_rescheduler ex_Solve_feasible ex_queries (Some ex_lock) (Some ex_schedule)
  = Http200 ex_schedule ∧
  ∀ e, e ∈ ex_schedule → ¬ (f_id (faculty e) = 2 ∧ day e = 0 ∧ slot e = 1).
Proof.
  assert (run_rescheduler ex_Solve_feasible ex_queries (Some ex_lock)
            (Some ex_schedule) = Http200 ex_schedule) as Hrun
    by (vm_compute; reflexivity).
  split; [exact Hrun|].
  apply (rescheduler_keeps_lock ex_Solve_feasible ex_queries ex_package ex_lock
           (Some ex_schedule) ex_schedule).
  - exact ex_get_all_solver_data.
  - vm_compute. reflexivity.
  - exact Hrun.
Defined.

(** X17.  The records handed to the solver carry the ids of the rows, in
    the order of the rows: when the ids of the course, faculty and room
    tables are pairwise distinct, so are the ids of [COURSES], [FACULTY]
    and [ROOMS], and no timeslot occurs twice. *)
Theorem package_unique_ids (q : QueryResults) (p : Package) :
  get_all_solver_data q = Some p →
  NoDup (cr_id <$> courses q) → NoDup (fr_id <$> faculty_rows q) →
  NoDup (r_id <$> rooms q) →
  c_id <$> COURSES (solver_data p) = cr_id <$> courses q ∧
  f_id <$> FACULTY (solver_data p) = fr_id <$> faculty_rows q ∧
  unique_ids (solver_data p) ∧ NoDup (ALL_TIMESLOTS (solver_data p)).
Proof.
  intros Hp Hc Hf Hr.
  destruct (timeslot_id_map_total (all_timeslots_db q)) as (m & Hm & _ & Hv & _).
  pose proof (get_all_solver_data_Some q p Hp) as (Hm' & HC & HF & HR & _ & HT).
  rewrite Hm in Hm'. injection Hm' as ->.
  assert (c_id <$> COURSES (solver_data p) = cr_id <$> courses q) as HC'.
  { rewrite HC, <- list_fmap_compose. done. }
  assert (f_id <$> FACULTY (solver_data p) = fr_id <$> faculty_rows q) as HF'.
  { rewrite HF, <- list_fmap_compose. done. }
  split; [done|]. split; [done|]. split.
  - unfold unique_ids. by rewrite HC', HF', HR.
  - by rewrite HT.
Qed.

Lemma package_unique_ids_witness :
  c_id <$> COURSES (solver_data ex_package) = cr_id <$> courses ex_queries ∧
  f_id <$> FACULTY (solver_data ex_package) = fr_id <$> faculty_rows ex_queries ∧
  unique_ids (solver_data ex_package) ∧
  NoDup (ALL_TIMESLOTS (solver_data ex_package)).
Proof.
  apply (package_unique_ids ex_queries ex_package).
  - exact ex_get_all_solver_data.
  - apply NoDup_by_decide. vm_compute. reflexivity.
  - apply NoDup_by_decide. vm_compute. reflexivity.
  - apply NoDup_by_decide. vm_compute. reflexivity.
Defined.
